(** * BEE2.4 compiler plug-ins: utilities, positioning conditions,
      resizable triggers and voice lines

    A shallow embedding of [src/utils.py], [src/conditions/positioning.py],
    [src/conditions/resizableTrigger.py] and [src/voiceLine.py].

    Conventions of the embedding:
    - a Python call that may raise returns [result A]: [Ok a] for a normal
      return, [Raise e] for an exception that leaves the function;
    - Python [str] is [string] (one [ascii] per character), Python [int] is
      [Z], Python [float] is idealised as a real number [R];
    - module-level variables are fields of an explicit state record that the
      functions thread through;
    - objects of modules that are not part of these four files ([vmfLib],
      [property_parser], [conditions], [vbsp], [BEE2_config], the standard
      library) are given by small models or by fields of an environment
      record, each introduced where it is first needed. *)

From Stdlib Require Import ZArith QArith Qround Reals Lra Lia List Sorted String Ascii.
From stdpp Require Import base option list gmap sets strings pretty.

Set Default Proof Using "Type".

(* ===================================================================== *)
(** * Python runtime                                                      *)
(* ===================================================================== *)

Module Py.

(** The exception classes that the embedded code raises or catches.
    [NonFinite] is not a Python class: floats are idealised as exact numbers,
    and a computation whose Python result would be an infinity or a NaN is
    cut short with it, so that nothing is stated about such runs.
    [UserError] stands for any exception raised by caller-supplied code. *)
Inductive exn : Type :=
| KeyError
| IndexError
| ValueError
| TypeError
| AttributeError
| AssertionError
| StopIteration
| FileNotFoundError
| FileExistsError
| IsADirectoryError
| NotADirectoryError
| ZeroDivisionError
| InvalidOperation
| NonFinite
| UserError (tag : string).

(** Outcome of a call: a value, or an exception in flight. *)
Inductive result (A : Type) : Type :=
| Ok (a : A)
| Raise (e : exn).
Arguments Ok {A} a.
Arguments Raise {A} e.

#[global] Instance result_ret : MRet result := fun A a => Ok a.
#[global] Instance result_bind : MBind result := fun A B f m =>
  match m with
  | Ok a => f a
  | Raise e => Raise e
  end.

#[global] Instance exn_eq_dec : EqDecision exn.
Proof. solve_decision. Defined.

(** [try: body except E: handler] for one exception class. *)
Definition try_except {A} (body : result A) (E : exn) (handler : result A) : result A :=
  match body with
  | Ok a => Ok a
  | Raise e => if decide (e = E) then handler else Raise e
  end.

(** ** Characters and strings *)

Definition tab : ascii := ascii_of_nat 9.
Definition space : ascii := ascii_of_nat 32.

(** [c in s] for a one-character [c]. *)
Fixpoint char_in (c : ascii) (s : string) : bool :=
  match s with
  | EmptyString => false
  | String d rest => if Ascii.eqb c d then true else char_in c rest
  end.

(** [str.casefold()] on the ASCII range: the upper-case letters are mapped to
    lower case, every other character is kept. *)
Definition casefold_char (c : ascii) : ascii :=
  let n := nat_of_ascii c in
  if ((65 <=? n) && (n <=? 90))%nat then ascii_of_nat (n + 32) else c.

Fixpoint casefold (s : string) : string :=
  match s with
  | EmptyString => EmptyString
  | String c rest => String (casefold_char c) (casefold rest)
  end.

(** [str.upper()] on the ASCII range. *)
Definition upper_char (c : ascii) : ascii :=
  let n := nat_of_ascii c in
  if ((97 <=? n) && (n <=? 122))%nat then ascii_of_nat (n - 32) else c.

Fixpoint upper (s : string) : string :=
  match s with
  | EmptyString => EmptyString
  | String c rest => String (upper_char c) (upper rest)
  end.

(** [''.join(chars)] for a list of characters. *)
Definition join_chars (chars : list ascii) : string :=
  fold_right String EmptyString chars.

(** [s.split(sep)] with an explicit one-character separator: every
    occurrence of [sep] ends a field, so consecutive separators and
    separators at either end produce empty fields; the result is never
    empty. *)
Fixpoint split (sep : ascii) (s : string) : list string :=
  match s with
  | EmptyString => [EmptyString]
  | String c rest =>
      if Ascii.eqb c sep then EmptyString :: split sep rest
      else match split sep rest with
           | field :: fields => String c field :: fields
           | [] => [String c EmptyString]
           end
  end.

(** [s[0]]: raises [IndexError] on the empty string. *)
Definition first_char (s : string) : result ascii :=
  match s with
  | EmptyString => Raise IndexError
  | String c _ => Ok c
  end.

(** [s[-1]]: raises [IndexError] on the empty string. *)
Fixpoint last_char (s : string) : result ascii :=
  match s with
  | EmptyString => Raise IndexError
  | String c EmptyString => Ok c
  | String _ rest => last_char rest
  end.

(** [s[1:]] and [s[:-1]]; slices never raise. *)
Definition drop_first (s : string) : string :=
  match s with
  | EmptyString => EmptyString
  | String _ rest => rest
  end.

Fixpoint drop_last (s : string) : string :=
  match s with
  | EmptyString => EmptyString
  | String _ EmptyString => EmptyString
  | String c rest => String c (drop_last rest)
  end.

(** [s.startswith(p)] and [s.lstrip(c)] for a single character [c]. *)
Fixpoint startswith (p s : string) : bool :=
  match p, s with
  | EmptyString, _ => true
  | String a p', String b s' => Ascii.eqb a b && startswith p' s'
  | String _ _, EmptyString => false
  end.

Fixpoint lstrip (c : ascii) (s : string) : string :=
  match s with
  | String d rest => if Ascii.eqb c d then lstrip c rest else s
  | EmptyString => EmptyString
  end.

(** ** Dynamically typed values

    The hashable scalars that reach [conv_bool] and the dictionaries keyed by
    them.  A float is carried as the rational it denotes. *)
Inductive value : Type :=
| VNone
| VBool (b : bool)
| VInt (n : Z)
| VFloat (q : Q)
| VStr (s : string)
| VBytes (s : string).

(** The number a numeric value denotes; [bool] is a subclass of [int]. *)
Definition as_number (v : value) : option Q :=
  match v with
  | VBool b => Some (inject_Z (if b then 1 else 0))
  | VInt n => Some (inject_Z n)
  | VFloat q => Some q
  | _ => None
  end.

(** [a == b], as used for dictionary keys: numbers of any type compare by
    value ([True == 1 == 1.0]), strings with strings, bytes with bytes. *)
Definition py_eq (a b : value) : bool :=
  match as_number a, as_number b with
  | Some x, Some y => Qeq_bool x y
  | _, _ =>
      match a, b with
      | VNone, VNone => true
      | VStr s, VStr t => String.eqb s t
      | VBytes s, VBytes t => String.eqb s t
      | _, _ => false
      end
  end.

(** Truth value of an object. *)
Definition truthy (v : value) : bool :=
  match v with
  | VNone => false
  | VBool b => b
  | VInt n => negb (n =? 0)%Z
  | VFloat q => negb (Qeq_bool q 0)
  | VStr s | VBytes s => negb (String.eqb s "")
  end.

(** A [dict] whose keys are values: entries in insertion order, at most one
    entry per key up to [py_eq]. *)
Definition dict (V : Type) : Type := list (value * V).

Fixpoint dict_lookup {V} (d : dict V) (k : value) : option V :=
  match d with
  | [] => None
  | (k', v) :: rest => if py_eq k' k then Some v else dict_lookup rest k
  end.

(** [d[k] = v]: an existing key keeps its place (and the first key object),
    only its value is replaced. *)
Fixpoint dict_set {V} (d : dict V) (k : value) (v : V) : dict V :=
  match d with
  | [] => [(k, v)]
  | (k', v') :: rest =>
      if py_eq k' k then (k', v) :: rest else (k', v') :: dict_set rest k v
  end.

(** A dictionary display [{k1: v1, k2: v2, ...}]. *)
Definition dict_display {V} (items : list (value * V)) : dict V :=
  fold_left (fun d kv => dict_set d kv.1 kv.2) items [].

(** [d[k]], raising [KeyError], and [d.get(k, default)]. *)
Definition dict_getitem {V} (d : dict V) (k : value) : result V :=
  match dict_lookup d k with
  | Some v => Ok v
  | None => Raise KeyError
  end.

Definition dict_get {V} (d : dict V) (k : value) (dflt : V) : V :=
  match dict_lookup d k with
  | Some v => v
  | None => dflt
  end.

End Py.

(* ===================================================================== *)
(** * utils.py: general utility functions                                 *)
(* ===================================================================== *)

Module utils.
Import Py.

(** ** Boolean coercion *)

(** The module-level table [BOOL_LOOKUP], written as the dictionary display
    of the source.  [False]/[0] and [1]/[True] are equal keys, so the display
    builds a table of fourteen entries. *)
Definition BOOL_LOOKUP : dict bool :=
  dict_display
    [ (VBool false, false);
      (VInt 0, false);
      (VStr "0", false);
      (VStr "no", false);
      (VStr "false", false);
      (VStr "FALSE", false);
      (VStr "n", false);
      (VStr "f", false);
      (VInt 1, true);
      (VBool true, true);
      (VStr "1", true);
      (VStr "yes", true);
      (VStr "true", true);
      (VStr "TRUE", true);
      (VStr "y", true);
      (VStr "t", true) ].

(** [val.casefold()]: only [str] has the method. *)
Definition value_casefold (val : value) : result value :=
  match val with
  | VStr s => Ok (VStr (casefold s))
  | _ => Raise AttributeError
  end.

Definition conv_bool (val : value) (default : value) : result value :=
  match val with
  | VNone => Ok default
  | _ =>
      try_except
        (b ← dict_getitem BOOL_LOOKUP val; Ok (VBool b))
        KeyError
        (folded ← value_casefold val;
         Ok (match dict_lookup BOOL_LOOKUP folded with
             | Some b => VBool b
             | None => default
             end))
  end.

(** [conv_bool] on a string, the form in which the condition code calls it:
    the attribute lookup cannot fail and the answer is a truth value. *)
Definition conv_bool_str (val : string) (default : bool) : bool :=
  match conv_bool (VStr val) (VBool default) with
  | Ok v => truthy v
  | Raise _ => default
  end.

Definition bool_as_int (val : bool) : string :=
  if val then "1" else "0".

(** ** Indentation *)

(** The loop of [get_indent]: [white] is the list built so far.  Falling off
    the end of the loop returns [None]. *)
Fixpoint get_indent_loop (white : list ascii) (line : string) : option string :=
  match line with
  | EmptyString => None
  | String char rest =>
      if char_in char (String space (String tab EmptyString))
      then get_indent_loop (white ++ [char]) rest
      else Some (join_chars white)
  end.

Definition get_indent (line : string) : option string :=
  get_indent_loop [] line.

(** ** Number parsing

    [float(text)] and [int(text)] for the decimal literals: surrounding
    white space is ignored, then an optional sign, digits with an optional
    fractional part (at least one digit in all) and an optional exponent.
    The result is the rational the text denotes; there is no rounding or
    overflow in this model.  The spellings of infinity and not-a-number,
    which Python accepts, end the run with [NonFinite]. *)
Definition digit_of (c : ascii) : option Z :=
  let n := nat_of_ascii c in
  if ((48 <=? n) && (n <=? 57))%nat then Some (Z.of_nat (n - 48)) else None.

(** Reads the longest run of digits: the number read so far, how many digits
    were read, and the rest of the text. *)
Fixpoint read_digits (acc : Z) (count : nat) (s : string) : Z * nat * string :=
  match s with
  | EmptyString => (acc, count, s)
  | String c rest =>
      match digit_of c with
      | Some d => read_digits (10 * acc + d)%Z (S count) rest
      | None => (acc, count, s)
      end
  end.

Definition is_whitespace (c : ascii) : bool :=
  let n := nat_of_ascii c in
  ((n =? 32) || ((9 <=? n) && (n <=? 13)) || ((28 <=? n) && (n <=? 31)))%nat.

Fixpoint strip_left (s : string) : string :=
  match s with
  | String c rest => if is_whitespace c then strip_left rest else s
  | EmptyString => EmptyString
  end.

Fixpoint strip_right (s : string) : string :=
  match s with
  | EmptyString => EmptyString
  | String c rest =>
      match strip_right rest with
      | EmptyString => if is_whitespace c then EmptyString else String c EmptyString
      | kept => String c kept
      end
  end.

(** [s.strip()] *)
Definition strip (s : string) : string := strip_right (strip_left s).

Definition is_nonfinite_literal (s : string) : bool :=
  let folded := casefold s in
  String.eqb folded "inf" || String.eqb folded "infinity" || String.eqb folded "nan".

(** An optional sign: [true] for a minus. *)
Definition read_sign (s : string) : bool * string :=
  match s with
  | String "-" rest => (true, rest)
  | String "+" rest => (false, rest)
  | _ => (false, s)
  end.

(** An optional exponent part; [None] when an exponent marker is not
    followed by digits. *)
Definition read_exponent (s : string) : option (Z * string) :=
  match s with
  | String "e" rest | String "E" rest =>
      let '(neg, rest) := read_sign rest in
      let '(e, n, rest) := read_digits 0 0 rest in
      if (n =? 0)%nat then None
      else Some ((if neg then - e else e)%Z, rest)
  | _ => Some (0%Z, s)
  end.

Definition scale10 (m e : Z) : Q :=
  (inject_Z m * Qpower (inject_Z 10) e)%Q.

Definition py_float (text : string) : result Q :=
  let '(neg, s) := read_sign (strip text) in
  if is_nonfinite_literal s then Raise NonFinite else
  let '(ipart, n1, s) := read_digits 0 0 s in
  let '(mant, n2, s) :=
    match s with
    | String "." rest => read_digits ipart 0 rest
    | _ => (ipart, 0%nat, s)
    end in
  if (n1 + n2 =? 0)%nat then Raise ValueError
  else match read_exponent s with
       | None => Raise ValueError
       | Some (e, EmptyString) =>
           Ok (scale10 (if neg then - mant else mant) (e - Z.of_nat n2))
       | Some (_, String _ _) => Raise ValueError
       end.

Definition py_int_of_str (text : string) : result Z :=
  let '(neg, s) := read_sign (strip text) in
  let '(n, count, s) := read_digits 0 0 s in
  if (count =? 0)%nat then Raise ValueError
  else match s with
       | EmptyString => Ok (if neg then - n else n)%Z
       | String _ _ => Raise ValueError
       end.

(** [int(x)] on a number: truncation towards zero. *)
Definition py_int (x : Q) : Z :=
  Z.quot (Qnum x) (Z.pos (Qden x)).

(** [conv_float] and [conv_int]; [None] stands for a [None] argument, on
    which [float]/[int] raise the [TypeError] that the handler also
    catches. *)
Definition conv_float (val : option string) (default : Q) : Q :=
  match val with
  | None => default
  | Some text =>
      match py_float text with
      | Ok x => x
      | Raise _ => default
      end
  end.

Definition conv_int (val : option string) (default : Z) : Z :=
  match val with
  | None => default
  | Some text =>
      match py_int_of_str text with
      | Ok n => n
      | Raise _ => default
      end
  end.

(** ** Stretch fitting *)

(** The generator [append_bothsides(deq)], after the priming [next(adder)]:
    it is suspended at one of its two [yield]s, and owns a reference to the
    deque it feeds. [at_back] tells which [yield] it waits at. *)
Record adder : Type := Adder {
  deq : list Z;
  at_back : bool;
}.

Definition append_bothsides (items : list Z) : adder :=
  {| deq := items; at_back := true |}.

(** [adder.send(item)]: the pending [yield] returns [item], which goes to the
    right end ([append]) or to the left end ([appendleft]); the generator
    then runs to its other [yield]. *)
Definition send (a : adder) (item : Z) : adder :=
  if at_back a
  then {| deq := deq a ++ [item]; at_back := false |}
  else {| deq := item :: deq a; at_back := true |}.

(** [for item in obj: if item <= dist: ...; break]: the item the inner loop
    stops at, if any. *)
Fixpoint first_fitting (obj : list Z) (dist : Z) : option Z :=
  match obj with
  | [] => None
  | item :: rest => if (item <=? dist)%Z then Some item else first_fitting rest dist
  end.

(** The [while dist >= smallest] loop. Each unit of [fuel] pays for one
    iteration; [None] means the fuel ran out before the loop ended. An
    iteration whose inner [for] finds no item changes nothing. *)
Fixpoint fit_while (fuel : nat) (obj : list Z) (smallest dist : Z) (a : adder)
  : option (Z * adder) :=
  if (smallest <=? dist)%Z then
    match fuel with
    | O => None
    | S fuel' =>
        match first_fitting obj dist with
        | Some item => fit_while fuel' obj smallest (dist - item) (send a item)
        | None => fit_while fuel' obj smallest dist a
        end
    end
  else Some (dist, a).

Definition sum (items : list Z) : Z := fold_right Z.add 0%Z items.

(** [fit(dist, obj)]; [None] when [fuel] does not suffice. *)
Definition fit (fuel : nat) (dist : Q) (obj : list Z) : option (result (list Z)) :=
  let dist := py_int dist in
  if (dist <=? 0)%Z then Some (Ok [])
  else
    let orig_dist := dist in
    match last obj with
    | None => Some (Raise IndexError)
    | Some smallest =>
        let a := append_bothsides [] in
        match fit_while fuel obj smallest dist a with
        | None => None
        | Some (dist, a) =>
            let a := if (0 <? dist)%Z then send a dist else a in
            if (sum (deq a) =? orig_dist)%Z
            then Some (Ok (deq a))
            else Some (Raise AssertionError)
        end
    end.

(** ** EmptyMapping *)

(** The class has [__slots__ = []]: an instance carries no data, and the
    module keeps exactly one of them. *)
Inductive EmptyMapping_t : Type := EmptyMapping.

(** The second argument of [pop]: a caller's default, or the private
    [__marker] when none was passed. *)
Inductive pop_default : Type :=
| marker
| given (default : value).

Module EmptyMapping_methods.

Definition __call__ (self : EmptyMapping_t) : EmptyMapping_t := self.
Definition __getitem__ (self : EmptyMapping_t) (item : value) : result value := Raise KeyError.
Definition __contains__ (self : EmptyMapping_t) (item : value) : bool := false.
Definition get (self : EmptyMapping_t) (item : value) (default : value) : value := default.
Definition __bool__ (self : EmptyMapping_t) : bool := false.
Definition __next__ (self : EmptyMapping_t) : result value := Raise StopIteration.
Definition __len__ (self : EmptyMapping_t) : Z := 0.
Definition __iter__ (self : EmptyMapping_t) : EmptyMapping_t := self.
Definition items := __iter__.
Definition values := __iter__.
Definition keys := __iter__.
Definition setdefault := get.
(** [update] takes any arguments and its body is [pass]; the object comes back as it
    was, together with the [None] that the call returns. *)
Definition update (self : EmptyMapping_t) (args : list value) : EmptyMapping_t * value :=
  (self, VNone).
Definition __setitem__ (self : EmptyMapping_t) (key val : value) := update self [key; val].
Definition __delitem__ (self : EmptyMapping_t) (key : value) := update self [key].
Definition clear (self : EmptyMapping_t) := update self [].
Definition pop (self : EmptyMapping_t) (key : value) (default : pop_default) : result value :=
  match default with
  | marker => Raise KeyError
  | given d => Ok d
  end.
Definition popitem (self : EmptyMapping_t) : result (value * value) := Raise KeyError.

End EmptyMapping_methods.

(** [list(m)]: [iter(m)] and then [next] until [StopIteration]; any other
    exception of [__next__] would leave the loop. As [__iter__] returns the
    mapping itself, the iterator state is the mapping. *)
Fixpoint iterate (fuel : nat) (it : EmptyMapping_t) : option (result (list value)) :=
  match fuel with
  | O => None
  | S fuel' =>
      match EmptyMapping_methods.__next__ it with
      | Raise StopIteration => Some (Ok [])
      | Raise e => Some (Raise e)
      | Ok v =>
          match iterate fuel' it with
          | Some (Ok vs) => Some (Ok (v :: vs))
          | other => other
          end
      end
  end.

(** The calls that the [MutableMapping] interface offers for changing a
    mapping. *)
Inductive mutation : Type :=
| m_setitem (key val : value)
| m_delitem (key : value)
| m_update (args : list value)
| m_clear
| m_setdefault (key default : value)
| m_pop (key default : value).

(** One mutating call: the mapping afterwards and what the call returned. *)
Definition mutate (self : EmptyMapping_t) (m : mutation) : EmptyMapping_t * result value :=
  match m with
  | m_setitem k v =>
      let '(self', r) := EmptyMapping_methods.__setitem__ self k v in (self', Ok r)
  | m_delitem k =>
      let '(self', r) := EmptyMapping_methods.__delitem__ self k in (self', Ok r)
  | m_update args =>
      let '(self', r) := EmptyMapping_methods.update self args in (self', Ok r)
  | m_clear =>
      let '(self', r) := EmptyMapping_methods.clear self in (self', Ok r)
  | m_setdefault k d => (self, Ok (EmptyMapping_methods.setdefault self k d))
  | m_pop k d => (self, EmptyMapping_methods.pop self k (given d))
  end.

Definition mutate_all (self : EmptyMapping_t) (ms : list mutation) : EmptyMapping_t :=
  fold_left (fun m c => (mutate m c).1) ms self.

(** ** Atomic file writer

    The part of the operating system that [AtomicWriter] acts on: a name
    space of paths, each bound to a regular file with its content or to a
    directory, and the supply of random names from which [tempfile] draws its
    candidates. Paths are compared as written. *)
Inductive node : Type :=
| File (content : string)
| Dir.

Record OS : Type := mkOS {
  nodes : gmap string node;
  tmp_names : list string;
}.

(** The content of the regular file at [path], if there is one. *)
Definition read_file (os : OS) (path : string) : option string :=
  match nodes os !! path with
  | Some (File content) => Some content
  | _ => None
  end.

(** A command: runs on a state, ends normally or with an exception, and
    leaves a state behind in both cases. *)
Definition cmd (S A : Type) : Type := S -> result A * S.

Definition cret {S A} (a : A) : cmd S A := fun s => (Ok a, s).
Definition craise {S A} (e : exn) : cmd S A := fun s => (Raise e, s).
Definition cbind {S A B} (c : cmd S A) (k : A -> cmd S B) : cmd S B :=
  fun s => match c s with
           | (Ok a, s') => k a s'
           | (Raise e, s') => (Raise e, s')
           end.
(** [try: c except E: pass] *)
Definition cexcept_pass {S} (c : cmd S unit) (E : exn) : cmd S unit :=
  fun s => match c s with
           | (Raise e, s') => if decide (e = E) then (Ok tt, s') else (Raise e, s')
           | done => done
           end.

Notation "'do' x <- c ; k" := (cbind c (fun x => k))
  (at level 10, x pattern, c at level 100, k at level 200).
Notation "'run' c ; k" := (cbind c (fun _ => k))
  (at level 10, c at level 100, k at level 200).

(** [posixpath.dirname]: everything up to the last slash, without trailing
    slashes unless it consists of slashes only. *)
Fixpoint has_slash (p : string) : bool :=
  match p with
  | EmptyString => false
  | String c rest => Ascii.eqb c "/" || has_slash rest
  end.

Fixpoint upto_last_slash (p : string) : string :=
  match p with
  | EmptyString => EmptyString
  | String c rest =>
      if has_slash rest then String c (upto_last_slash rest)
      else if Ascii.eqb c "/" then String c EmptyString
      else EmptyString
  end.

Fixpoint rstrip_slashes (p : string) : string :=
  match p with
  | EmptyString => EmptyString
  | String c rest =>
      match rstrip_slashes rest with
      | EmptyString => if Ascii.eqb c "/" then EmptyString else String c EmptyString
      | kept => String c kept
      end
  end.

Definition dirname (p : string) : string :=
  let head := upto_last_slash p in
  match rstrip_slashes head with
  | EmptyString => head
  | stripped => stripped
  end.

(** [os.path.join(dir, name)] for a relative [name]. *)
Definition path_join (dir name : string) : string :=
  match dir with
  | EmptyString => name
  | _ => match last_char dir with
         | Ok "/"%char => dir +:+ name
         | _ => dir +:+ "/" +:+ name
         end
  end.

(** The chain [d], [dirname d], ... of the directories that [os.makedirs]
    visits; [fuel] bounds its length by the length of the path. *)
Fixpoint lineage (fuel : nat) (d : string) : list string :=
  match fuel with
  | O => []
  | S fuel' =>
      if String.eqb (rstrip_slashes d) "" then []
      else d :: (if String.eqb (dirname d) d then [] else lineage fuel' (dirname d))
  end.

(** [os.makedirs(d, exist_ok=True)]: the empty path and a path through a
    regular file are errors; otherwise every directory of the chain exists
    afterwards. *)
Definition makedirs (d : string) : cmd OS unit := fun os =>
  if String.eqb d "" then (Raise FileNotFoundError, os)
  else
    let chain := lineage (String.length d) d in
    if existsb (fun p => bool_decide (is_Some (read_file os p))) chain
    then (Raise FileExistsError, os)
    else (Ok tt, mkOS (foldr (fun p m => <[p := Dir]> m) (nodes os) chain) (tmp_names os)).

(** [os.remove(path)] *)
Definition os_remove (path : string) : cmd OS unit := fun os =>
  match nodes os !! path with
  | None => (Raise FileNotFoundError, os)
  | Some Dir => (Raise IsADirectoryError, os)
  | Some (File _) => (Ok tt, mkOS (delete path (nodes os)) (tmp_names os))
  end.

(** [os.replace(src, dst)] for a regular file [src]: afterwards [dst] names
    the file and [src] is gone, in one step. *)
Definition os_replace (src dst : string) : cmd OS unit := fun os =>
  match nodes os !! src with
  | None => (Raise FileNotFoundError, os)
  | Some Dir => (Raise IsADirectoryError, os)
  | Some (File content) =>
      match nodes os !! dst with
      | Some Dir => (Raise IsADirectoryError, os)
      | _ => (Ok tt, mkOS (<[dst := File content]> (delete src (nodes os))) (tmp_names os))
      end
  end.

(** The file object that [tempfile.NamedTemporaryFile(delete=False)] hands
    out: the path it was created at and what has been written through it. *)
Record TempFile : Type := mkTemp {
  name : string;
  written : string;
}.

(** Creation of the temporary file: the candidates are tried in turn, a path
    that is already bound is skipped, the first free one is created empty. *)
Fixpoint mkstemp (dir : string) (candidates : list string) (os : OS) : result TempFile * OS :=
  match candidates with
  | [] => (Raise FileExistsError, mkOS (nodes os) [])
  | cand :: rest =>
      let path := path_join dir cand in
      match nodes os !! path with
      | Some _ => mkstemp dir rest os
      | None => (Ok (mkTemp path ""), mkOS (<[path := File ""]> (nodes os)) rest)
      end
  end.

Definition NamedTemporaryFile (mode : string) (dir : string) : cmd OS TempFile :=
  fun os => mkstemp dir (tmp_names os) os.

(** [f.write(text)] and [f.close()]: closing brings the file on disk up to
    date, if the path still names it. *)
Definition tf_write (f : TempFile) (text : string) : TempFile :=
  mkTemp (name f) (written f +:+ text).

Definition tf_close (f : TempFile) : cmd OS unit := fun os =>
  match nodes os !! name f with
  | Some (File _) => (Ok tt, mkOS (<[name f := File (written f)]> (nodes os)) (tmp_names os))
  | _ => (Ok tt, os)
  end.

Record AtomicWriter : Type := mkWriter {
  filename : string;
  dir : string;
  is_bytes : bool;
  temp : option TempFile;
}.

Module AtomicWriter_methods.

Definition __init__ (filename : string) (is_bytes : bool) : AtomicWriter :=
  {| filename := filename;
     dir := dirname filename;
     is_bytes := is_bytes;
     temp := None |}.

Definition set_temp (self : AtomicWriter) (t : option TempFile) : AtomicWriter :=
  {| filename := filename self; dir := dir self; is_bytes := is_bytes self; temp := t |}.

(** The methods run on the writer object together with the operating
    system. *)
Definition on_os {A} (c : cmd OS A) : cmd (AtomicWriter * OS) A :=
  fun '(self, os) => let '(r, os') := c os in (r, (self, os')).
Definition self_temp : cmd (AtomicWriter * OS) (option TempFile) :=
  fun '(self, os) => (Ok (temp self), (self, os)).
Definition assign_temp (t : option TempFile) : cmd (AtomicWriter * OS) unit :=
  fun '(self, os) => (Ok tt, (set_temp self t, os)).
Definition self_field {A} (field : AtomicWriter -> A) : cmd (AtomicWriter * OS) A :=
  fun '(self, os) => (Ok (field self), (self, os)).

Definition make_tempfile : cmd (AtomicWriter * OS) unit :=
  do current <- self_temp;
  run match current with
      | Some t =>
          run on_os (tf_close t);
          on_os (os_remove (name t))
      | None => cret tt
      end;
  do d <- self_field dir;
  run on_os (makedirs d);
  do bytes <- self_field is_bytes;
  do t <- on_os (NamedTemporaryFile (if bytes : bool then "wb" else "wt") d);
  assign_temp (Some t).

Definition __enter__ : cmd (AtomicWriter * OS) TempFile :=
  run make_tempfile;
  do t <- self_temp;
  match t with
  | Some f => cret f
  | None => craise AttributeError
  end.

(** [exc_type] is [None] on a clean exit and the exception otherwise. The
    result [false] tells the [with] statement not to cancel the exception. *)
Definition __exit__ (exc_type : option exn) : cmd (AtomicWriter * OS) bool :=
  do t <- self_temp;
  match t with
  | None => craise AttributeError
  | Some f =>
      let temp_path := name f in
      run on_os (tf_close f);
      run assign_temp None;
      run match exc_type with
          | Some _ => cexcept_pass (on_os (os_remove temp_path)) FileNotFoundError
          | None =>
              do target <- self_field filename;
              on_os (os_replace temp_path target)
          end;
      cret false
  end.

End AtomicWriter_methods.

(** What the body of a [with AtomicWriter(...) as f:] block does with [f]:
    it writes, it may delete the file under [f.name], and it may raise. *)
Inductive action : Type :=
| DoWrite (text : string)
| DoUnlink
| DoRaise (e : exn).

(** The body runs on the file object that [self.temp] also refers to: what
    is written through [f] is what [__exit__] later closes. *)
Fixpoint run_body (body : list action) : cmd (AtomicWriter * OS) unit :=
  match body with
  | [] => cret tt
  | DoWrite text :: rest =>
      do t <- AtomicWriter_methods.self_temp;
      run AtomicWriter_methods.assign_temp (option_map (fun f => tf_write f text) t);
      run_body rest
  | DoUnlink :: rest =>
      do t <- AtomicWriter_methods.self_temp;
      run match t with
          | Some f => AtomicWriter_methods.on_os (os_remove (name f))
          | None => cret tt
          end;
      run_body rest
  | DoRaise e :: _ => craise e
  end.

(** The [with] statement: [__enter__]; the body; [__exit__] with the
    exception of the body, which is raised again unless [__exit__] returns
    true. An exception of [__enter__] or of [__exit__] itself propagates. *)
Definition with_statement (body : list action) : cmd (AtomicWriter * OS) unit :=
  fun s =>
    match AtomicWriter_methods.__enter__ s with
    | (Raise e, s) => (Raise e, s)
    | (Ok _, s) =>
        match run_body body s with
        | (Ok _, s) =>
            match AtomicWriter_methods.__exit__ None s with
            | (Ok _, s) => (Ok tt, s)
            | (Raise e, s) => (Raise e, s)
            end
        | (Raise e, s) =>
            match AtomicWriter_methods.__exit__ (Some e) s with
            | (Ok suppress, s) => if suppress : bool then (Ok tt, s) else (Raise e, s)
            | (Raise e', s) => (Raise e', s)
            end
        end
    end.

(** [with AtomicWriter(filename, is_bytes) as f: body] on a fresh writer:
    how the statement ends and the operating system afterwards. *)
Definition write_atomically (filename : string) (is_bytes : bool) (body : list action)
    (os : OS) : result unit * OS :=
  let '(r, (_, os')) :=
    with_statement body (AtomicWriter_methods.__init__ filename is_bytes, os) in
  (r, os').


Fixpoint body_exception (body : list action) : option exn :=
  match body with
  | [] => None
  | DoRaise e :: _ => Some e
  | _ :: rest => body_exception rest
  end.


(** ** 3D vectors *)

(** Floats are idealised as real numbers. *)
#[global] Instance R_eq_dec : EqDecision R := Req_dec_T.

Record Vec : Type := mkVec {
  x : R;
  y : R;
  z : R;
}.

Definition Vec_tuple : Type := (R * R * R)%type.

(** The right operand of a vector operator: another vector, a tuple, or a
    number. *)
Inductive operand : Type :=
| OVec (v : Vec)
| OTuple (t : Vec_tuple)
| ONum (r : R).

(** The first argument of the constructor: a number, or something to iterate
    over (here a vector, which yields its axes, or a string, which yields its
    characters). *)
Inductive init_arg : Type :=
| ANum (r : R)
| AVec (v : Vec)
| AStr (s : string).

(** [float(c)] for one character of a string that is iterated over. *)
Definition float_of_char (c : ascii) : result R :=
  q ← py_float (String c EmptyString); Ok (Q2R q).

(** [x // y] and [round(x, ndigits)] on floats. *)
Definition py_floordiv (a b : R) : result R :=
  if decide (b = 0%R) then Raise ZeroDivisionError
  else Ok (IZR (Zfloor (a / b))).

Definition round_half_even (a : R) : Z :=
  let f := Zfloor a in
  if Rlt_dec (a - IZR f) (1 / 2) then f
  else if Rlt_dec (1 / 2) (a - IZR f) then (f + 1)%Z
  else if Z.even f then f else (f + 1)%Z.

(** [round(a, ndigits)], half to even, on the exact number [a].  Python
    rounds the double nearest to [a], which at a decimal tie such as 0.0005
    lies off the tie, so the last digit can differ there. *)
Definition py_round (a : R) (ndigits : nat) : R :=
  (IZR (round_half_even (a * 10 ^ ndigits)) / 10 ^ ndigits)%R.

(** [math.radians] *)
Definition radians (deg : R) : R := (deg * PI / 180)%R.

Module Vec_methods.

Definition __init__ (x : init_arg) (y z : R) : result Vec :=
  match x with
  | ANum x => Ok (mkVec x y z)
  | AVec v => Ok (mkVec (utils.x v) (utils.y v) (utils.z v))
  | AStr s =>
      match s with
      | EmptyString => Ok (mkVec 0 y z)
      | String c1 EmptyString => x1 ← float_of_char c1; Ok (mkVec x1 y z)
      | String c1 (String c2 EmptyString) =>
          x1 ← float_of_char c1; y1 ← float_of_char c2; Ok (mkVec x1 y1 z)
      | String c1 (String c2 (String c3 _)) =>
          x1 ← float_of_char c1; y1 ← float_of_char c2; z1 ← float_of_char c3;
          Ok (mkVec x1 y1 z1)
      end
  end.

Definition copy (self : Vec) : Vec := mkVec (x self) (y self) (z self).

Definition as_tuple (self : Vec) : Vec_tuple := (x self, y self, z self).

(** [mat_mul]: the matrix is the 9-tuple [(a, b, c, d, e, f, g, h, i)]. *)
Definition mat_mul (self : Vec) (matrix : R * R * R * R * R * R * R * R * R) : Vec :=
  let '(a, b, c, d, e, f, g, h, i) := matrix in
  let '(vx, vy, vz) := (x self, y self, z self) in
  mkVec ((vx * a) + (vy * b) + (vz * c))
        ((vx * d) + (vy * e) + (vz * f))
        ((vx * g) + (vy * h) + (vz * i)).

Definition rotate (self : Vec) (pitch yaw roll : R) (round_vals : bool) : Vec :=
  let rad_pitch := radians pitch in
  let rad_yaw := radians yaw in
  let rad_roll := radians roll in
  let cos_p := cos rad_pitch in
  let cos_y := cos rad_yaw in
  let cos_r := cos rad_roll in
  let sin_p := sin rad_pitch in
  let sin_y := sin rad_yaw in
  let sin_r := sin rad_roll in
  let mat_roll :=
    (1, 0, 0,
     0, cos_r, - sin_r,
     0, sin_r, cos_r)%R in
  let mat_yaw :=
    (cos_y, - sin_y, 0,
     sin_y, cos_y, 0,
     0, 0, 1)%R in
  let mat_pitch :=
    (cos_p, 0, sin_p,
     0, 1, 0,
     - sin_p, 0, cos_p)%R in
  let self := mat_mul self mat_roll in
  let self := mat_mul self mat_pitch in
  let self := mat_mul self mat_yaw in
  if round_vals
  then mkVec (py_round (x self) 3) (py_round (y self) 3) (py_round (z self) 3)
  else self.

(** Operators made from [_VEC_ADDSUB_TEMP]: [op] is the float operation. *)
Definition addsub (op : R -> R -> R) (self : Vec) (other : operand) : Vec :=
  match other with
  | OVec o => mkVec (op (x self) (x o)) (op (y self) (y o)) (op (z self) (z o))
  | OTuple (o0, o1, o2) => mkVec (op (x self) o0) (op (y self) o1) (op (z self) o2)
  | ONum o => mkVec (op (x self) o) (op (y self) o) (op (z self) o)
  end.

Definition __add__ := addsub Rplus.
Definition __sub__ := addsub Rminus.
(** The in-place forms store the same three numbers into [self]. *)
Definition __iadd__ := addsub Rplus.
Definition __isub__ := addsub Rminus.

(** Operators made from [_VEC_MULDIV_TEMP]: a vector operand is refused,
    and so is a tuple, with which a float cannot be combined. *)
Definition muldiv (op : R -> R -> result R) (self : Vec) (other : operand) : result Vec :=
  match other with
  | OVec _ => Raise TypeError
  | OTuple _ => Raise TypeError
  | ONum o =>
      vx ← op (x self) o; vy ← op (y self) o; vz ← op (z self) o;
      Ok (mkVec vx vy vz)
  end.

Definition __mul__ := muldiv (fun a b => Ok (a * b)%R).
Definition __imul__ := muldiv (fun a b => Ok (a * b)%R).
Definition __floordiv__ := muldiv py_floordiv.

Definition __neg__ (self : Vec) : Vec :=
  mkVec (- x self) (- y self) (- z self).

(** [self.mag()] on exact numbers.  In the code [x ** 2] raises
    [OverflowError] when the square of a component is too large for a float
    and gives 0.0 when it is too small; the squares are exact here, and
    neither is part of this model. *)
Definition mag (self : Vec) : R :=
  sqrt (x self ^ 2 + y self ^ 2 + z self ^ 2).

Definition __eq__ (self : Vec) (other : operand) : bool :=
  match other with
  | OVec o =>
      bool_decide (x o = x self) && bool_decide (y o = y self) && bool_decide (z o = z self)
  | OTuple (o0, o1, o2) =>
      bool_decide (x self = o0) && bool_decide (y self = o1) && bool_decide (z self = o2)
  | ONum o => bool_decide (mag self = o)
  end.

Definition max (self other : Vec) : Vec :=
  mkVec (if Rlt_dec (x self) (x other) then x other else x self)
        (if Rlt_dec (y self) (y other) then y other else y self)
        (if Rlt_dec (z self) (z other) then z other else z self).

Definition min (self other : Vec) : Vec :=
  mkVec (if Rgt_dec (x self) (x other) then x other else x self)
        (if Rgt_dec (y self) (y other) then y other else y self)
        (if Rgt_dec (z self) (z other) then z other else z self).

(** [Vec.bbox(first, *points)] *)
Definition bbox (first : Vec) (points : list Vec) : Vec * Vec :=
  fold_left (fun '(bbox_min, bbox_max) point => (min bbox_min point, max bbox_max point))
            points (copy first, copy first).

(** [bool(self)]: true if any axis is non-zero; [len(self)]: the number of
    non-zero axes. *)
Definition __bool__ (self : Vec) : bool :=
  bool_decide (x self <> 0%R) || bool_decide (y self <> 0%R)
  || bool_decide (z self <> 0%R).

Definition __len__ (self : Vec) : Z :=
  (Z.b2z (bool_decide (x self <> 0%R)) +
   Z.b2z (bool_decide (y self <> 0%R)) +
   Z.b2z (bool_decide (z self <> 0%R)))%Z.

Definition __ne__ (self : Vec) (other : operand) : bool :=
  match other with
  | OVec o =>
      bool_decide (x o <> x self) || bool_decide (y o <> y self)
      || bool_decide (z o <> z self)
  | OTuple (o0, o1, o2) =>
      bool_decide (x self <> o0) || bool_decide (y self <> o1)
      || bool_decide (z self <> o2)
  | ONum o => bool_decide (mag self <> o)
  end.

(** The four ordering operators: every axis against the same axis of a
    vector or tuple, the magnitude against a number. *)
Definition ordering (rel : R -> R -> bool) (self : Vec) (other : operand) : bool :=
  match other with
  | OVec o => rel (x self) (x o) && rel (y self) (y o) && rel (z self) (z o)
  | OTuple (o0, o1, o2) => rel (x self) o0 && rel (y self) o1 && rel (z self) o2
  | ONum o => rel (mag self) o
  end.

Definition __lt__ := ordering (fun a b => if Rlt_dec a b then true else false).
Definition __ge__ := ordering (fun a b => if Rge_dec a b then true else false).

(** [self.axis()] and [self.other_axes(axis)]; with any other argument
    [other_axes] falls off its end and returns [None]. *)
Definition axis (self : Vec) : string :=
  if bool_decide (x self <> 0%R) then "x"
  else if bool_decide (y self <> 0%R) then "y"
  else "z".

Definition other_axes (self : Vec) (axis : string) : option (R * R) :=
  if String.eqb axis "x" then Some (y self, z self)
  else if String.eqb axis "y" then Some (x self, z self)
  else if String.eqb axis "z" then Some (x self, y self)
  else None.

(** [self[ind]] and [self[ind] = val]: [ind] is compared with [0], [1], [2]
    and with the axis names. *)
Definition __getitem__ (self : Vec) (ind : value) : result R :=
  if py_eq ind (VInt 0) || py_eq ind (VStr "x") then Ok (x self)
  else if py_eq ind (VInt 1) || py_eq ind (VStr "y") then Ok (y self)
  else if py_eq ind (VInt 2) || py_eq ind (VStr "z") then Ok (z self)
  else Raise KeyError.

Definition __setitem__ (self : Vec) (ind : value) (val : R) : result Vec :=
  if py_eq ind (VInt 0) || py_eq ind (VStr "x") then Ok (mkVec val (y self) (z self))
  else if py_eq ind (VInt 1) || py_eq ind (VStr "y") then Ok (mkVec (x self) val (z self))
  else if py_eq ind (VInt 2) || py_eq ind (VStr "z") then Ok (mkVec (x self) (y self) val)
  else Raise KeyError.

Definition __contains__ (self : Vec) (val : R) : bool :=
  bool_decide (val = x self) || bool_decide (val = y self)
  || bool_decide (val = z self).

Definition __abs__ (self : Vec) : Vec :=
  mkVec (Rabs (x self)) (Rabs (y self)) (Rabs (z self)).

Definition __pos__ (self : Vec) : Vec := mkVec (x self) (y self) (z self).

Definition len_sq (self : Vec) : R :=
  (x self ^ 2 + y self ^ 2 + z self ^ 2)%R.

(** [a / b], [a % b] and [divmod(a, b)] on floats. *)
Definition py_truediv (a b : R) : result R :=
  if decide (b = 0%R) then Raise ZeroDivisionError else Ok (a / b)%R.

Definition py_mod (a b : R) : result R :=
  if decide (b = 0%R) then Raise ZeroDivisionError
  else Ok (a - IZR (Zfloor (a / b)) * b)%R.

Definition py_divmod (a b : R) : result (R * R) :=
  q ← py_floordiv a b; r ← py_mod a b; Ok (q, r).

Definition __truediv__ := muldiv py_truediv.
Definition __mod__ := muldiv py_mod.

Definition __divmod__ (self : Vec) (other : operand) : result (Vec * Vec) :=
  match other with
  | OVec _ => Raise TypeError
  | OTuple _ => Raise TypeError
  | ONum o =>
      '(x1, x2) ← py_divmod (x self) o;
      '(y1, y2) ← py_divmod (y self) o;
      '(z1, z2) ← py_divmod (z self) o;
      Ok (mkVec x1 y1 z1, mkVec x2 y2 z2)
  end.

Definition dot (self other : Vec) : R :=
  (x self * x other + y self * y other + z self * z other)%R.

Definition cross (self other : Vec) : Vec :=
  mkVec (y self * z other - z self * y other)
        (z self * x other - x self * z other)
        (x self * y other - y self * x other).

(** [self.localise(origin, angles)]: [angles] is indexed, so it is a
    tuple or a vector read as one. *)
Definition localise (self : Vec) (origin : operand) (angles : option Vec_tuple) : Vec :=
  let self :=
    match angles with
    | Some (a0, a1, a2) => rotate self a0 a1 a2 true
    | None => self
    end in
  __iadd__ self origin.

End Vec_methods.

(** [parse_str]: [val] is a string or already a vector. *)
Definition parse_str (val : string + Vec) (x y z : R) : result Vec_tuple :=
  match val with
  | inr v => Ok (utils.x v, utils.y v, utils.z v)
  | inl text =>
      match split space text with
      | [str_x; str_y; str_z] =>
          first ← first_char str_x;
          let str_x := if char_in first "({[<" then drop_first str_x else str_x in
          final ← last_char str_z;
          let str_z := if char_in final ")}]>" then drop_last str_z else str_z in
          try_except
            (fx ← py_float str_x; fy ← py_float str_y; fz ← py_float str_z;
             Ok (Q2R fx, Q2R fy, Q2R fz))
            ValueError
            (Ok (x, y, z))
      | _ => Ok (x, y, z)
      end
  end.

Definition from_str (val : string + Vec) (x y z : R) : result Vec :=
  '(x, y, z) ← parse_str val x y z;
  Vec_methods.__init__ (ANum x) y z.

Definition rotate_by_str (self : Vec) (ang : string + Vec) (pitch yaw roll : R)
    (round_vals : bool) : result Vec :=
  '(pitch, yaw, roll) ← parse_str ang pitch yaw roll;
  Ok (Vec_methods.rotate self pitch yaw roll round_vals).

(** ** Joining shapes *)

Module CONN_TYPES.
Inductive t : Type := none | side | straight | corner | triple | all.
End CONN_TYPES.

(** The four rotations; the module deletes these names once the table is
    built. *)
Module CONN_ROT.
Definition N : string := "0 90 0".
Definition S : string := "0 270 0".
Definition E : string := "0 0 0".
Definition W : string := "0 180 0".
End CONN_ROT.

(** [CONN_LOOKUP]: the keys are the tuples [(N, S, E, W)]. *)
Definition CONN_LOOKUP : list ((Z * Z * Z * Z) * (CONN_TYPES.t * string)) :=
  [ ((1, 0, 0, 0), (CONN_TYPES.side, CONN_ROT.N));
    ((0, 1, 0, 0), (CONN_TYPES.side, CONN_ROT.S));
    ((0, 0, 1, 0), (CONN_TYPES.side, CONN_ROT.E));
    ((0, 0, 0, 1), (CONN_TYPES.side, CONN_ROT.W));

    ((1, 1, 0, 0), (CONN_TYPES.straight, CONN_ROT.S));
    ((0, 0, 1, 1), (CONN_TYPES.straight, CONN_ROT.E));

    ((0, 1, 0, 1), (CONN_TYPES.corner, CONN_ROT.N));
    ((1, 0, 1, 0), (CONN_TYPES.corner, CONN_ROT.S));
    ((1, 0, 0, 1), (CONN_TYPES.corner, CONN_ROT.E));
    ((0, 1, 1, 0), (CONN_TYPES.corner, CONN_ROT.W));

    ((0, 1, 1, 1), (CONN_TYPES.triple, CONN_ROT.N));
    ((1, 0, 1, 1), (CONN_TYPES.triple, CONN_ROT.S));
    ((1, 1, 0, 1), (CONN_TYPES.triple, CONN_ROT.E));
    ((1, 1, 1, 0), (CONN_TYPES.triple, CONN_ROT.W));

    ((1, 1, 1, 1), (CONN_TYPES.all, CONN_ROT.E));

    ((0, 0, 0, 0), (CONN_TYPES.none, CONN_ROT.E)) ]%Z.

(** [CONN_LOOKUP[key]] *)
Definition CONN_LOOKUP_getitem (key : Z * Z * Z * Z) : result (CONN_TYPES.t * string) :=
  match List.find (fun entry => bool_decide (fst entry = key)) CONN_LOOKUP with
  | Some entry => Ok (snd entry)
  | None => Raise KeyError
  end.

(** ** Text cleaning *)

(** [sub in s], and [s.split(sub, 1)[0]]: the text before the first
    occurrence of [sub], all of [s] where there is none. *)
Fixpoint contains_str (sub s : string) : bool :=
  startswith sub s ||
  match s with
  | EmptyString => false
  | String _ rest => contains_str sub rest
  end.

Fixpoint before_first (sub s : string) : string :=
  if startswith sub s then EmptyString
  else match s with
       | EmptyString => EmptyString
       | String c rest => String c (before_first sub rest)
       end.

(** [clean_line]: a [bytes] line ([inr]) is decoded first, by [decode],
    which stands for [bytes.decode]. *)
Definition clean_line (decode : string -> result string) (line : string + string)
    : result string :=
  line ← match line with
         | inr data => decode data
         | inl text => Ok text
         end;
  let line := if contains_str "//" line then before_first "//" line else line in
  Ok (strip line).

Definition FILE_CHARS : string :=
  "abcdefghijklmnopqrstuvwxyzABCDEFGHIJKLMNOPQRSTUVWXYZ" +:+ "0123456789" +:+ "-_ .|".

Fixpoint is_plain_text (name : string) (valid_chars : string) : bool :=
  match name with
  | EmptyString => true
  | String char rest =>
      if negb (char_in char valid_chars) then false
      else is_plain_text rest valid_chars
  end.

(** [list(string)] and [''.join(chars)] for a list of strings. *)
Definition chars_of (s : string) : list string :=
  map (fun c => String c EmptyString) (list_ascii_of_string s).

Definition join_strs (chars : list string) : string :=
  fold_right String.append EmptyString chars.

Definition whitelist (text : string) (valid_chars : string) (rep_char : string) : string :=
  let chars := chars_of text in
  let chars :=
    map (fun char =>
           match char with
           | String c _ => if negb (char_in c valid_chars) then rep_char else char
           | EmptyString => char
           end) chars in
  join_strs chars.

Definition blacklist (text : string) (invalid_chars : string) (rep_char : string) : string :=
  let chars := chars_of text in
  let chars :=
    map (fun char =>
           match char with
           | String c _ => if char_in c invalid_chars then rep_char else char
           | EmptyString => char
           end) chars in
  join_strs chars.

(** ** Grids *)

(** [len(range(start, stop, step))] and [list(range(start, stop, step))];
    a zero step is refused. *)
Definition range_len (start stop step : Z) : Z :=
  if (0 <? step)%Z then
    if (start <? stop)%Z then ((stop - start - 1) / step + 1)%Z else 0%Z
  else
    if (stop <? start)%Z then ((start - stop - 1) / (- step) + 1)%Z else 0%Z.

Definition range (start stop step : Z) : result (list Z) :=
  if (step =? 0)%Z then Raise ValueError
  else Ok (map (fun i => (start + Z.of_nat i * step)%Z)
               (seq 0 (Z.to_nat (range_len start stop step)))).

(** [iter_grid]: the pairs the generator yields, in order.  The inner
    [range] is built once for every [x]. *)
Fixpoint iter_grid_rows (xs : list Z) (max_y min_y stride : Z) : result (list (Z * Z)) :=
  match xs with
  | [] => Ok []
  | x :: rest =>
      ys ← range min_y max_y stride;
      more ← iter_grid_rows rest max_y min_y stride;
      Ok (map (fun y => (x, y)) ys ++ more)
  end.

Definition iter_grid (max_x max_y min_x min_y stride : Z) : result (list (Z * Z)) :=
  xs ← range min_x max_x stride;
  iter_grid_rows xs max_y min_y stride.

(** ** Window placement *)

(** What the code asks of a Tk window. *)
Record Window : Type := mkWindow {
  winfo_screenwidth : Z;
  winfo_screenheight : Z;
  winfo_width : Z;
  winfo_height : Z;
  winfo_rootx : Z;
  winfo_rooty : Z;
}.

(** [DISABLE_ADJUST] is a module-level flag, here the first argument. *)
Definition adjust_inside_screen (DISABLE_ADJUST : bool) (x y : Z) (win : Window)
    (horiz_bound vert_bound : Z) : Z * Z :=
  if DISABLE_ADJUST then (x, y)
  else
    let max_x := (winfo_screenwidth win - winfo_width win - horiz_bound)%Z in
    let max_y := (winfo_screenheight win - winfo_height win - vert_bound)%Z in
    let x :=
      if (x <? horiz_bound)%Z then horiz_bound
      else if (x >? max_x)%Z then max_x
      else x in
    let y :=
      if (y <? vert_bound)%Z then vert_bound
      else if (y >? max_y)%Z then max_y
      else y in
    (x, y).

(** [center_win]: the position the window is given, and the text handed to
    [window.geometry].  [tk_parent] stands for
    [window.nametowidget(window.winfo_parent())]. *)
Definition center_pos (DISABLE_ADJUST : bool) (window : Window) (parent : option Window)
    (tk_parent : Window) : Z * Z :=
  let parent := match parent with None => tk_parent | Some p => p end in
  let x := (winfo_rootx parent + (winfo_width parent - winfo_width window) / 2)%Z in
  let y := (winfo_rooty parent + (winfo_height parent - winfo_height window) / 2)%Z in
  adjust_inside_screen DISABLE_ADJUST x y window 14 45.

Definition center_win (DISABLE_ADJUST : bool) (window : Window) (parent : option Window)
    (tk_parent : Window) : string :=
  let '(x, y) := center_pos DISABLE_ADJUST window parent tk_parent in
  "+" +:+ pretty x +:+ "+" +:+ pretty y.

(** ** File permissions *)

Definition S_IWUSR : Z := 128.
Definition S_IWGRP : Z := 16.
Definition S_IWOTH : Z := 2.

(** [st_mode] of every existing path.  [os.stat] raises on a missing path;
    [os.chmod] replaces the twelve permission bits and keeps the file type. *)
Definition modes : Type := gmap string Z.

Definition os_stat_st_mode (file : string) : cmd modes Z :=
  fun fs =>
    match fs !! file with
    | Some flags => (Ok flags, fs)
    | None => (Raise FileNotFoundError, fs)
    end.

Definition os_chmod (file : string) (mode : Z) : cmd modes unit :=
  fun fs =>
    match fs !! file with
    | Some flags =>
        (Ok tt, <[file := Z.lor (Z.land flags (Z.lnot 4095)) (Z.land mode 4095)]> fs)
    | None => (Raise FileNotFoundError, fs)
    end.

Definition set_readonly (file : string) : cmd modes unit :=
  do flags <- os_stat_st_mode file;
  os_chmod file
    (Z.land (Z.land (Z.land flags (Z.lnot S_IWUSR)) (Z.lnot S_IWGRP)) (Z.lnot S_IWOTH)).

Definition unset_readonly (file : string) : cmd modes unit :=
  do flags <- os_stat_st_mode file;
  os_chmod file
    (Z.lor (Z.lor (Z.lor flags S_IWUSR) S_IWGRP) S_IWOTH).

(** ** Log messages *)

(** A [LogMessage] whose arguments are of type [A]; [args] and [kwargs]
    are [None] once they have been deleted. *)
Record LogMessage (A : Type) : Type := mkLogMessage {
  fmt : string;
  args : option (list A);
  kwargs : option (list (string * A));
  has_args : bool;
}.
Arguments mkLogMessage {A} _ _ _ _.
Arguments fmt {A} _.
Arguments args {A} _.
Arguments kwargs {A} _.
Arguments has_args {A} _.

(** [s.isspace()] *)
Fixpoint all_whitespace (s : string) : bool :=
  match s with
  | EmptyString => true
  | String c rest => is_whitespace c && all_whitespace rest
  end.

Definition isspace (s : string) : bool :=
  match s with
  | EmptyString => false
  | _ => all_whitespace s
  end.

Definition line_feed : ascii := ascii_of_nat 10.

(** [sep.join(lines)] *)
Fixpoint str_join (sep : string) (lines : list string) : string :=
  match lines with
  | [] => EmptyString
  | [line] => line
  | line :: rest => line +:+ sep +:+ str_join sep rest
  end.

(** [items[-1]] *)
Definition item_last {A} (items : list A) : result A :=
  match List.rev items with
  | [] => Raise IndexError
  | final :: _ => Ok final
  end.

Definition clift {S A} (r : result A) : cmd S A := fun s => (r, s).

Module LogMessage_methods.
Section format.
(** [format fmt args kwargs] stands for [str.format] applied to the
    positional and keyword arguments; it is the standard library's. *)
Context {A : Type} (format : string -> list A -> list (string * A) -> result string).

Definition __init__ (fmt : string) (args : list A) (kwargs : list (string * A))
    : LogMessage A :=
  mkLogMessage fmt (Some args) (Some kwargs)
    (match kwargs with
     | [] => match args with [] => false | _ => true end
     | _ => true
     end).

Definition format_msg : cmd (LogMessage A) string :=
  fun self =>
    if has_args self then
      match args self, kwargs self with
      | Some a, Some k =>
          match format (fmt self) a k with
          | Ok f => (Ok f, mkLogMessage f None None false)
          | Raise e => (Raise e, self)
          end
      | _, _ => (Raise AttributeError, self)
      end
    else (Ok (fmt self), self).

Definition __str__ : cmd (LogMessage A) string :=
  do msg <- format_msg;
  if negb (char_in line_feed msg) then cret msg
  else
    let lines := split line_feed msg in
    do final <- clift (item_last lines);
    let lines := if isspace final then removelast lines else lines in
    do final <- clift (item_last lines);
    cret (str_join (String line_feed " | ") (removelast lines)
          +:+ String line_feed " |_" +:+ final +:+ String line_feed EmptyString).

End format.
End LogMessage_methods.

End utils.

(* ===================================================================== *)
(** * Interfaces of the surrounding compiler                              *)
(* ===================================================================== *)

(** Modelled from the spec: the Property tree of [property_parser], whose
    source is not among the four files. The spec describes it as a nested,
    ordered key-value document with repeated keys, child blocks and a
    [has_children] distinction between leaf values and nested blocks. Names
    are matched without regard to case. *)
Module property_parser.
Import Py.

#[warnings="-register-all"]
Inductive Property : Type :=
| Leaf (name : string) (value : string)
| Block (name : string) (children : list Property).

Definition name (p : Property) : string :=
  match p with
  | Leaf n _ | Block n _ => n
  end.

Definition has_children (p : Property) : bool :=
  match p with
  | Leaf _ _ => false
  | Block _ _ => true
  end.

(** Iterating over a property yields its children; a leaf has none. *)
Definition children (p : Property) : list Property :=
  match p with
  | Leaf _ _ => []
  | Block _ cs => cs
  end.

(** [p.value] where the code goes on to treat it as text. *)
Definition value (p : Property) : result string :=
  match p with
  | Leaf _ v => Ok v
  | Block _ _ => Raise AttributeError
  end.

(** [p.find_all(key)]: the children called [key], in document order. *)
Definition find_all (p : Property) (key : string) : list Property :=
  filter (fun c => String.eqb (casefold (name c)) (casefold key) = true) (children p).

(** [p.find_all(key1, key2)]: two levels deep. *)
Definition find_all2 (p : Property) (key1 key2 : string) : list Property :=
  concat (map (fun c => find_all c key2) (find_all p key1)).

(** [key in p] *)
Definition contains (p : Property) (key : string) : bool :=
  bool_decide (find_all p key <> []).

(** [p.find_key(key)]: a child called [key], if there is one. *)
Definition find_key (p : Property) (key : string) : option Property :=
  last (find_all p key).

(** [p[key, default]] and [p[key]]: the text of the child called [key]. *)
Definition get (p : Property) (key default : string) : result string :=
  match find_key p key with
  | Some c => value c
  | None => Ok default
  end.

Definition getitem (p : Property) (key : string) : result string :=
  match find_key p key with
  | Some c => value c
  | None => Raise KeyError
  end.

(** [p[key, None]]: [None] when the key is missing. *)
Definition get_opt (p : Property) (key : string) : result (option string) :=
  match find_key p key with
  | Some c => v ← value c; Ok (Some v)
  | None => Ok None
  end.

End property_parser.

(** Modelled from the spec: the Map Document of [vmfLib], whose source is
    not among the four files. The spec lists entity creation and removal,
    keyvalue access with defaults, per-entity fixup variables, and output
    objects with target, input, parameter, delay, repeat count and an
    only-once flag. An entity is an object: code that holds one holds its
    index in the document, and changes are made in the document. *)
Module vmfLib.
Import Py utils.

#[global] Instance Vec_eq_dec : EqDecision Vec.
Proof. solve_decision. Defined.

Record Output : Type := mkOutput {
  output : string;
  target : string;
  input : string;
  params : string;
  delay : Q;
  times : Z;
  only_once : bool;
  inst_out : option string;
  inst_in : option string;
}.

(** [Output(out, targ, inp)] with the defaults of the optional arguments. *)
Definition Output_new (out targ inp : string) : Output :=
  {| output := out; target := targ; input := inp; params := ""; delay := 0;
     times := -1; only_once := false; inst_out := None; inst_in := None |}.

(** A keyvalue is text, or a vector that was stored as it is. *)
Definition keyvalue : Type := (string + Vec)%type.

(** A brush made by [make_prism] or [make_hollow]. *)
Inductive Solid : Type :=
| Prism (bbox_min bbox_max : Vec) (mat : string)
| Hollow (bbox_min bbox_max : Vec) (thick : R).

Record Entity : Type := mkEntity {
  keys : list (string * keyvalue);
  fixup : list (string * string);
  outputs : list Output;
  solids : list Solid;
}.

Fixpoint lookup_key {V} (pairs : list (string * V)) (key : string) : option V :=
  match pairs with
  | [] => None
  | (k, v) :: rest =>
      if String.eqb (casefold k) (casefold key) then Some v else lookup_key rest key
  end.

(** [ent[key, default]]; [ent[key]] is [ent[key, ""]]. *)
Definition get (ent : Entity) (key : string) (default : keyvalue) : keyvalue :=
  match lookup_key (keys ent) key with
  | Some v => v
  | None => default
  end.

Definition getitem (ent : Entity) (key : string) : keyvalue :=
  get ent key (inl "").

Definition add_out (ent : Entity) (outs : list Output) : Entity :=
  {| keys := keys ent; fixup := fixup ent; outputs := outputs ent ++ outs;
     solids := solids ent |}.

(** The document: its entities in creation order and its world brushes. *)
Record VMF : Type := mkVMF {
  entities : list Entity;
  brushes : list Solid;
}.

Definition empty_VMF : VMF := mkVMF [] [].

(** [vmf.create_ent] with keyword arguments [kv]: the new entity and its
    index. *)
Definition create_ent (vmf : VMF) (kv : list (string * keyvalue)) : VMF * nat :=
  (mkVMF (entities vmf ++ [mkEntity kv [] [] []]) (brushes vmf), length (entities vmf)).

(** [ent.add_out] with the outputs [outs], on the entity with index [i]. *)
Definition ent_add_out (vmf : VMF) (i : nat) (outs : list Output) : VMF :=
  mkVMF (alter (fun ent => add_out ent outs) i (entities vmf)) (brushes vmf).

Definition add_brushes (vmf : VMF) (solid : Solid) : VMF :=
  mkVMF (entities vmf) (brushes vmf ++ [solid]).

(** [ent.fixup[var] = val]: the variable is bound anew or, when a variable
    of that name (up to case) exists, rebound. *)
Fixpoint set_key {V} (pairs : list (string * V)) (key : string) (val : V)
    : list (string * V) :=
  match pairs with
  | [] => [(key, val)]
  | (k, v) :: rest =>
      if String.eqb (casefold k) (casefold key) then (k, val) :: rest
      else (k, v) :: set_key rest key val
  end.

Definition fixup_setitem (ent : Entity) (var val : string) : Entity :=
  {| keys := keys ent; fixup := set_key (fixup ent) var val; outputs := outputs ent;
     solids := solids ent |}.

#[global] Instance Solid_eq_dec : EqDecision Solid.
Proof. solve_decision. Defined.

(** [vmf.remove_brush(solid)]: the brush is no longer among the world
    brushes. *)
Definition remove_brush (vmf : VMF) (solid : Solid) : VMF :=
  mkVMF (entities vmf) (filter (fun s => s <> solid) (brushes vmf)).

End vmfLib.

(** The tables that the [conditions] package keeps, declared outside the
    four files: the direction keywords, the goo cells and the connection
    pins per item. They are arguments of the code that reads them. *)
Module conditions.
Import Py utils.

(** A value of [DIRECTIONS]: a normal vector, or the string ['WALL']. *)
Inductive direction : Type :=
| DVec (v : Vec)
| DWall.

(** A value of [CONNECTIONS]: the (instance name, output) pairs that an item
    fires when it turns on and off. *)
Record Connection : Type := mkConnection {
  out_act : option string * string;
  out_deact : option string * string;
}.

(** Modelled from the spec: the solid registry [SOLIDS], a mapping from
    grid positions to the brush found there, with its face normal and its
    portal-compatibility colour, whose text is ['white'] or ['black']. *)
Inductive MAT_TYPES : Type := black | white.

Definition MAT_TYPES_str (c : MAT_TYPES) : string :=
  match c with
  | black => "black"
  | white => "white"
  end.

Record solidGroup : Type := mkSolidGroup {
  solid : vmfLib.Solid;
  normal : Vec;
  color : MAT_TYPES;
}.

(** [SOLIDS.get(key, None)] *)
Fixpoint SOLIDS_get (SOLIDS : list (Vec_tuple * solidGroup)) (key : Vec_tuple)
    : option solidGroup :=
  match SOLIDS with
  | [] => None
  | (k, brush) :: rest => if decide (k = key) then Some brush else SOLIDS_get rest key
  end.

End conditions.

(* ===================================================================== *)
(** * conditions/positioning.py                                           *)
(* ===================================================================== *)

Module positioning.
Import Py utils.

(** The first half of [flag_angles]: the target keyword, the direction the
    unrotated instance points in, and whether the opposite direction also
    counts. *)
Definition angles_options (DIRECTIONS : gmap string conditions.direction)
    (flag : property_parser.Property) : result (string * Vec * bool) :=
  if property_parser.has_children flag then
    targ_angle ← property_parser.get flag "direction" "0 0 0";
    from_dir ← property_parser.get flag "from_dir" "0 0 1";
    from_dir ←
      match DIRECTIONS !! casefold from_dir with
      | Some (conditions.DVec v) => Vec_methods.__init__ (AVec v) 0 0
      | Some conditions.DWall => Vec_methods.__init__ (AStr "WALL") 0 0
      | None => from_str (inl from_dir) 0 0 1
      end;
    allow_inverse ← property_parser.get flag "allow_inverse" "0";
    Ok (targ_angle, from_dir, conv_bool_str allow_inverse false)
  else
    targ_angle ← property_parser.value flag;
    from_dir ← Vec_methods.__init__ (ANum 0) 0 1;
    Ok (targ_angle, from_dir, false).

Definition flag_angles (DIRECTIONS : gmap string conditions.direction)
    (inst : vmfLib.Entity) (flag : property_parser.Property) : result bool :=
  let angle := vmfLib.get inst "angles" (inl "0 0 0") in
  '(targ_angle, from_dir, allow_inverse) ← angles_options DIRECTIONS flag;
  match DIRECTIONS !! casefold targ_angle with
  | None => Ok false
  | Some normal =>
      inst_normal ← rotate_by_str from_dir angle 0 0 0 true;
      match normal with
      | conditions.DWall =>
          Ok (negb (Vec_methods.__eq__ inst_normal (OTuple (0, 0, 1)%R)
                    || Vec_methods.__eq__ inst_normal (OTuple (0, 0, -1)%R)))
      | conditions.DVec normal =>
          Ok (Vec_methods.__eq__ inst_normal (OVec normal)
              || (allow_inverse
                  && Vec_methods.__eq__ (Vec_methods.__neg__ inst_normal) (OVec normal)))
      end
  end.

Definition flag_goo_at_loc (GOO_LOCS : list Vec_tuple)
    (inst : vmfLib.Entity) (flag : property_parser.Property) : result bool :=
  offset ← property_parser.value flag;
  pos ← from_str (inl offset) 0 0 0;
  pos ← rotate_by_str pos (vmfLib.get inst "angles" (inl "0 0 0")) 0 0 0 true;
  pos ← Vec_methods.__imul__ pos (ONum 128);
  origin ← from_str (vmfLib.getitem inst "origin") 0 0 0;
  let pos := Vec_methods.__iadd__ pos (OVec origin) in
  cell ← Vec_methods.__floordiv__ pos (ONum 128);
  corner ← Vec_methods.__mul__ cell (ONum 128);
  let pos := Vec_methods.__add__ corner (ONum 64) in
  let val := bool_decide (Vec_methods.as_tuple pos ∈ GOO_LOCS) in
  Ok val.

(** One round of the loop [for axis in 'xyz'] of [flag_brush_at_loc]: an
    axis on which the normal is zero is moved to the middle of its
    128-unit cell. *)
Definition snap_axis (norm : Vec) (pos : Vec) (axis : string) : result Vec :=
  n ← Vec_methods.__getitem__ norm (VStr axis);
  if bool_decide (n = 0%R) then
    p ← Vec_methods.__getitem__ pos (VStr axis);
    cell ← py_floordiv p 128;
    Vec_methods.__setitem__ pos (VStr axis) (cell * 128 + 64)%R
  else Ok pos.

(** [flag_brush_at_loc]: the answer, the instance with its fixup table and
    the document, [conditions.VMF], as the call leaves them. *)
Definition flag_brush_at_loc (SOLIDS : list (Vec_tuple * conditions.solidGroup))
    (VMF : vmfLib.VMF) (inst : vmfLib.Entity) (flag : property_parser.Property)
    : result (bool * vmfLib.Entity * vmfLib.VMF) :=
  pos_text ← property_parser.get flag "pos" "0 0 0";
  pos ← from_str (inl pos_text) 0 0 0;
  let pos := mkVec (x pos) (y pos) (z pos - 64) in
  pos ← rotate_by_str pos (vmfLib.get inst "angles" (inl "0 0 0")) 0 0 0 true;
  origin ← from_str (vmfLib.get inst "origin" (inl "0 0 0")) 0 0 0;
  let pos := Vec_methods.__iadd__ pos (OVec origin) in
  norm ← property_parser.get_opt flag "dir";
  norm ← match norm with
         | Some text =>
             v ← from_str (inl text) 0 0 0;
             v ← rotate_by_str v (vmfLib.get inst "angles" (inl "0 0 0")) 0 0 0 true;
             Ok (Some v)
         | None => Ok None
         end;
  gridpos ← property_parser.get flag "gridpos" "0";
  pos ← match norm with
        | Some n =>
            if conv_bool_str gridpos false then
              pos ← snap_axis n pos "x";
              pos ← snap_axis n pos "y";
              snap_axis n pos "z"
            else Ok pos
        | None => Ok pos
        end;
  result_var ← property_parser.get flag "setVar" EmptyString;
  remove_text ← property_parser.get_opt flag "RemoveBrush";
  let should_remove :=
    match remove_text with
    | Some text => conv_bool_str text false
    | None => false
    end in
  des_type ← property_parser.get flag "type" "any";
  let des_type := casefold des_type in
  let brush := conditions.SOLIDS_get SOLIDS (Vec_methods.as_tuple pos) in
  let found :=
    match brush with
    | None => None
    | Some brush =>
        match norm with
        | Some n =>
            if Vec_methods.__ne__ (conditions.normal brush) (OVec n) then None
            else Some brush
        | None => Some brush
        end
    end in
  let br_type :=
    match found with
    | None => "none"
    | Some brush => conditions.MAT_TYPES_str (conditions.color brush)
    end in
  let VMF :=
    match found with
    | Some brush =>
        if should_remove then vmfLib.remove_brush VMF (conditions.solid brush) else VMF
    | None => VMF
    end in
  let inst :=
    if negb (String.eqb result_var EmptyString)
    then vmfLib.fixup_setitem inst result_var br_type
    else inst in
  if String.eqb des_type "any" && negb (String.eqb br_type "none")
  then Ok (true, inst, VMF)
  else Ok (String.eqb des_type br_type, inst, VMF).

End positioning.

(* ===================================================================== *)
(** * conditions/resizableTrigger.py                                      *)
(* ===================================================================== *)

Module resizableTrigger.
Import Py utils.

(** The names that [res_resizeable_trigger] reads before its loop and that
    the output loop uses. *)
Record pins : Type := mkPins {
  trig_act : string;
  trig_deact : string;
  mark_act_name : option string;
  mark_act_out : string;
  mark_deact_name : option string;
  mark_deact_out : string;
}.

(** Reading them from the options block [res] and from the [CONNECTIONS]
    table, in the order of the source. *)
Definition read_pins (CONNECTIONS : gmap string conditions.Connection)
    (res : property_parser.Property) : result pins :=
  trig_act ← property_parser.get res "triggerActivate" "OnStartTouchAll";
  trig_deact ← property_parser.get res "triggerDeactivate" "OnEndTouchAll";
  item ← property_parser.getitem res "markerItem";
  match CONNECTIONS !! casefold item with
  | None => Raise KeyError
  | Some marker_connection =>
      let '(mark_act_name, mark_act_out) := conditions.out_act marker_connection in
      let '(mark_deact_name, mark_deact_out) := conditions.out_deact marker_connection in
      Ok (mkPins trig_act trig_deact mark_act_name mark_act_out mark_deact_name mark_deact_out)
  end.

(** One round of the loop [for out in inst.outputs + other.outputs]:
    [trig_outputs] is [trig_ent.outputs], and every [continue] of the source
    leaves it as it is. *)
Definition copy_output (p : pins) (other : vmfLib.Entity)
    (trig_outputs : list vmfLib.Output) (out : vmfLib.Output) : list vmfLib.Output :=
  if bool_decide (inl (vmfLib.target out) = vmfLib.getitem other "targetname")
  then trig_outputs
  else
    let chosen :=
      if bool_decide (vmfLib.inst_out out = mark_act_name p)
         && String.eqb (vmfLib.output out) (mark_act_out p)
      then Some (trig_act p)
      else if bool_decide (vmfLib.inst_out out = mark_deact_name p)
              && String.eqb (vmfLib.output out) (mark_deact_out p)
      then Some (trig_deact p)
      else None in
    match chosen with
    | None => trig_outputs
    | Some trig_out =>
        if String.eqb trig_out "" then trig_outputs
        else trig_outputs ++
             [ {| vmfLib.output := trig_out;
                  vmfLib.target := vmfLib.target out;
                  vmfLib.input := vmfLib.input out;
                  vmfLib.params := vmfLib.params out;
                  vmfLib.delay := vmfLib.delay out;
                  vmfLib.times := vmfLib.times out;
                  vmfLib.only_once := false;
                  vmfLib.inst_out := None;
                  vmfLib.inst_in := vmfLib.inst_in out |} ]
    end.

(** The whole loop, for the pair [inst], [other] and the trigger entity
    made for it. *)
Definition copy_outputs (p : pins) (inst other trig_ent : vmfLib.Entity) : vmfLib.Entity :=
  vmfLib.mkEntity (vmfLib.keys trig_ent) (vmfLib.fixup trig_ent)
    (fold_left (copy_output p other)
               (vmfLib.outputs inst ++ vmfLib.outputs other)
               (vmfLib.outputs trig_ent))
    (vmfLib.solids trig_ent).

(** The box of the trigger brush made for the pair [inst], [other]: the
    bounding box of the two origins, extended by 64 units on every side. *)
Definition trigger_bbox (inst other : vmfLib.Entity) : result (Vec * Vec) :=
  a ← from_str (vmfLib.getitem inst "origin") 0 0 0;
  b ← from_str (vmfLib.getitem other "origin") 0 0 0;
  let '(bbox_min, bbox_max) := Vec_methods.bbox a [b] in
  let bbox_min := Vec_methods.__isub__ bbox_min (ONum 64) in
  let bbox_max := Vec_methods.__iadd__ bbox_max (ONum 64) in
  Ok (bbox_min, bbox_max).

End resizableTrigger.

(* ===================================================================== *)
(** * voiceLine.py                                                        *)
(* ===================================================================== *)

Module voiceLine.
Import Py utils.
Module PP := property_parser.

(** What the module reads from the rest of the compiler: the game mode of
    [vbsp], the flag evaluation of [conditions] (on the module's
    [fake_inst]), the per-user configuration files of [BEE2_config], and the
    random generator, whose choice is a function of the seed and of the
    number of candidates.  The flag evaluation is a function of the flag
    alone: what a flag of [conditions] does while it is evaluated (a
    position flag can write a fixup value on [fake_inst] and remove a brush
    of the document) is not part of this model. *)
Record env : Type := mkEnv {
  GAME_MODE : string;
  check_flag : PP.Property -> bool;
  get_bool : string -> string -> string -> bool -> bool;
  choice : string -> nat -> nat;
}.

(** The module-level variables, with the two sets of [vbsp] that [add_quote]
    adds to and the files that [add_voice] writes. [VMF] is [None] until
    [add_voice] assigns it. *)
Record globals : Type := mkGlobals {
  map_attr : gmap string bool;
  style_vars : gmap string bool;
  ADDED_BULLSEYES : gset string;
  QUOTE_EVENTS : list (string * string);
  QUOTE_DATA : PP.Property;
  ALLOW_MID_VOICES : bool;
  VMF : option vmfLib.VMF;
  TO_PACK : gset string;
  PACK_FILES : gset string;
  disk : OS;
}.

(** The values that the module body gives them when it is loaded. *)
Definition module_load (disk : OS) : globals :=
  {| map_attr := ∅;
     style_vars := ∅;
     ADDED_BULLSEYES := ∅;
     QUOTE_EVENTS := [];
     QUOTE_DATA := PP.Block "Quotes" [];
     ALLOW_MID_VOICES := false;
     VMF := None;
     TO_PACK := ∅;
     PACK_FILES := ∅;
     disk := disk |}.

Definition INST_PREFIX : string := "instances/BEE2/voice/".
Definition RESP_LOC : string := "bee2/inject/response_data.nut".

Definition RESP_HAS_NAMES : list (string * string) :=
  [ ("death_goo", "goo");
    ("death_turret", "turret");
    ("death_laserfield", "laserfield") ].

Record PossibleQuote : Type := mkPossibleQuote {
  priority : string;
  lines : list PP.Property;
}.

(** ** Access to the module state *)

Definition read {A} (field : globals -> A) : cmd globals A :=
  fun g => (Ok (field g), g).
Definition lift {A} (r : result A) : cmd globals A :=
  fun g => (r, g).

Definition set_map_attr (v : gmap string bool) : cmd globals unit := fun g =>
  (Ok tt, mkGlobals v (style_vars g) (ADDED_BULLSEYES g) (QUOTE_EVENTS g) (QUOTE_DATA g)
            (ALLOW_MID_VOICES g) (VMF g) (TO_PACK g) (PACK_FILES g) (disk g)).
Definition set_style_vars (v : gmap string bool) : cmd globals unit := fun g =>
  (Ok tt, mkGlobals (map_attr g) v (ADDED_BULLSEYES g) (QUOTE_EVENTS g) (QUOTE_DATA g)
            (ALLOW_MID_VOICES g) (VMF g) (TO_PACK g) (PACK_FILES g) (disk g)).
Definition set_ADDED_BULLSEYES (v : gset string) : cmd globals unit := fun g =>
  (Ok tt, mkGlobals (map_attr g) (style_vars g) v (QUOTE_EVENTS g) (QUOTE_DATA g)
            (ALLOW_MID_VOICES g) (VMF g) (TO_PACK g) (PACK_FILES g) (disk g)).
Definition set_QUOTE_EVENTS (v : list (string * string)) : cmd globals unit := fun g =>
  (Ok tt, mkGlobals (map_attr g) (style_vars g) (ADDED_BULLSEYES g) v (QUOTE_DATA g)
            (ALLOW_MID_VOICES g) (VMF g) (TO_PACK g) (PACK_FILES g) (disk g)).
Definition set_ALLOW_MID_VOICES (v : bool) : cmd globals unit := fun g =>
  (Ok tt, mkGlobals (map_attr g) (style_vars g) (ADDED_BULLSEYES g) (QUOTE_EVENTS g)
            (QUOTE_DATA g) v (VMF g) (TO_PACK g) (PACK_FILES g) (disk g)).
Definition set_VMF (v : option vmfLib.VMF) : cmd globals unit := fun g =>
  (Ok tt, mkGlobals (map_attr g) (style_vars g) (ADDED_BULLSEYES g) (QUOTE_EVENTS g)
            (QUOTE_DATA g) (ALLOW_MID_VOICES g) v (TO_PACK g) (PACK_FILES g) (disk g)).
Definition set_TO_PACK (v : gset string) : cmd globals unit := fun g =>
  (Ok tt, mkGlobals (map_attr g) (style_vars g) (ADDED_BULLSEYES g) (QUOTE_EVENTS g)
            (QUOTE_DATA g) (ALLOW_MID_VOICES g) (VMF g) v (PACK_FILES g) (disk g)).
Definition set_PACK_FILES (v : gset string) : cmd globals unit := fun g =>
  (Ok tt, mkGlobals (map_attr g) (style_vars g) (ADDED_BULLSEYES g) (QUOTE_EVENTS g)
            (QUOTE_DATA g) (ALLOW_MID_VOICES g) (VMF g) (TO_PACK g) v (disk g)).
(** A command on the files, run on the [disk] of the state. *)
Definition on_disk {A} (c : cmd OS A) : cmd globals A := fun g =>
  let '(r, d) := c (disk g) in
  (r, mkGlobals (map_attr g) (style_vars g) (ADDED_BULLSEYES g) (QUOTE_EVENTS g)
        (QUOTE_DATA g) (ALLOW_MID_VOICES g) (VMF g) (TO_PACK g) (PACK_FILES g) d).

(** [VMF.create_ent], [ent.add_out] and [VMF.add_brushes] through the
    module-level [VMF]. *)
Definition create_ent (kv : list (string * vmfLib.keyvalue)) : cmd globals nat :=
  do vmf <- read VMF;
  match vmf with
  | None => craise AttributeError
  | Some vmf =>
      let '(vmf', ent) := vmfLib.create_ent vmf kv in
      run set_VMF (Some vmf');
      cret ent
  end.

Definition add_out (ent : nat) (outs : list vmfLib.Output) : cmd globals unit :=
  do vmf <- read VMF;
  match vmf with
  | None => craise AttributeError
  | Some vmf => set_VMF (Some (vmfLib.ent_add_out vmf ent outs))
  end.

Definition add_brushes (solid : vmfLib.Solid) : cmd globals unit :=
  do vmf <- read VMF;
  match vmf with
  | None => craise AttributeError
  | Some vmf => set_VMF (Some (vmfLib.add_brushes vmf solid))
  end.

(** [for item in items: body(item)] *)
Fixpoint for_each {A} (items : list A) (body : A -> cmd globals unit) : cmd globals unit :=
  match items with
  | [] => cret tt
  | item :: rest => run body item; for_each rest body
  end.

(** Keyword arguments of [vmfLib.Output]. *)
Definition with_delay (o : vmfLib.Output) (d : Q) : vmfLib.Output :=
  vmfLib.mkOutput (vmfLib.output o) (vmfLib.target o) (vmfLib.input o) (vmfLib.params o)
    d (vmfLib.times o) (vmfLib.only_once o) (vmfLib.inst_out o) (vmfLib.inst_in o).
Definition with_only_once (o : vmfLib.Output) (b : bool) : vmfLib.Output :=
  vmfLib.mkOutput (vmfLib.output o) (vmfLib.target o) (vmfLib.input o) (vmfLib.params o)
    (vmfLib.delay o) (vmfLib.times o) b (vmfLib.inst_out o) (vmfLib.inst_in o).
Definition with_param (o : vmfLib.Output) (p : string) : vmfLib.Output :=
  vmfLib.mkOutput (vmfLib.output o) (vmfLib.target o) (vmfLib.input o) p
    (vmfLib.delay o) (vmfLib.times o) (vmfLib.only_once o) (vmfLib.inst_out o) (vmfLib.inst_in o).
Definition with_times (o : vmfLib.Output) (n : Z) : vmfLib.Output :=
  vmfLib.mkOutput (vmfLib.output o) (vmfLib.target o) (vmfLib.input o) (vmfLib.params o)
    (vmfLib.delay o) n (vmfLib.only_once o) (vmfLib.inst_out o) (vmfLib.inst_in o).

(** ** The functions of the module *)

Definition has_responses : cmd globals bool :=
  do data <- read QUOTE_DATA;
  cret (PP.contains data "CoopResponses").

(** [mode_quotes]: the lines of a block that apply to the game mode. *)
Definition mode_quotes (E : env) (prop_block : PP.Property) : list PP.Property :=
  let is_sp := String.eqb (GAME_MODE E) "SP" in
  filter (fun prop =>
            (String.eqb (PP.name prop) "line"
             || (String.eqb (PP.name prop) "line_sp" && is_sp)
             || (String.eqb (PP.name prop) "line_coop" && negb is_sp)) = true)
         (PP.children prop_block).

(** [d[key] = val] on a dictionary with string keys, kept in insertion
    order. *)
Fixpoint str_dict_set (d : list (string * string)) (key val : string) : list (string * string) :=
  match d with
  | [] => [(key, val)]
  | (k, v) :: rest =>
      if String.eqb k key then (k, val) :: rest else (k, v) :: str_dict_set rest key val
  end.

Definition str_dict_has (d : list (string * string)) (key : string) : bool :=
  existsb (fun kv => String.eqb kv.1 key) d.

(** The result [QuoteEvent]. *)
Definition res_quote_event (res : PP.Property) : cmd globals unit :=
  do id <- lift (PP.getitem res "id");
  do file <- lift (PP.getitem res "file");
  do events <- read QUOTE_EVENTS;
  set_QUOTE_EVENTS (str_dict_set events (casefold id) file).

Definition is_reserved (name : string) : bool :=
  existsb (String.eqb name) ["priority"; "name"; "id"; "line"; "line_sp"; "line_coop"].

(** The flags of a quote block: the loop stops at the first one that
    fails. *)
Fixpoint valid_quote (E : env) (flags : list PP.Property) : bool :=
  match flags with
  | [] => true
  | flag :: rest =>
      if is_reserved (PP.name flag) then valid_quote E rest
      else if check_flag E flag then valid_quote E rest
      else false
  end.

(** The lines of one quote block: those that go to [mid_quotes] and those
    that stay possible. *)
Fixpoint sort_lines (E : env) (conf group_id : string) (to_mid : bool)
    (use_dings : bool) (mid_name : string) (lines : list PP.Property)
  : result (list (PP.Property * bool * string) * list PP.Property) :=
  match lines with
  | [] => Ok ([], [])
  | line :: rest =>
      name ← PP.get line "name" "";
      line_id ← PP.get line "id" name;
      '(mid, poss) ← sort_lines E conf group_id to_mid use_dings mid_name rest;
      if get_bool E conf group_id (casefold line_id) true then
        if to_mid then Ok ((line, use_dings, mid_name) :: mid, poss)
        else Ok (mid, line :: poss)
      else Ok (mid, poss)
  end.

(** [find_group_quotes], run to its end as [sorted] does: the quotes it
    yields and the entries it appends to [mid_quotes]. *)
Fixpoint group_quotes (E : env) (conf group_id : string) (to_mid : bool)
    (use_dings : bool) (mid_name : string) (quotes : list PP.Property)
  : result (list PossibleQuote * list (PP.Property * bool * string)) :=
  match quotes with
  | [] => Ok ([], [])
  | quote :: rest =>
      if valid_quote E (PP.children quote) then
        '(mid, poss_quotes) ←
          sort_lines E conf group_id to_mid use_dings mid_name (mode_quotes E quote);
        this ←
          match poss_quotes with
          | [] => Ok []
          | _ => prio ← PP.get quote "priority" "0"; Ok [mkPossibleQuote prio poss_quotes]
          end;
        '(yielded, mid_rest) ← group_quotes E conf group_id to_mid use_dings mid_name rest;
        Ok (this ++ yielded, mid ++ mid_rest)
      else group_quotes E conf group_id to_mid use_dings mid_name rest
  end.

Definition find_group_quotes (E : env) (group : PP.Property)
    (use_dings : bool) (conf : string) (mid_name : string)
  : cmd globals (list PossibleQuote * list (PP.Property * bool * string)) :=
  let is_mid := String.eqb (PP.name group) "midchamber" in
  do group_id <- lift (if is_mid then Ok "MIDCHAMBER"
                       else (n ← PP.getitem group "name"; Ok (upper n)));
  do allow_mid <- read ALLOW_MID_VOICES;
  lift (group_quotes E conf group_id (allow_mid && is_mid) use_dings mid_name
          (PP.find_all group "quote")).

Definition kv_str (key val : string) : string * vmfLib.keyvalue := (key, inl val).
Definition kv_vec (key : string) (val : Vec) : string * vmfLib.keyvalue := (key, inr val).

Definition add_choreo (c_line targetname : string) (loc : Vec)
    (use_dings is_first is_last only_once : bool) : cmd globals nat :=
  let c_line := if startswith "scenes/" c_line then c_line else "scenes/" +:+ c_line in
  do choreo <- create_ent
    [ kv_str "classname" "logic_choreographed_scene";
      kv_str "targetname" targetname;
      kv_vec "origin" loc;
      kv_str "scenefile" c_line;
      kv_str "busyactor" "1";
      kv_str "onplayerdeath" "0" ];
  run (if use_dings then
         run (if is_first then
                add_out choreo
                  [ with_only_once (vmfLib.Output_new "OnUser1" "@ding_on" "Start") only_once;
                    with_only_once
                      (with_delay (vmfLib.Output_new "OnUser1" targetname "Start") 0.2)
                      only_once ]
              else cret tt);
         (if is_last then
            add_out choreo [ vmfLib.Output_new "OnCompletion" "@ding_off" "Start" ]
          else cret tt)
       else if is_first then
         add_out choreo
           [ with_only_once (vmfLib.Output_new "OnUser1" targetname "Start") only_once ]
       else cret tt);
  run (if only_once then
         add_out choreo [ vmfLib.Output_new "OnCompletion" "!self" "Kill" ]
       else cret tt);
  cret choreo.

(** The local variables of [add_quote] that its loop changes. *)
Record locals : Type := mkLocals {
  targetname : string;
  only_once : bool;
  cc_emit_name : option string;
  added_ents : list nat;
  end_commands : list vmfLib.Output;
}.

(** The sequence of choreo lines of a [choreo] block: [ind] counts from 1,
    [count] is [len(prop)]. *)
Fixpoint add_choreo_lines (ind count : nat) (choreo_lines : list PP.Property)
    (start off : Vec) (use_dings : bool) (l : locals) : cmd globals locals :=
  match choreo_lines with
  | [] => cret l
  | choreo_line :: rest =>
      let secondary_name := lstrip "@" (targetname l) +:+ "_" in
      let is_first := (ind =? 1)%nat in
      let is_last := (ind =? count)%nat in
      let name := if is_first then targetname l else secondary_name +:+ pretty ind in
      do c_line <- lift (PP.value choreo_line);
      do step <- lift (Vec_methods.__mul__ off (ONum (INR (ind - 1))));
      do choreo <- add_choreo c_line name (Vec_methods.__add__ start (OVec step))
                     use_dings is_first is_last (only_once l);
      run (if is_last then cret tt
           else add_out choreo
                  [ with_delay
                      (vmfLib.Output_new "OnCompletion"
                         (secondary_name +:+ pretty (ind + 1)%nat) "Start")
                      0.1 ]);
      let l := if is_first
               then mkLocals (targetname l) (only_once l) (cc_emit_name l)
                      (added_ents l ++ [choreo]) (end_commands l)
               else l in
      do l <- (if is_last then
                 run add_out choreo (end_commands l);
                 cret (mkLocals (targetname l) (only_once l) (cc_emit_name l) (added_ents l) [])
               else cret l);
      add_choreo_lines (S ind) count rest start off use_dings l
  end.

(** One round of the loop of [add_quote], for the property [prop]. *)
Definition add_quote_prop (quote_loc : Vec) (use_dings : bool) (prop : PP.Property)
    (l : locals) : cmd globals locals :=
  let name := casefold (PP.name prop) in
  if String.eqb name "file" then
    do v <- lift (PP.value prop);
    do ent <- create_ent
      [ kv_str "classname" "func_instance";
        kv_str "targetname" "";
        kv_str "file" (INST_PREFIX +:+ v);
        kv_vec "origin" quote_loc;
        kv_str "fixup_style" "2" ];
    cret (mkLocals (targetname l) (only_once l) (cc_emit_name l)
            (added_ents l ++ [ent]) (end_commands l))
  else if String.eqb name "choreo" then
    if PP.has_children prop then
      let count := length (PP.children prop) in
      let off := mkVec 0 (120 / INR (count + 1)) 0 in
      let start :=
        Vec_methods.__add__ (Vec_methods.__sub__ quote_loc (OTuple (0, 60, 0)%R)) (OVec off) in
      add_choreo_lines 1 count (PP.children prop) start off use_dings l
    else
      do v <- lift (PP.value prop);
      do choreo <- add_choreo v (targetname l) quote_loc use_dings true true (only_once l);
      run add_out choreo (end_commands l);
      cret (mkLocals (targetname l) (only_once l) (cc_emit_name l)
              (added_ents l ++ [choreo]) [])
  else if String.eqb name "snd" then
    do v <- lift (PP.value prop);
    do snd <- create_ent
      [ kv_str "classname" "ambient_generic";
        kv_str "spawnflags" "49";
        kv_str "targetname" (targetname l);
        kv_vec "origin" quote_loc;
        kv_str "message" v;
        kv_str "health" "10" ];
    run add_out snd
      [ with_only_once (vmfLib.Output_new "OnUser1" (targetname l) "PlaySound") (only_once l) ];
    cret (mkLocals (targetname l) (only_once l) (cc_emit_name l)
            (added_ents l ++ [snd]) (end_commands l))
  else if String.eqb name "bullseye" then
    do v <- lift (PP.value prop);
    do added <- read ADDED_BULLSEYES;
    run (if bool_decide (v ∈ added) then cret tt
         else
           do _ent <- create_ent
             [ kv_str "classname" "npc_bullseye";
               kv_str "spawnflags" "222224";
               kv_str "targetname" v;
               kv_vec "origin" (Vec_methods.__sub__ quote_loc (OTuple (0, 0, 16)%R));
               kv_str "angles" "0 0 0" ];
           do added <- read ADDED_BULLSEYES;
           set_ADDED_BULLSEYES ({[ v ]} ∪ added));
    cret l
  else if String.eqb name "cc_emit" then
    do v <- lift (PP.value prop);
    cret (mkLocals (targetname l) (only_once l) (Some v) (added_ents l) (end_commands l))
  else if String.eqb name "setstylevar" then
    do v <- lift (PP.value prop);
    do vars <- read style_vars;
    run set_style_vars (<[ casefold v := true ]> vars);
    cret l
  else if String.eqb name "packlist" then
    do v <- lift (PP.value prop);
    do packs <- read TO_PACK;
    run set_TO_PACK ({[ casefold v ]} ∪ packs);
    cret l
  else if String.eqb name "pack" then
    do files <- lift (if PP.has_children prop
                      then mapM PP.value (PP.children prop)
                      else (v ← PP.value prop; Ok [v]));
    do packed <- read PACK_FILES;
    run set_PACK_FILES (list_to_set files ∪ packed);
    cret l
  else if String.eqb name "choreo_name" then
    do v <- lift (PP.value prop);
    cret (mkLocals v (only_once l) (cc_emit_name l) (added_ents l) (end_commands l))
  else if String.eqb name "onlyonce" then
    do v <- lift (PP.value prop);
    cret (mkLocals (targetname l) (conv_bool_str v false) (cc_emit_name l)
            (added_ents l) (end_commands l))
  else if String.eqb name "endcommand" then
    do target <- lift (PP.getitem prop "target");
    do input <- lift (PP.getitem prop "input");
    do parm <- lift (PP.get prop "parm" "");
    do delay <- lift (PP.getitem prop "delay");
    do once <- lift (PP.get_opt prop "only_once");
    do times <- lift (PP.get_opt prop "times");
    let out :=
      {| vmfLib.output := "OnCompletion";
         vmfLib.target := target;
         vmfLib.input := input;
         vmfLib.params := parm;
         vmfLib.delay := conv_float (Some delay) 0;
         vmfLib.times := conv_int times (-1);
         vmfLib.only_once :=
           match once with
           | None => false
           | Some text => conv_bool_str text false
           end;
         vmfLib.inst_out := None;
         vmfLib.inst_in := None |} in
    cret (mkLocals (targetname l) (only_once l) (cc_emit_name l) (added_ents l)
            (end_commands l ++ [out]))
  else cret l.

Fixpoint add_quote_props (quote_loc : Vec) (use_dings : bool) (props : list PP.Property)
    (l : locals) : cmd globals locals :=
  match props with
  | [] => cret l
  | prop :: rest =>
      do l <- add_quote_prop quote_loc use_dings prop l;
      add_quote_props quote_loc use_dings rest l
  end.

Definition add_quote (quote : PP.Property) (targetname : string) (quote_loc : Vec)
    (use_dings : bool) : cmd globals unit :=
  let l := mkLocals targetname false None [] [] in
  do l <- add_quote_props quote_loc use_dings (PP.children quote) l;
  match cc_emit_name l with
  | Some cc =>
      if String.eqb cc "" then cret tt
      else for_each (added_ents l) (fun ent =>
             add_out ent
               [ with_param (vmfLib.Output_new "OnUser1" "@command" "Command")
                   ("cc_emit " +:+ cc) ])
  | None => cret tt
  end.

(** ** The response script *)

Definition newline : string := String (ascii_of_nat 10) EmptyString.
Definition tab_s : string := String tab EmptyString.
Definition dquote : string := String (ascii_of_nat 34) EmptyString.

(** [file.write(text)] on a file object whose state is the text written so
    far. *)
Definition file_write (text : string) : cmd string unit :=
  fun written => (Ok tt, written +:+ text).

Fixpoint str_lookup {V} (d : list (string * V)) (key : string) : option V :=
  match d with
  | [] => None
  | (k, v) :: rest => if String.eqb k key then Some v else str_lookup rest key
  end.

(** The lines of one section, from [index] on, that the configuration
    leaves enabled. *)
Fixpoint section_lines (E : env) (section_name : string) (index : nat)
    (lines : list PP.Property) : result (list string) :=
  match lines with
  | [] => Ok []
  | line :: rest =>
      if get_bool E "resp_voice.cfg" section_name ("line_" +:+ pretty index) true then
        choreo ← PP.getitem line "choreo";
        more ← section_lines E section_name (S index) rest;
        Ok ((tab_s +:+ tab_s +:+ "CreateSceneEntity(" +:+ dquote +:+ choreo +:+ dquote
             +:+ ")," +:+ newline) :: more)
      else section_lines E section_name (S index) rest
  end.

Fixpoint resp_sections (E : env) (attr : gmap string bool) (allow_dings : bool)
    (sections : list PP.Property) (use_dings : bool) : cmd string bool :=
  match sections with
  | [] => cret use_dings
  | section :: rest =>
      if negb (PP.has_children section) && String.eqb (PP.name section) "use_dings" then
        match PP.value section with
        | Ok text => resp_sections E attr allow_dings rest (conv_bool_str text allow_dings)
        | Raise e => craise e
        end
      else
        let voice_attr :=
          match str_lookup RESP_HAS_NAMES (PP.name section) with
          | Some a => a
          | None => ""
          end in
        do present <- (if String.eqb voice_attr "" then cret true
                       else match attr !! voice_attr with
                            | Some b => cret b
                            | None => craise KeyError
                            end);
        if negb present then resp_sections E attr allow_dings rest use_dings
        else
          match section_lines E (PP.name section) 0 (PP.children section) with
          | Raise e => craise e
          | Ok [] => resp_sections E attr allow_dings rest use_dings
          | Ok section_data =>
              run file_write (tab_s +:+ PP.name section +:+ " = [" +:+ newline);
              run (fix write_all (ls : list string) : cmd string unit :=
                     match ls with
                     | [] => cret tt
                     | l :: ls' => run file_write l; write_all ls'
                     end) section_data;
              run file_write (tab_s +:+ "]," +:+ newline);
              resp_sections E attr allow_dings rest use_dings
          end
  end.

Definition generate_resp_script (E : env) (data : PP.Property) (attr : gmap string bool)
    (allow_dings : bool) : cmd string unit :=
  run file_write ("BEE2_RESPONSES <- {" +:+ newline);
  let sections :=
    match PP.find_key data "CoopResponses" with
    | Some block => PP.children block
    | None => []
    end in
  do use_dings <- resp_sections E attr allow_dings sections allow_dings;
  run file_write ("}" +:+ newline);
  file_write ("BEE2_PLAY_DING = " +:+ (if use_dings : bool then "true" else "false")
              +:+ ";" +:+ newline).

(** [with open(path, 'w') as f: body(f)]: the file is created or emptied,
    and what the body wrote is on disk when the block is left, also when it
    is left by an exception. The directory has to exist. *)
Definition with_open_w (path : string) (body : cmd string unit) : cmd OS unit := fun os =>
  match nodes os !! path with
  | Some Dir => (Raise IsADirectoryError, os)
  | _ =>
      match nodes os !! dirname path with
      | Some Dir =>
          let '(r, text) := body "" in
          (r, mkOS (<[path := File text]> (nodes os)) (tmp_names os))
      | _ => (Raise FileNotFoundError, os)
      end
  end.

(** ** Ranking *)

(** [Decimal(text)]: the exact number the text denotes. *)
Definition Decimal (text : string) : result Q :=
  match py_float text with
  | Raise ValueError => Raise InvalidOperation
  | other => other
  end.

Definition sort_func (quote : PossibleQuote) : result Q :=
  try_except (Decimal (priority quote)) ValueError (Ok 0%Q).

(** [sorted(quotes, key=sort_func, reverse=True)]: the keys are computed
    first; quotes of equal priority keep their order. *)
Fixpoint insert_desc (k : Q) (q : PossibleQuote) (ranked : list (Q * PossibleQuote))
  : list (Q * PossibleQuote) :=
  match ranked with
  | [] => [(k, q)]
  | (k', q') :: rest =>
      if Qle_bool k' k then (k, q) :: ranked else (k', q') :: insert_desc k q rest
  end.

Definition sorted_desc (quotes : list PossibleQuote) : result (list PossibleQuote) :=
  keyed ← mapM (fun q => k ← sort_func q; Ok (k, q)) quotes;
  Ok (map snd (foldr (fun kq acc => insert_desc kq.1 kq.2 acc) [] keyed)).

Fixpoint join_with (sep : string) (parts : list string) : string :=
  match parts with
  | [] => ""
  | [part] => part
  | part :: rest => part +:+ sep +:+ join_with sep rest
  end.

(** [random.seed(seed); random.choice(seq)] *)
Definition random_choice {A} (E : env) (seed : string) (seq : list A) : result A :=
  match seq !! choice E seed (length seq) with
  | Some a => Ok a
  | None => Raise IndexError
  end.

(** ** The pass *)

(** One round of the loop over the groups; [mid_quotes] is the list that
    [find_group_quotes] appends to. *)
Definition add_group (E : env) (map_seed : string) (use_priority : bool)
    (quote_loc : Vec) (allow_dings : bool) (group : PP.Property)
    (mid_quotes : list (PP.Property * bool * string))
  : cmd globals (list (PP.Property * bool * string)) :=
  do quote_targetname <- lift (PP.get group "Choreo_Name" "@choreo");
  do dings_text <- lift (PP.get group "use_dings" "");
  let use_dings := conv_bool_str dings_text allow_dings in
  do (found, mid) <-
    find_group_quotes E group use_dings
      (if String.eqb (PP.name group) "midchamber" then "mid_voice.cfg" else "voice.cfg")
      quote_targetname;
  let mid_quotes := mid_quotes ++ mid in
  do possible_quotes <- lift (sorted_desc found);
  match possible_quotes with
  | [] => cret mid_quotes
  | first :: _ =>
      do loc_text <- lift (PP.get_opt group "choreo_loc");
      do choreo_loc <- lift (from_str (match loc_text with
                                       | Some text => inl text
                                       | None => inr quote_loc
                                       end) 0 0 0);
      do chosen <-
        (if use_priority then cret (lines first)
         else
           do q <- lift (random_choice E
                           (map_seed +:+ "-VOICE_QUOTE_" +:+ pretty (length possible_quotes))
                           possible_quotes);
           cret (lines q));
      do ids <- lift (mapM (fun prop => PP.get prop "id" "ID") chosen);
      do line <- lift (random_choice E
                         (map_seed +:+ "-VOICE_LINE_" +:+ join_with "|" ids) chosen);
      run add_quote line quote_targetname choreo_loc use_dings;
      cret mid_quotes
  end.

Fixpoint add_groups (E : env) (map_seed : string) (use_priority : bool)
    (quote_loc : Vec) (allow_dings : bool) (groups : list PP.Property)
    (mid_quotes : list (PP.Property * bool * string))
  : cmd globals (list (PP.Property * bool * string)) :=
  match groups with
  | [] => cret mid_quotes
  | group :: rest =>
      do mid_quotes <- add_group E map_seed use_priority quote_loc allow_dings group mid_quotes;
      add_groups E map_seed use_priority quote_loc allow_dings rest mid_quotes
  end.

(** The loop over the configured quote events. *)
Definition resolve_event (event : PP.Property) : cmd globals unit :=
  do id <- lift (PP.get event "id" "");
  let event_id := casefold id in
  do events <- read QUOTE_EVENTS;
  if negb (String.eqb event_id "") && str_dict_has events event_id then
    do file <- lift (PP.getitem event "file");
    set_QUOTE_EVENTS (str_dict_set events event_id (INST_PREFIX +:+ file))
  else cret tt.

(** [for ind, file in enumerate(QUOTE_EVENTS.values())] *)
Fixpoint add_event_insts (quote_loc : Vec) (ind : nat) (files : list string) : cmd globals unit :=
  match files with
  | [] => cret tt
  | file :: rest =>
      do _ent <- create_ent
        [ kv_str "classname" "func_instance";
          kv_str "targetname" ("voice_event_" +:+ pretty ind);
          kv_str "file" file;
          kv_str "angles" "0 0 0";
          kv_vec "origin" quote_loc;
          kv_str "fixup_style" "0" ];
      add_event_insts quote_loc (S ind) rest
  end.

Definition add_microphone (targetname speakername : string) (quote_loc : Vec)
  : cmd globals unit :=
  do _ent <- create_ent
    [ kv_str "classname" "env_microphone";
      kv_str "targetname" targetname;
      kv_str "speakername" speakername;
      kv_str "maxRange" "96";
      kv_vec "origin" quote_loc ];
  cret tt.

Definition add_ding (targetname scenefile : string) (origin : Vec) : cmd globals unit :=
  do _ent <- create_ent
    [ kv_str "classname" "logic_choreographed_scene";
      kv_str "targetname" targetname;
      kv_vec "origin" origin;
      kv_str "scenefile" scenefile;
      kv_str "busyactor" "1";
      kv_str "onplayerdeath" "0" ];
  cret tt.

(** What [add_voice] does after the [global] statement and its three
    assignments. *)
Definition add_voice_rest (E : env) (map_seed : string) (use_priority : bool)
  : cmd globals unit :=
  do data <- read QUOTE_DATA;
  do quote_base <- lift (PP.get_opt data "base");
  do loc_text <- lift (PP.get data "quote_loc" "-10000 0 0");
  do quote_loc <- lift (from_str (inl loc_text) (-10000) 0 0);
  run match quote_base with
      | Some base =>
          if String.eqb base "" then cret tt
          else
            do _ent <- create_ent
              [ kv_str "classname" "func_instance";
                kv_str "targetname" "voice";
                kv_str "file" (INST_PREFIX +:+ base);
                kv_str "angles" "0 0 0";
                kv_vec "origin" quote_loc;
                kv_str "fixup_style" "0" ];
            cret tt
      | None => cret tt
      end;
  run add_brushes (vmfLib.Hollow (Vec_methods.__sub__ quote_loc (ONum 64))
                                 (Vec_methods.__add__ quote_loc (ONum 64)) 32);
  do vars <- read style_vars;
  run set_ALLOW_MID_VOICES (negb (match vars !! "nomidvoices" with
                                  | Some b => b
                                  | None => false
                                  end));
  do dings_text <- lift (PP.get data "use_dings" "0");
  let allow_dings := conv_bool_str dings_text false in
  run (if allow_dings then
         run add_ding "@ding_on" "scenes/npc/glados_manual/ding_on.vcd"
               (Vec_methods.__add__ quote_loc (OTuple (-8, -16, 0)%R));
         add_ding "@ding_off" "scenes/npc/glados_manual/ding_off.vcd"
           (Vec_methods.__add__ quote_loc (OTuple (8, -16, 0)%R))
       else cret tt);
  run for_each (PP.find_all2 data "QuoteEvents" "Event") resolve_event;
  do responses <- has_responses;
  run (if responses then
         do attr <- read map_attr;
         on_disk (with_open_w RESP_LOC (generate_resp_script E data attr allow_dings))
       else
         on_disk (cexcept_pass (os_remove RESP_LOC) FileNotFoundError));
  do events <- read QUOTE_EVENTS;
  run add_event_insts quote_loc 0 (map snd events);
  do mid_quotes <-
    add_groups E map_seed use_priority quote_loc allow_dings
      (PP.find_all data "group" ++ PP.find_all data "midchamber") [];
  do bullseyes <- read ADDED_BULLSEYES;
  do mic_text <- lift (PP.get data "UseMicrophones" "");
  run (if negb (bool_decide (bullseyes = ∅)) || conv_bool_str mic_text false then
         if String.eqb (GAME_MODE E) "SP" then
           add_microphone "player_speaker_sp" "!player" quote_loc
         else
           run add_microphone "player_speaker_blue" "!player_blue" quote_loc;
           add_microphone "player_speaker_orange" "!player_orange" quote_loc
       else cret tt);
  for_each mid_quotes (fun '(mid_item, use_ding, mid_name) =>
    add_quote mid_item mid_name quote_loc use_ding).

Definition add_voice (E : env) (has_items style_vars_ : gmap string bool)
    (vmf_file : vmfLib.VMF) (map_seed : string) (use_priority : bool)
  : cmd globals unit :=
  run set_VMF (Some vmf_file);
  run set_map_attr has_items;
  run set_style_vars style_vars_;
  add_voice_rest E map_seed use_priority.

End voiceLine.

(* ===================================================================== *)
(** * Words of the specification                                          *)
(* ===================================================================== *)

Module spec.
Import Py utils.

(** The centre of the 128-unit cell that holds the coordinate [a]:
    [floor(a / 128) * 128 + 64]. *)
Definition snap (a : R) : R := (IZR (Zfloor (a / 128)) * 128 + 64)%R.

Definition cell_center (p : Vec) : Vec_tuple := (snap (x p), snap (y p), snap (z p)).

(** The words of the claim about the outputs of a resizable trigger: an
    output matches the activate or the deactivate pin of the item, it targets
    the partner marker, and it is re-homed under a new output name. *)
Definition is_act (p : resizableTrigger.pins) (out : vmfLib.Output) : bool :=
  bool_decide (vmfLib.inst_out out = resizableTrigger.mark_act_name p)
  && String.eqb (vmfLib.output out) (resizableTrigger.mark_act_out p).
Definition is_deact (p : resizableTrigger.pins) (out : vmfLib.Output) : bool :=
  bool_decide (vmfLib.inst_out out = resizableTrigger.mark_deact_name p)
  && String.eqb (vmfLib.output out) (resizableTrigger.mark_deact_out p).
Definition targets_partner (other : vmfLib.Entity) (out : vmfLib.Output) : bool :=
  bool_decide (inl (vmfLib.target out) = vmfLib.getitem other "targetname").
Definition rehomed (trig_out : string) (out : vmfLib.Output) : vmfLib.Output :=
  {| vmfLib.output := trig_out;
     vmfLib.target := vmfLib.target out;
     vmfLib.input := vmfLib.input out;
     vmfLib.params := vmfLib.params out;
     vmfLib.delay := vmfLib.delay out;
     vmfLib.times := vmfLib.times out;
     vmfLib.only_once := false;
     vmfLib.inst_out := None;
     vmfLib.inst_in := vmfLib.inst_in out |}.
(** What one output of a marker contributes to the trigger: nothing when it
    is dropped, its re-homed form otherwise. The activate pin is looked at
    first. *)
Definition emitted (p : resizableTrigger.pins) (other : vmfLib.Entity) (out : vmfLib.Output)
  : list vmfLib.Output :=
  if targets_partner other out then []
  else if is_act p out then
    if String.eqb (resizableTrigger.trig_act p) "" then []
    else [rehomed (resizableTrigger.trig_act p) out]
  else if is_deact p out then
    if String.eqb (resizableTrigger.trig_deact p) "" then []
    else [rehomed (resizableTrigger.trig_deact p) out]
  else [].

(** Two states of the voice module that differ at most in the three
    variables that [add_voice] assigns first. *)
Definition agree_on_kept (g1 g2 : voiceLine.globals) : Prop :=
  voiceLine.ADDED_BULLSEYES g1 = voiceLine.ADDED_BULLSEYES g2 /\
  voiceLine.QUOTE_EVENTS g1 = voiceLine.QUOTE_EVENTS g2 /\
  voiceLine.QUOTE_DATA g1 = voiceLine.QUOTE_DATA g2 /\
  voiceLine.ALLOW_MID_VOICES g1 = voiceLine.ALLOW_MID_VOICES g2 /\
  voiceLine.TO_PACK g1 = voiceLine.TO_PACK g2 /\
  voiceLine.PACK_FILES g1 = voiceLine.PACK_FILES g2 /\
  voiceLine.disk g1 = voiceLine.disk g2.

(** Whatever the two registries hold in [g], they still hold in [g']. *)
Definition persists (g g' : voiceLine.globals) : Prop :=
  voiceLine.ADDED_BULLSEYES g ⊆ voiceLine.ADDED_BULLSEYES g' /\
  (forall id, voiceLine.str_dict_has (voiceLine.QUOTE_EVENTS g) id = true ->
              voiceLine.str_dict_has (voiceLine.QUOTE_EVENTS g') id = true).

(** A command keeps the registries: however it ends, what they held is
    still there. *)
Definition keeps {A} (c : cmd voiceLine.globals A) : Prop :=
  forall g r g', c g = (r, g') -> persists g g'.

(** The shape each member of [CONN_TYPES] stands for before it is turned,
    as a tuple [(N, S, E, W)]: the comments of the enumeration give
    [side] pointing E, [straight] E-W, [corner] N-W, [triple] N-S-W. *)
Definition base_points (shape : CONN_TYPES.t) : Z * Z * Z * Z :=
  match shape with
  | CONN_TYPES.none => (0, 0, 0, 0)
  | CONN_TYPES.side => (0, 0, 1, 0)
  | CONN_TYPES.straight => (0, 0, 1, 1)
  | CONN_TYPES.corner => (1, 0, 0, 1)
  | CONN_TYPES.triple => (1, 1, 0, 1)
  | CONN_TYPES.all => (1, 1, 1, 1)
  end%Z.

(** A quarter turn in the sense of growing yaw, which by the four rotation
    strings takes E to N, N to W, W to S and S to E; and the number of
    quarter turns a rotation string stands for. *)
Definition quarter_turn (points : Z * Z * Z * Z) : Z * Z * Z * Z :=
  let '(n, s, e, w) := points in (e, w, s, n).

Definition quarter_turns (angle : string) : option nat :=
  if String.eqb angle CONN_ROT.E then Some 0%nat
  else if String.eqb angle CONN_ROT.N then Some 1%nat
  else if String.eqb angle CONN_ROT.W then Some 2%nat
  else if String.eqb angle CONN_ROT.S then Some 3%nat
  else None.

(** A command maintains a relation between the state it starts in and the
    state it leaves, however it ends. *)
Definition maintains (R : voiceLine.globals -> voiceLine.globals -> Prop) {A}
    (c : cmd voiceLine.globals A) : Prop :=
  forall g r g', c g = (r, g') -> R g g'.

(** The same quote events are registered, in the same order. *)
Definition same_events (g g' : voiceLine.globals) : Prop :=
  map fst (voiceLine.QUOTE_EVENTS g') = map fst (voiceLine.QUOTE_EVENTS g).


(** A document has only been added to: its brushes are still there, in
    front of any new ones, and so is every entity, at its index, with its
    keyvalues, fixup values and brushes, and with its outputs in front of
    any new ones. *)
Definition vmf_grows (vmf vmf' : vmfLib.VMF) : Prop :=
  (exists more, vmfLib.brushes vmf' = vmfLib.brushes vmf ++ more) /\
  forall i ent,
    vmfLib.entities vmf !! i = Some ent ->
    exists ent',
      vmfLib.entities vmf' !! i = Some ent' /\
      vmfLib.keys ent' = vmfLib.keys ent /\
      vmfLib.fixup ent' = vmfLib.fixup ent /\
      vmfLib.solids ent' = vmfLib.solids ent /\
      exists more, vmfLib.outputs ent' = vmfLib.outputs ent ++ more.

Definition document_grows (g g' : voiceLine.globals) : Prop :=
  forall vmf, voiceLine.VMF g = Some vmf ->
    exists vmf', voiceLine.VMF g' = Some vmf' /\ vmf_grows vmf vmf'.

End spec.

(* ===================================================================== *)
(** * Sample inputs                                                       *)
(* ===================================================================== *)

Module samples.
Import Py utils.

(** A disk with one file, and the random names that [tempfile] will draw. *)
Definition os0 : OS := mkOS {[ "out/a.txt" := File "old" ]} ["a.txt"; "tmp1"].


(** The instance and the flags of the positioning examples: an instance at
    the origin with no rotation, a goo flag half a cell and a bit along x,
    two orientation flags that ask for a wall, and a table of directions
    with the six axes and the wall keywords. *)
Definition goo_inst : vmfLib.Entity :=
  vmfLib.mkEntity [("angles", inl "0 0 0"); ("origin", inl "0 0 0")] [] [] [].
Definition goo_flag : property_parser.Property := property_parser.Leaf "PosIsGoo" "0.6 0 0".

Definition DIRECTIONS0 : gmap string conditions.direction :=
  list_to_map
    [ ("+x", conditions.DVec (mkVec 1 0 0)); ("-x", conditions.DVec (mkVec (-1) 0 0));
      ("+y", conditions.DVec (mkVec 0 1 0)); ("-y", conditions.DVec (mkVec 0 (-1) 0));
      ("+z", conditions.DVec (mkVec 0 0 1)); ("-z", conditions.DVec (mkVec 0 0 (-1)));
      ("wall", conditions.DWall); ("walls", conditions.DWall) ].

Definition wall_flag : property_parser.Property := property_parser.Leaf "angle" "WALL".
Definition wall_flag_x : property_parser.Property :=
  property_parser.Block "angle"
    [property_parser.Leaf "direction" "Walls"; property_parser.Leaf "from_dir" "+X"].
Definition wall_flag_from_wall : property_parser.Property :=
  property_parser.Block "angle"
    [property_parser.Leaf "direction" "wall"; property_parser.Leaf "from_dir" "wall"].

(** Two paired markers with their outputs, the trigger entity made for
    them, a table of connections with one item, an options block, and pins
    whose activate and deactivate output are the same. *)
Definition pins_same : resizableTrigger.pins :=
  resizableTrigger.mkPins "OnStartTouchAll" "OnEndTouchAll" None "OnPressed" None "OnPressed".
Definition pins0 : resizableTrigger.pins :=
  resizableTrigger.mkPins "OnStartTouchAll" "" None "OnPressed" None "OnUnPressed".
Definition out_door : vmfLib.Output := vmfLib.Output_new "OnPressed" "door" "Open".
Definition out_link : vmfLib.Output := vmfLib.Output_new "OnPressed" "marker_b" "Trigger".
Definition out_other : vmfLib.Output := vmfLib.Output_new "OnIgnited" "lamp" "TurnOn".
Definition out_off : vmfLib.Output := vmfLib.Output_new "OnUnPressed" "door" "Close".
Definition marker_a : vmfLib.Entity :=
  vmfLib.mkEntity [("targetname", inl "marker_a")] [] [out_door; out_link; out_other] [].
Definition marker_b : vmfLib.Entity :=
  vmfLib.mkEntity [("targetname", inl "marker_b")] [] [out_off] [].
Definition trig0 : vmfLib.Entity :=
  vmfLib.mkEntity [("classname", inl "trigger_multiple"); ("targetname", inl "marker_a")] [] [] [].
Definition CONNECTIONS0 : gmap string conditions.Connection :=
  {[ "item_trigger" := conditions.mkConnection (None, "OnPressed") (None, "OnUnPressed") ]}.
Definition res0 : property_parser.Property :=
  property_parser.Block "ResizeableTrigger"
    [ property_parser.Leaf "markerInst" "<ITEM_TRIGGER:0>";
      property_parser.Leaf "markerItem" "ITEM_TRIGGER";
      property_parser.Leaf "triggerDeactivate" "" ].

(** A pass of the voice system: an environment in which every flag holds,
    every line is enabled and the random voiceLine.choice is the first candidate; quote
    data with one group whose only line asks for a bullseye; and a quote
    event registered by a condition. *)
Definition E0 : voiceLine.env :=
  {| voiceLine.GAME_MODE := "SP";
     voiceLine.check_flag := fun _ => true;
     voiceLine.get_bool := fun _ _ _ default => default;
     voiceLine.choice := fun _ _ => 0%nat |}.

Definition QUOTE_DATA0 : property_parser.Property :=
  property_parser.Block "Quotes"
    [ property_parser.Block "group"
        [ property_parser.Leaf "name" "intro";
          property_parser.Block "quote"
            [ property_parser.Leaf "priority" "1";
              property_parser.Block "line"
                [ property_parser.Leaf "name" "hello";
                  property_parser.Leaf "bullseye" "@cave_target";
                  property_parser.Leaf "choreo" "npc/cave/hello.vcd" ] ] ] ].

Definition quote_event0 : property_parser.Property :=
  property_parser.Block "QuoteEvent"
    [ property_parser.Leaf "id" "Elevator"; property_parser.Leaf "file" "instances/elev.vmf" ].

(** The state after the module is loaded and the quote data has been set. *)
Definition g0 : voiceLine.globals :=
  let g := voiceLine.module_load (mkOS ∅ []) in
  voiceLine.mkGlobals (voiceLine.map_attr g) (voiceLine.style_vars g)
    (voiceLine.ADDED_BULLSEYES g) (voiceLine.QUOTE_EVENTS g) QUOTE_DATA0
    (voiceLine.ALLOW_MID_VOICES g) (voiceLine.VMF g) (voiceLine.TO_PACK g)
    (voiceLine.PACK_FILES g) (voiceLine.disk g).

(** How many entities of a class a document holds. *)
Definition count_class (classname : string) (vmf : option vmfLib.VMF) : nat :=
  match vmf with
  | None => 0
  | Some vmf =>
      length (filter (fun ent => vmfLib.get ent "classname" (inl "") = inl classname)
                     (vmfLib.entities vmf))
  end.

(** A pass on a fresh document, with no items and no style variables. *)
Definition pass (g : voiceLine.globals) : result unit * voiceLine.globals :=
  voiceLine.add_voice E0 ∅ ∅ vmfLib.empty_VMF "seed" true g.

End samples.

(* ===================================================================== *)
(** * Properties of utils.py                                              *)
(* ===================================================================== *)

Module utils_props.
Import Py utils.

(** ** get_indent *)

(** The characters that [get_indent] collects. *)
Lemma indent_char_cases (c : ascii) :
  char_in c (String space (String tab EmptyString)) = true <-> c = space \/ c = tab.
Proof.
  simpl. destruct (Ascii.eqb_spec c space) as [->|Hs]; [tauto|].
  destruct (Ascii.eqb_spec c tab) as [->|Ht]; [tauto|].
  split; [discriminate | intros [?|?]; contradiction].
Qed.

Lemma app_nil_l (s : string) : "" +:+ s = s.
Proof. reflexivity. Qed.

Lemma app_cons (c : ascii) (s1 s2 : string) : String c s1 +:+ s2 = String c (s1 +:+ s2).
Proof. reflexivity. Qed.

Lemma app_nil_r (s : string) : s +:+ "" = s.
Proof. induction s as [|c s IH]; [reflexivity | now rewrite app_cons, IH]. Qed.

Lemma string_app_assoc (s1 s2 s3 : string) :
  (s1 +:+ s2) +:+ s3 = s1 +:+ (s2 +:+ s3).
Proof.
  induction s1 as [|c s1 IH]; [reflexivity | now rewrite !app_cons, IH].
Qed.

Lemma join_chars_app (l1 l2 : list ascii) :
  join_chars (l1 ++ l2) = join_chars l1 +:+ join_chars l2.
Proof.
  induction l1 as [|c l1 IH]; [reflexivity|].
  cbn [app join_chars fold_right]. rewrite app_cons. f_equal. exact IH.
Qed.

(** The loop, with [white] as accumulated so far: it answers [None] exactly
    on a rest made of spaces and tabs, and otherwise the accumulated text
    followed by the leading run of the rest. *)
Lemma get_indent_loop_none (line : string) (white : list ascii) :
  get_indent_loop white line = None <->
  (forall c, In c (list_ascii_of_string line) -> c = space \/ c = tab).
Proof.
  revert white. induction line as [|c rest IH]; intros white.
  - simpl. split; [intros _ c [] | reflexivity].
  - cbn [get_indent_loop list_ascii_of_string].
    destruct (char_in c _) eqn:Hc.
    + rewrite IH. apply indent_char_cases in Hc. split.
      * intros H d [<-|Hd]; [assumption | auto].
      * intros H d Hd. apply H. now right.
    + split; [discriminate|]. intros H.
      assert (c = space \/ c = tab) as Hw by (apply H; now left).
      apply indent_char_cases in Hw. congruence.
Qed.

Lemma get_indent_loop_some (line : string) (white : list ascii) (w : string) :
  get_indent_loop white line = Some w <->
  exists ws c rest,
    w = join_chars white +:+ ws /\
    line = ws +:+ String c rest /\
    (forall d, In d (list_ascii_of_string ws) -> d = space \/ d = tab) /\
    c <> space /\ c <> tab.
Proof.
  revert white. induction line as [|c rest IH]; intros white.
  - simpl. split; [discriminate|].
    intros (ws & d & tl & _ & H & _). destruct ws; discriminate.
  - cbn [get_indent_loop].
    destruct (char_in c _) eqn:Hc.
    + rewrite IH. apply indent_char_cases in Hc. split.
      * intros (ws & d & tl & -> & -> & Hws & Hd).
        exists (String c ws), d, tl. repeat split; try tauto.
        -- rewrite join_chars_app, string_app_assoc. reflexivity.
        -- intros e [<-|He]; auto.
      * intros (ws & d & tl & -> & Hline & Hws & Hd1 & Hd2).
        destruct ws as [|c' ws].
        -- rewrite app_nil_l in Hline. injection Hline as <- ->.
           destruct Hc; contradiction.
        -- rewrite app_cons in Hline. injection Hline as <- ->.
           exists ws, d, tl. repeat split; auto.
           ++ rewrite join_chars_app, string_app_assoc. reflexivity.
           ++ intros e He. apply Hws. now right.
    + assert (c <> space /\ c <> tab) as [Hs Ht].
      { split; intros ->; simpl in Hc; discriminate. }
      split.
      * intros [= <-]. exists EmptyString, c, rest. repeat split; auto.
        -- now rewrite app_nil_r.
        -- intros d [].
      * intros (ws & d & tl & -> & Hline & Hws & _).
        destruct ws as [|c' ws].
        -- now rewrite app_nil_r.
        -- rewrite app_cons in Hline. injection Hline as <- ->.
           exfalso. destruct (Hws c) as [->| ->]; [now left | | ]; contradiction.
Qed.

(** C8. [get_indent] returns no string at all ([None]) whenever the line is
    empty or consists only of spaces and tabs; it returns a string [w] exactly
    when [w] is the leading ws of spaces and tabs and a character that is
    neither follows it. *)
Theorem get_indent_none_or_leading_run (line : string) :
  ((forall c, In c (list_ascii_of_string line) -> c = space \/ c = tab) <->
   get_indent line = None) /\
  (forall w : string,
     get_indent line = Some w <->
     exists c rest,
       line = w +:+ String c rest /\
       (forall d, In d (list_ascii_of_string w) -> d = space \/ d = tab) /\
       c <> space /\ c <> tab).
Proof.
  split.
  - symmetry. apply get_indent_loop_none.
  - intros w. unfold get_indent. rewrite get_indent_loop_some. split.
    + intros (ws & c & rest & -> & H). exists c, rest. exact H.
    + intros (c & rest & H). exists w, c, rest. split; [reflexivity | exact H].
Qed.

(** A witness of C8: two spaces before text, and a line of one tab. *)
Lemma get_indent_examples :
  get_indent "  ab" = Some "  " /\ get_indent (String tab EmptyString) = None.
Proof.
  split.
  - apply (proj2 (get_indent_none_or_leading_run "  ab")).
    exists "a"%char, "b". repeat split.
    + intros d [<-|[<-|[]]]; now left.
    + discriminate.
    + discriminate.
  - apply (proj1 (get_indent_none_or_leading_run (String tab EmptyString))).
    intros c [<-|[]]. now right.
Defined.

(** ** conv_bool *)

Lemma conv_bool_str_total (s : string) (default : value) :
  conv_bool (VStr s) default =
  Ok (match dict_lookup BOOL_LOOKUP (VStr s) with
      | Some b => VBool b
      | None =>
          match dict_lookup BOOL_LOOKUP (VStr (casefold s)) with
          | Some b => VBool b
          | None => default
          end
      end).
Proof.
  unfold conv_bool, dict_getitem.
  destruct (dict_lookup BOOL_LOOKUP (VStr s)); reflexivity.
Qed.

(** C10. [conv_bool] absorbs what it does not recognise only for text and
    for an absent value: an absent value gives the default, text never
    raises, booleans and the integers 0 and 1 are found in the table; any
    other value that is neither text nor absent and is not a key of
    [BOOL_LOOKUP] (the integer 2, the float 2.5) makes it raise
    [AttributeError] instead of returning the default. *)
Theorem conv_bool_default_only_for_text (default : value) :
  conv_bool VNone default = Ok default /\
  (forall s, exists v, conv_bool (VStr s) default = Ok v) /\
  (forall b, conv_bool (VBool b) default = Ok (VBool b)) /\
  conv_bool (VInt 0) default = Ok (VBool false) /\
  conv_bool (VInt 1) default = Ok (VBool true) /\
  (forall val,
     val <> VNone -> (forall s, val <> VStr s) ->
     dict_lookup BOOL_LOOKUP val = None ->
     conv_bool val default = Raise AttributeError) /\
  conv_bool (VInt 2) default = Raise AttributeError /\
  conv_bool (VFloat 2.5) default = Raise AttributeError.
Proof.
  repeat split; try reflexivity.
  - intros s. rewrite conv_bool_str_total. eauto.
  - intros []; reflexivity.
  - intros val Hnone Hstr Hkey. unfold conv_bool, dict_getitem.
    destruct val; try congruence; try (rewrite Hkey; reflexivity).
Qed.

(** A witness of C10: the bytes [b"yes"] are hashable, are not text and are
    not a key of the table. *)
Lemma conv_bool_bytes_raise :
  conv_bool (VBytes "yes") (VBool true) = Raise AttributeError.
Proof.
  apply (proj1 (proj2 (proj2 (proj2 (proj2 (proj2
           (conv_bool_default_only_for_text (VBool true)))))))).
  - discriminate.
  - discriminate.
  - reflexivity.
Defined.

(** ** EmptyMapping *)

Lemma mutate_keeps (self : EmptyMapping_t) (m : mutation) :
  (mutate self m).1 = self.
Proof. destruct m; reflexivity. Qed.

Lemma mutate_all_keeps (ms : list mutation) (self : EmptyMapping_t) :
  mutate_all self ms = self.
Proof.
  unfold mutate_all. revert self.
  induction ms as [|m ms IH]; intros self; simpl; [reflexivity|].
  rewrite mutate_keeps. apply IH.
Qed.

(** C9. Whatever sequence of [__setitem__], [__delitem__], [update],
    [clear], [setdefault] and [pop] with a default is applied to the shared
    [EmptyMapping], none of these calls raises and the mapping stays empty:
    its length is 0, iterating over it yields nothing, it contains no key and
    it is false; [__getitem__], [pop] without a default and [popitem] raise
    [KeyError]. *)
Theorem EmptyMapping_stays_empty (ms : list mutation) :
  let m := mutate_all EmptyMapping ms in
  (forall self c, exists v, (mutate self c).2 = Ok v) /\
  EmptyMapping_methods.__len__ m = 0%Z /\
  (forall fuel, iterate (S fuel) (EmptyMapping_methods.__iter__ m) = Some (Ok [])) /\
  (forall key, EmptyMapping_methods.__contains__ m key = false) /\
  EmptyMapping_methods.__bool__ m = false /\
  (forall key, EmptyMapping_methods.__getitem__ m key = Raise KeyError) /\
  (forall key, EmptyMapping_methods.pop m key marker = Raise KeyError) /\
  EmptyMapping_methods.popitem m = Raise KeyError /\
  (forall key default, EmptyMapping_methods.get m key default = default).
Proof.
  intros m. subst m. rewrite mutate_all_keeps.
  repeat split; try reflexivity.
  intros self c. destruct c; simpl; eauto.
Qed.

(** ** fit *)

Lemma sum_app (l1 l2 : list Z) : (sum (l1 ++ l2) = sum l1 + sum l2)%Z.
Proof.
  unfold sum. induction l1 as [|a l1 IH]; simpl; [reflexivity | rewrite IH; lia].
Qed.

Lemma sum_send (a : adder) (item : Z) : (sum (deq (send a item)) = sum (deq a) + item)%Z.
Proof.
  unfold send. destruct (at_back a); simpl.
  - rewrite sum_app. unfold sum. simpl. lia.
  - unfold sum. simpl. lia.
Qed.

(** When the last part fits, the inner loop finds a part that fits. *)
Lemma first_fitting_found (obj : list Z) (smallest dist : Z) :
  last obj = Some smallest -> (smallest <= dist)%Z ->
  exists item, first_fitting obj dist = Some item /\ In item obj /\ (item <= dist)%Z.
Proof.
  induction obj as [|a obj IH]; [discriminate|].
  intros Hlast Hle. simpl.
  destruct (Z.leb_spec a dist) as [Ha|Ha].
  - exists a. repeat split; [now left | assumption].
  - destruct obj as [|b obj].
    + simpl in Hlast. injection Hlast as ->. lia.
    + destruct IH as (item & Hf & Hin & Hi); [exact Hlast | assumption |].
      exists item. repeat split; [exact Hf | now right | exact Hi].
Qed.

(** The [while] loop ends within [dist] iterations, leaves less than the
    smallest part, and what it sent to the adder is what it took from
    [dist]. *)
Lemma fit_while_ends (obj : list Z) (smallest : Z) :
  last obj = Some smallest -> Forall (fun part => (0 < part)%Z) obj ->
  forall (fuel : nat) (dist : Z) (a : adder),
    (Z.to_nat dist <= fuel)%nat ->
    exists dist' a',
      fit_while fuel obj smallest dist a = Some (dist', a') /\
      (dist' < smallest)%Z /\ (dist' <= dist)%Z /\
      ((0 <= dist)%Z -> (0 <= dist')%Z) /\
      (sum (deq a') + dist' = sum (deq a) + dist)%Z.
Proof.
  intros Hlast Hpos.
  assert (0 < smallest)%Z as Hs.
  { apply (proj1 (List.Forall_forall _ _) Hpos).
    clear Hpos.
    induction obj as [|b [|b' obj] IH]; [discriminate | injection Hlast as ->; now left |].
    right. apply IH. exact Hlast. }
  induction fuel as [|fuel IH]; intros dist a Hfuel.
  - simpl. destruct (Z.leb_spec smallest dist) as [Hle|Hlt]; [lia|].
    exists dist, a. repeat split; lia.
  - cbn [fit_while]. destruct (Z.leb_spec smallest dist) as [Hle|Hlt].
    + destruct (first_fitting_found obj smallest dist Hlast Hle) as (item & -> & Hin & Hi).
      assert (0 < item)%Z as Hitem by (apply (proj1 (List.Forall_forall _ _) Hpos); exact Hin).
      destruct (IH (dist - item)%Z (send a item)) as (d' & a' & -> & H1 & H2 & H3 & H4); [lia|].
      exists d', a'. rewrite sum_send in H4. repeat split; lia.
    + exists dist, a. repeat split; lia.
Qed.

(** Fuel beyond what the loop needs does not change its result. *)
Lemma fit_while_more_fuel (obj : list Z) (smallest : Z) (n : nat) (dist : Z) (a : adder)
    (r : Z * adder) :
  fit_while n obj smallest dist a = Some r ->
  forall m, (n <= m)%nat -> fit_while m obj smallest dist a = Some r.
Proof.
  revert dist a. induction n as [|n IH]; intros dist a H m Hle.
  - simpl in H. destruct m; simpl; destruct (smallest <=? dist)%Z; congruence.
  - destruct m as [|m]; [lia|]. cbn [fit_while] in *.
    destruct (smallest <=? dist)%Z; [|exact H].
    destruct (first_fitting obj dist); apply IH; (exact H || lia).
Qed.

(** C5. For every target distance and every non-empty sequence of positive
    part sizes, [fit] terminates (any fuel from the truncated target on gives
    the same normal result, and the assertion of the source holds); when the
    truncated target is at most 0 the result is empty, otherwise the parts
    returned, the remainder piece included, sum to the truncated target. *)
Theorem fit_sums_to_target (dist : Q) (obj : list Z) :
  obj <> [] -> Forall (fun part => (0 < part)%Z) obj ->
  exists parts : list Z,
    (forall fuel, (Z.to_nat (py_int dist) <= fuel)%nat -> fit fuel dist obj = Some (Ok parts)) /\
    ((py_int dist <= 0)%Z -> parts = []) /\
    ((0 < py_int dist)%Z -> sum parts = py_int dist).
Proof.
  intros Hne Hpos. unfold fit.
  destruct (Z.leb_spec (py_int dist) 0) as [Hle|Hgt].
  - exists []. split; [intros; reflexivity | split; [reflexivity | lia]].
  - destruct (last obj) as [smallest|] eqn:Hlast.
    2:{ destruct obj as [|b obj]; [congruence|]. exfalso.
        clear -Hlast. revert b Hlast. induction obj as [|c obj IH]; intros b H; [discriminate|].
        apply (IH c). exact H. }
    destruct (fit_while_ends obj smallest Hlast Hpos (Z.to_nat (py_int dist)) (py_int dist)
                (append_bothsides []) (le_n _)) as (d0 & a0 & H0 & Hd1 & Hd2 & Hd3 & Hsum).
    set (final := if (0 <? d0)%Z then send a0 d0 else a0).
    assert (sum (deq final) = py_int dist) as Hfinal.
    { subst final. unfold append_bothsides, sum in Hsum. simpl in Hsum. fold (sum (deq a0)) in Hsum.
      destruct (Z.ltb_spec 0 d0) as [Hp|Hz]; [rewrite sum_send; lia|].
      assert (0 < smallest)%Z.
      { apply (proj1 (List.Forall_forall _ _) Hpos). clear -Hlast.
        induction obj as [|b [|b' obj] IH]; [discriminate | injection Hlast as ->; now left |].
        right. apply IH. exact Hlast. }
      lia. }
    exists (deq final). split; [| split; [lia | intros _; exact Hfinal]].
    intros fuel Hfuel.
    rewrite (fit_while_more_fuel _ _ _ _ _ _ H0 fuel Hfuel).
    fold final. rewrite Hfinal, Z.eqb_refl. reflexivity.
Qed.

(** A witness of C5: parts 4, 8, 12 (the last one taken as the smallest) and
    the target 20. *)
Lemma fit_example_sums :
  exists parts : list Z,
    (forall fuel, (Z.to_nat (py_int 20) <= fuel)%nat ->
                  fit fuel 20 [4; 8; 12]%Z = Some (Ok parts)) /\
    ((py_int 20 <= 0)%Z -> parts = []) /\
    ((0 < py_int 20)%Z -> sum parts = py_int 20).
Proof.
  apply (fit_sums_to_target 20 [4; 8; 12]%Z).
  - discriminate.
  - repeat (constructor; [lia|]). constructor.
Defined.

Example fit_20 : fit 20 20 [4; 8; 12]%Z = Some (Ok [8; 4; 4; 4]%Z).
Proof. reflexivity. Qed.

Example fit_float_target :
  fit 9 (-7.9) [3]%Z = Some (Ok []) /\ fit 9 7.9 [3]%Z = Some (Ok [3; 3; 1]%Z).
Proof. split; reflexivity. Qed.

(** ** AtomicWriter *)

Import AtomicWriter_methods.










Lemma lookup_mkdirs (chain : list string) (m : gmap string node) (p : string) :
  foldr (fun q acc => <[q := Dir]> acc) m chain !! p =
  if bool_decide (p ∈ chain) then Some Dir else m !! p.
Proof.
  induction chain as [|q chain IH]; simpl; [reflexivity|].
  destruct (decide (q = p)) as [->|Hne].
  - rewrite lookup_insert_eq. rewrite bool_decide_eq_true_2; [reflexivity | left].
  - rewrite lookup_insert_ne by exact Hne. rewrite IH.
    destruct (bool_decide (p ∈ chain)) eqn:Hb.
    + apply bool_decide_eq_true in Hb. rewrite bool_decide_eq_true_2; [reflexivity | now right].
    + apply bool_decide_eq_false in Hb. rewrite bool_decide_eq_false_2; [reflexivity|].
      intros [?|?]%elem_of_cons; [congruence | contradiction].
Qed.

(** [makedirs] keeps every regular file and binds no path that was a file. *)
Lemma makedirs_ok (d : string) (os os1 : OS) :
  makedirs d os = (Ok tt, os1) ->
  tmp_names os1 = tmp_names os /\
  forall p, nodes os1 !! p =
            if bool_decide (p ∈ lineage (String.length d) d) then Some Dir else nodes os !! p.
Proof.
  unfold makedirs. destruct (String.eqb d ""); [discriminate|].
  destruct (existsb _ _); [discriminate|].
  intros [= <-]. split; [reflexivity|]. intros p. apply lookup_mkdirs.
Qed.

Lemma makedirs_read_file (d : string) (os os1 : OS) :
  makedirs d os = (Ok tt, os1) -> forall p, read_file os1 p = read_file os p.
Proof.
  intros H p. pose proof (makedirs_ok d os os1 H) as [_ Hn]. unfold read_file. rewrite Hn.
  destruct (bool_decide (p ∈ _)) eqn:Hb; [|reflexivity].
  apply bool_decide_eq_true in Hb.
  unfold makedirs in H. destruct (String.eqb d ""); [discriminate|].
  destruct (existsb _ _) eqn:Hex; [discriminate|].
  destruct (nodes os !! p) as [[content|]|] eqn:Hp; try reflexivity.
  exfalso. apply Bool.not_true_iff_false in Hex. apply Hex.
  apply existsb_exists. exists p. split; [now apply list_elem_of_In|].
  apply bool_decide_eq_true. unfold read_file. rewrite Hp. eauto.
Qed.

Lemma makedirs_fail (d : string) (os os1 : OS) (e : exn) :
  makedirs d os = (Raise e, os1) -> os1 = os.
Proof.
  unfold makedirs. destruct (String.eqb d ""); [now intros [= _ <-]|].
  destruct (existsb _ _); [now intros [= _ <-] | discriminate].
Qed.

Lemma mkstemp_ok (dir : string) (cands : list string) (os os1 : OS) (f : TempFile) :
  mkstemp dir cands os = (Ok f, os1) ->
  written f = "" /\ nodes os !! name f = None /\
  nodes os1 = <[name f := File ""]> (nodes os).
Proof.
  revert os1. induction cands as [|cand rest IH]; intros os1; simpl; [discriminate|].
  destruct (nodes os !! path_join dir cand) eqn:Hc; [apply IH|].
  intros [= <- <-]. simpl. auto.
Qed.

Ltac unfold_cmd :=
  unfold __enter__, __exit__, make_tempfile, on_os, self_temp, self_field, assign_temp,
    cexcept_pass, cbind, cret, craise, NamedTemporaryFile.







(** The body deletes the temporary file itself and raises: the removal in
    [__exit__] finds nothing, which is ignored. *)
Example exit_ignores_missing_temp :
  write_atomically "out/a.txt" false [DoWrite "new"; DoUnlink; DoRaise (UserError "boom")]
    samples.os0
  = (Raise (UserError "boom"), mkOS (<["out" := Dir]> {[ "out/a.txt" := File "old" ]}) []).
Proof. vm_compute. reflexivity. Qed.

(** A target without a directory part: [os.makedirs] refuses the empty
    path, so [__enter__] raises and the body never runs. *)
Example bare_name_fails_on_enter :
  write_atomically "a.txt" false [DoWrite "new"] samples.os0
  = (Raise FileNotFoundError, samples.os0).
Proof. vm_compute. reflexivity. Qed.

(** ** parse_str *)

(** [float] raises nothing but [ValueError], apart from the cut of the
    model. *)
Lemma py_float_raises (text : string) (e : exn) :
  py_float text = Raise e -> e = ValueError \/ e = NonFinite.
Proof.
  unfold py_float.
  destruct (read_sign (strip text)) as [neg s].
  destruct (is_nonfinite_literal s); [intros [= <-]; now right|].
  destruct (read_digits 0 0 s) as [[ipart n1] s1].
  destruct (match s1 with
            | String "."%char rest => read_digits ipart 0 rest
            | _ => (ipart, 0%nat, s1)
            end) as [[mant n2] s2].
  destruct (n1 + n2 =? 0)%nat; [intros [= <-]; now left|].
  destruct (read_exponent s2) as [[ex [|c s3]]|]; try discriminate; intros [= <-]; now left.
Qed.

Lemma last_char_nonempty (c : ascii) (s : string) : exists final, last_char (String c s) = Ok final.
Proof.
  revert c. induction s as [|d s IH]; intros c; [exists c; reflexivity|].
  destruct (IH d) as [final H]. exists final. exact H.
Qed.

(** X9. [parse_str] lets an [IndexError] escape exactly when the text has
    three fields of which the first or the last is empty: text with another
    number of fields, or with fields that are no numbers, never does. *)
Lemma parse_str_raises_iff (text : string) (x y z : R) :
  parse_str (inl text) x y z = Raise IndexError <->
  exists str_x str_y str_z,
    split space text = [str_x; str_y; str_z] /\ (str_x = "" \/ str_z = "").
Proof.
  unfold parse_str.
  destruct (split space text) as [|sx [|sy [|sz [|extra rest]]]] eqn:Hsplit;
    try (split; [discriminate | intros (a & b & c & [=] & _)]).
  split.
  - intros H. exists sx, sy, sz. split; [reflexivity|].
    destruct sx as [|c sx]; [now left|]. right.
    destruct sz as [|d sz]; [reflexivity|]. exfalso.
    cbn [first_char mbind result_bind] in H.
    destruct (last_char_nonempty d sz) as [final Hlast]. rewrite Hlast in H.
    cbn [mbind result_bind] in H. unfold try_except in H.
    repeat match type of H with
           | context [py_float ?s] =>
               let E := fresh "E" in
               destruct (py_float s) as [?|?] eqn:E;
               [|apply py_float_raises in E as [->| ->]]; cbn in H
           end; discriminate.
  - intros (a & b & c & [= <- <- <-] & [->| ->]); [reflexivity|].
    destruct sx; reflexivity.
Qed.

(** C2, at the failing inputs. The claim (and the docstring of [parse_str])
    promise the defaults for every unparsable string; on a string of three
    fields whose first or last field is empty, such as [" 1 2"] and
    ["1 2 "], the indexing [str_x[0]] or [str_z[-1]] raises [IndexError],
    which no handler catches, and so do [Vec.from_str] and
    [rotate_by_str]. *)
Theorem parse_str_empty_token_raises (x y z : R) (v : Vec) :
  parse_str (inl " 1 2") x y z = Raise IndexError /\
  parse_str (inl "1 2 ") x y z = Raise IndexError /\
  from_str (inl " 1 2") x y z = Raise IndexError /\
  rotate_by_str v (inl "1 2 ") x y z true = Raise IndexError.
Proof. repeat split. Qed.

(** Text with another number of fields than three, and text whose fields are
    not numbers, do give the defaults. *)
Example parse_str_defaults (x y z : R) :
  parse_str (inl "1 2") x y z = Ok (x, y, z) /\
  parse_str (inl "") x y z = Ok (x, y, z) /\
  parse_str (inl "a b c") x y z = Ok (x, y, z) /\
  parse_str (inl "1  2") x y z = Ok (x, y, z) /\
  parse_str (inl "(1 2 ]") x y z = Ok (x, y, z).
Proof. repeat split. Qed.

End utils_props.

(* ===================================================================== *)
(** * Properties of conditions/positioning.py                             *)
(* ===================================================================== *)

Module positioning_props.
Import Py utils positioning spec samples.
Module PP := property_parser.

Lemma snap_bounds (a : R) : (snap a - 64 <= a < snap a + 64)%R.
Proof.
  unfold snap. pose proof (Zfloor_bound (a / 128)) as [H1 H2].
  assert (a = a / 128 * 128)%R as Ha by (field).
  split; lra.
Qed.

(** The general rule of the goo flag: the key looked up in [GOO_LOCS] is the
    centre of the cell of the raw position, which lies within 64 units of it
    on each axis. *)
Lemma goo_cell_is_floor_center (GOO_LOCS : list Vec_tuple)
    (inst : vmfLib.Entity) (flag : PP.Property)
    (text : string) (offset rot origin : Vec) :
  PP.value flag = Ok text ->
  from_str (inl text) 0 0 0 = Ok offset ->
  rotate_by_str offset (vmfLib.get inst "angles" (inl "0 0 0")) 0 0 0 true = Ok rot ->
  from_str (vmfLib.getitem inst "origin") 0 0 0 = Ok origin ->
  let p := mkVec (x rot * 128 + x origin) (y rot * 128 + y origin) (z rot * 128 + z origin) in
  flag_goo_at_loc GOO_LOCS inst flag = Ok (bool_decide (cell_center p ∈ GOO_LOCS)) /\
  (snap (x p) - 64 <= x p < snap (x p) + 64)%R /\
  (snap (y p) - 64 <= y p < snap (y p) + 64)%R /\
  (snap (z p) - 64 <= z p < snap (z p) + 64)%R.
Proof.
  intros Hval Hoff Hrot Horg p.
  split; [|auto using snap_bounds].
  unfold flag_goo_at_loc. rewrite Hval. cbn [mbind result_bind].
  rewrite Hoff. cbn [mbind result_bind]. rewrite Hrot. cbn [mbind result_bind].
  unfold Vec_methods.__imul__, Vec_methods.__floordiv__, Vec_methods.__mul__,
    Vec_methods.muldiv, Vec_methods.__iadd__, Vec_methods.__add__, Vec_methods.addsub.
  cbn [mbind result_bind]. rewrite Horg. cbn [mbind result_bind x y z].
  unfold py_floordiv. destruct (decide (128 = 0)%R) as [E|_]; [exfalso; lra|].
  cbn [mbind result_bind x y z]. reflexivity.
Qed.

Lemma radians_0 : radians 0 = 0%R.
Proof. unfold radians. lra. Qed.

Lemma rotate_none (v : Vec) :
  Vec_methods.rotate v 0 0 0 true =
  mkVec (py_round (x v) 3) (py_round (y v) 3) (py_round (z v) 3).
Proof.
  unfold Vec_methods.rotate, Vec_methods.mat_mul. rewrite radians_0, cos_0, sin_0.
  cbn [x y z]. f_equal; f_equal; ring.
Qed.

Lemma round_half_even_IZR (k : Z) : round_half_even (IZR k) = k.
Proof.
  unfold round_half_even.
  assert (Zfloor (IZR k) = k) as -> by (apply Zfloor_eq; lra).
  destruct (Rlt_dec (IZR k - IZR k) (1 / 2)) as [_|H]; [reflexivity | exfalso; apply H; lra].
Qed.

(** Numbers with at most three decimals are left alone by [round(_, 3)]. *)
Lemma py_round_thousandths (k : Z) : py_round (IZR k / 1000) 3 = (IZR k / 1000)%R.
Proof.
  unfold py_round. replace (IZR k / 1000 * 10 ^ 3)%R with (IZR k) by (simpl; field).
  rewrite round_half_even_IZR. simpl. f_equal. ring.
Qed.

Lemma Q2R_0 : Q2R 0 = 0%R.
Proof. unfold Q2R. simpl. lra. Qed.

Lemma parse_zero : parse_str (inl "0 0 0") 0 0 0 = Ok (0, 0, 0)%R.
Proof.
  change (parse_str (inl "0 0 0") 0 0 0)
    with (@Ok Vec_tuple (Q2R (0 # 1), Q2R (0 # 1), Q2R (0 # 1))).
  assert (Q2R (0 # 1) = 0%R) as -> by (unfold Q2R; simpl; lra).
  reflexivity.
Qed.

Lemma parse_offset : parse_str (inl "0.6 0 0") 0 0 0 = Ok (6 / 10, 0, 0)%R.
Proof.
  change (parse_str (inl "0.6 0 0") 0 0 0)
    with (@Ok Vec_tuple (Q2R (6 # 10), Q2R (0 # 1), Q2R (0 # 1))).
  assert (Q2R (0 # 1) = 0%R) as -> by (unfold Q2R; simpl; lra).
  assert (Q2R (6 # 10) = (6 / 10)%R) as -> by (unfold Q2R; simpl; lra).
  reflexivity.
Qed.

Lemma snap_low (a : R) : (0 <= a < 128)%R -> snap a = 64%R.
Proof.
  intros H. unfold snap.
  assert (Zfloor (a / 128) = 0%Z) as -> by (apply Zfloor_eq; simpl; lra).
  simpl. lra.
Qed.

Lemma goo_example_rot :
  rotate_by_str (mkVec (6 / 10) 0 0) (vmfLib.get goo_inst "angles" (inl "0 0 0")) 0 0 0 true
  = Ok (mkVec (6 / 10) 0 0).
Proof.
  unfold rotate_by_str.
  change (vmfLib.get goo_inst "angles" (inl "0 0 0")) with (@inl string Vec "0 0 0").
  rewrite parse_zero. cbn [mbind result_bind]. rewrite rotate_none. cbn [x y z].
  replace (6 / 10)%R with (IZR 600 / 1000)%R by lra.
  replace 0%R with (IZR 0 / 1000)%R at 1 2 by lra.
  rewrite !py_round_thousandths. do 2 f_equal; lra.
Qed.

(** The example of the claim: 0.6 cells along x is the raw position 76.8,
    whose cell is centred at 64 on every axis. *)
Lemma goo_example_key (GOO_LOCS : list Vec_tuple) :
  flag_goo_at_loc GOO_LOCS goo_inst goo_flag = Ok (bool_decide ((64, 64, 64)%R ∈ GOO_LOCS)).
Proof.
  destruct (goo_cell_is_floor_center GOO_LOCS goo_inst goo_flag "0.6 0 0"
              (mkVec (6 / 10) 0 0) (mkVec (6 / 10) 0 0) (mkVec 0 0 0)) as [H _].
  - reflexivity.
  - unfold from_str. rewrite parse_offset. reflexivity.
  - apply goo_example_rot.
  - unfold from_str. change (vmfLib.getitem goo_inst "origin") with (@inl string Vec "0 0 0").
    rewrite parse_zero. reflexivity.
  - rewrite H. unfold cell_center. cbn [x y z].
    rewrite !snap_low by lra. reflexivity.
Qed.

(** C3, the example of the claim. For the offset (0.6, 0, 0), no rotation
    and the origin (0, 0, 0), the claim has the lookup at the cell centre
    x = 192; the flag finds nothing in a registry that holds only a cell with
    x = 192, and it does find the cell centred at (64, 64, 64). *)
Lemma goo_example_not_192 :
  (forall ky kz : R, flag_goo_at_loc [(192, ky, kz)%R] goo_inst goo_flag = Ok false) /\
  flag_goo_at_loc [(64, 64, 64)%R] goo_inst goo_flag = Ok true.
Proof.
  split.
  - intros ky kz. rewrite goo_example_key. f_equal. apply bool_decide_eq_false_2.
    intros H%list_elem_of_singleton. injection H as H _ _. lra.
  - rewrite goo_example_key. f_equal. apply bool_decide_eq_true_2. left.
Qed.

(** C7. For every instance angle and every [from_dir], when the target of
    the orientation flag is the WALL keyword, the flag succeeds exactly when
    [from_dir] rotated by the angle of the instance is neither (0, 0, 1) nor
    (0, 0, -1), and it returns false exactly for these two vectors. *)
Theorem flag_angles_wall (DIRECTIONS : gmap string conditions.direction)
    (inst : vmfLib.Entity) (flag : PP.Property)
    (targ_angle : string) (from_dir : Vec) (allow_inverse : bool) (inst_normal : Vec) :
  angles_options DIRECTIONS flag = Ok (targ_angle, from_dir, allow_inverse) ->
  DIRECTIONS !! casefold targ_angle = Some conditions.DWall ->
  rotate_by_str from_dir (vmfLib.get inst "angles" (inl "0 0 0")) 0 0 0 true = Ok inst_normal ->
  (flag_angles DIRECTIONS inst flag = Ok true <->
   Vec_methods.as_tuple inst_normal <> (0, 0, 1)%R /\
   Vec_methods.as_tuple inst_normal <> (0, 0, -1)%R) /\
  (flag_angles DIRECTIONS inst flag = Ok false <->
   Vec_methods.as_tuple inst_normal = (0, 0, 1)%R \/
   Vec_methods.as_tuple inst_normal = (0, 0, -1)%R).
Proof.
  intros Hopt Hwall Hrot. unfold flag_angles. rewrite Hopt. cbn [mbind result_bind].
  rewrite Hwall, Hrot. cbn [mbind result_bind].
  assert (forall a b c : R,
            Vec_methods.__eq__ inst_normal (OTuple (a, b, c)) = true <->
            Vec_methods.as_tuple inst_normal = (a, b, c)) as Heq.
  { intros a b c. unfold Vec_methods.__eq__, Vec_methods.as_tuple.
    rewrite !andb_true_iff, !bool_decide_eq_true. split.
    - intros [[-> ->] ->]. reflexivity.
    - intros [= -> -> ->]. auto. }
  destruct (Vec_methods.__eq__ inst_normal (OTuple (0, 0, 1)%R)) eqn:E1;
    destruct (Vec_methods.__eq__ inst_normal (OTuple (0, 0, -1)%R)) eqn:E2;
    cbn [orb negb];
    try (apply Heq in E1); try (apply Heq in E2);
    try (assert (Vec_methods.as_tuple inst_normal <> (0, 0, 1)%R)
           by (intros X; apply Heq in X; congruence));
    try (assert (Vec_methods.as_tuple inst_normal <> (0, 0, -1)%R)
           by (intros X; apply Heq in X; congruence));
    split; split; try tauto; try discriminate; intuition congruence.
Qed.

Lemma rotate_by_none (a b c : Z) (inst : vmfLib.Entity) :
  vmfLib.get inst "angles" (inl "0 0 0") = inl "0 0 0" ->
  rotate_by_str (mkVec (IZR a) (IZR b) (IZR c)) (vmfLib.get inst "angles" (inl "0 0 0"))
    0 0 0 true
  = Ok (mkVec (IZR a) (IZR b) (IZR c)).
Proof.
  intros ->. unfold rotate_by_str. rewrite parse_zero. cbn [mbind result_bind].
  rewrite rotate_none. cbn [x y z].
  assert (forall k, py_round (IZR k) 3 = IZR k) as Hr.
  { intros k. replace (IZR k) with (IZR (k * 1000) / 1000)%R at 1 2
      by (rewrite mult_IZR; field).
    apply py_round_thousandths. }
  now rewrite !Hr.
Qed.

(** A witness of C7: an unrotated instance, asked with the bare keyword
    (which looks along +z: false) and with a block that looks along +x
    (true). *)
Lemma flag_angles_wall_examples :
  flag_angles DIRECTIONS0 goo_inst wall_flag = Ok false /\
  flag_angles DIRECTIONS0 goo_inst wall_flag_x = Ok true.
Proof.
  split.
  - apply (proj2 (flag_angles_wall DIRECTIONS0 goo_inst wall_flag
                    "WALL" (mkVec 0 0 1) false (mkVec 0 0 1) eq_refl eq_refl
                    (rotate_by_none 0 0 1 goo_inst eq_refl))).
    left. reflexivity.
  - apply (proj1 (flag_angles_wall DIRECTIONS0 goo_inst wall_flag_x
                    "Walls" (mkVec 1 0 0) false (mkVec 1 0 0) eq_refl eq_refl
                    (rotate_by_none 1 0 0 goo_inst eq_refl))).
    unfold Vec_methods.as_tuple. cbn [x y z]. split; intros [= H]; lra.
Defined.

(** C3, as amended. The key that the goo flag looks up is
    [floor(p / 128) * 128 + 64] on each axis of the raw position [p] (the
    rotated offset times 128 plus the origin), and [p] lies in the cell
    around it; for the offset (0.6, 0, 0), no rotation and the origin
    (0, 0, 0) the key is (64, 64, 64). *)
Theorem goo_cell_lookup :
  (forall (GOO_LOCS : list Vec_tuple) (inst : vmfLib.Entity) (flag : PP.Property)
          (text : string) (offset rot origin : Vec),
     PP.value flag = Ok text ->
     from_str (inl text) 0 0 0 = Ok offset ->
     rotate_by_str offset (vmfLib.get inst "angles" (inl "0 0 0")) 0 0 0 true = Ok rot ->
     from_str (vmfLib.getitem inst "origin") 0 0 0 = Ok origin ->
     let p := mkVec (x rot * 128 + x origin) (y rot * 128 + y origin)
                    (z rot * 128 + z origin) in
     flag_goo_at_loc GOO_LOCS inst flag = Ok (bool_decide (cell_center p ∈ GOO_LOCS)) /\
     (snap (x p) - 64 <= x p < snap (x p) + 64)%R /\
     (snap (y p) - 64 <= y p < snap (y p) + 64)%R /\
     (snap (z p) - 64 <= z p < snap (z p) + 64)%R) /\
  (forall GOO_LOCS : list Vec_tuple,
     flag_goo_at_loc GOO_LOCS goo_inst goo_flag
     = Ok (bool_decide ((64, 64, 64)%R ∈ GOO_LOCS))).
Proof.
  split.
  - intros. now apply goo_cell_is_floor_center with (text := text) (offset := offset).
  - apply goo_example_key.
Qed.

(** A witness of C3: the general rule at the example of the claim. *)
Lemma goo_cell_lookup_example :
  flag_goo_at_loc [(64, 64, 64)%R] goo_inst goo_flag
  = Ok (bool_decide
          (cell_center (mkVec (6 / 10 * 128 + 0) (0 * 128 + 0) (0 * 128 + 0))
           ∈ [(64, 64, 64)%R])).
Proof.
  apply (proj1 goo_cell_lookup [(64, 64, 64)%R] goo_inst goo_flag "0.6 0 0"
           (mkVec (6 / 10) 0 0) (mkVec (6 / 10) 0 0) (mkVec 0 0 0)).
  - reflexivity.
  - unfold from_str. rewrite parse_offset. reflexivity.
  - apply goo_example_rot.
  - unfold from_str. change (vmfLib.getitem goo_inst "origin") with (@inl string Vec "0 0 0").
    rewrite parse_zero. reflexivity.
Defined.

(** The keyword for walls is no direction to look from: [Vec('WALL')] tries
    to read the letters as numbers. *)
Example from_dir_wall_raises :
  flag_angles DIRECTIONS0 goo_inst wall_flag_from_wall = Raise ValueError.
Proof. reflexivity. Qed.

End positioning_props.

(* ===================================================================== *)
(** * Properties of conditions/resizableTrigger.py                        *)
(* ===================================================================== *)

Module resizableTrigger_props.
Import Py utils resizableTrigger spec samples.

Lemma copy_output_emitted (p : pins) (other : vmfLib.Entity)
    (acc : list vmfLib.Output) (out : vmfLib.Output) :
  copy_output p other acc out = acc ++ emitted p other out.
Proof.
  unfold copy_output, emitted, targets_partner, is_act, is_deact, rehomed.
  destruct (bool_decide (inl (vmfLib.target out) = _)); [now rewrite app_nil_r|].
  destruct (bool_decide (vmfLib.inst_out out = mark_act_name p) && _).
  - destruct (String.eqb (trig_act p) ""); [now rewrite app_nil_r | reflexivity].
  - destruct (bool_decide (vmfLib.inst_out out = mark_deact_name p) && _);
      [|now rewrite app_nil_r].
    destruct (String.eqb (trig_deact p) ""); [now rewrite app_nil_r | reflexivity].
Qed.

Lemma copy_loop_emitted (p : pins) (other : vmfLib.Entity) (sources acc : list vmfLib.Output) :
  fold_left (copy_output p other) sources acc = acc ++ flat_map (emitted p other) sources.
Proof.
  revert acc. induction sources as [|out sources IH]; intros acc; simpl.
  - now rewrite app_nil_r.
  - rewrite IH, copy_output_emitted, <- app_assoc. reflexivity.
Qed.

(** C6, as amended. The outputs of the trigger after the loop are those it
    had, followed by what each output of the two markers contributes, in
    order: an output that targets the partner marker contributes nothing; an
    output that matches the activate pin is re-homed as the configured
    trigger-activate output; an output that matches the deactivate pin and
    not the activate pin is re-homed as the configured trigger-deactivate
    output; an output that matches neither pin contributes nothing; and an
    output whose configured mapping is the empty string contributes nothing
    even when it matches. *)
Theorem resizable_outputs_rehomed (p : pins) (inst other trig_ent : vmfLib.Entity) :
  let sources := vmfLib.outputs inst ++ vmfLib.outputs other in
  let result := vmfLib.outputs (copy_outputs p inst other trig_ent) in
  result = vmfLib.outputs trig_ent ++ flat_map (emitted p other) sources /\
  (forall out,
     (targets_partner other out = true -> emitted p other out = []) /\
     (targets_partner other out = false -> is_act p out = true -> trig_act p <> "" ->
      emitted p other out = [rehomed (trig_act p) out]) /\
     (targets_partner other out = false -> is_act p out = false ->
      is_deact p out = true -> trig_deact p <> "" ->
      emitted p other out = [rehomed (trig_deact p) out]) /\
     (is_act p out = false -> is_deact p out = false -> emitted p other out = []) /\
     (is_act p out = true -> trig_act p = "" -> emitted p other out = []) /\
     (is_act p out = false -> trig_deact p = "" -> emitted p other out = [])) /\
  (forall out,
     In out sources -> targets_partner other out = false ->
     (is_act p out = true -> trig_act p <> "" -> In (rehomed (trig_act p) out) result) /\
     (is_act p out = false -> is_deact p out = true -> trig_deact p <> "" ->
      In (rehomed (trig_deact p) out) result)).
Proof.
  intros sources result.
  assert (result = vmfLib.outputs trig_ent ++ flat_map (emitted p other) sources) as Hres.
  { subst result sources. unfold copy_outputs. cbn [vmfLib.outputs]. apply copy_loop_emitted. }
  split; [exact Hres|]. split.
  - intros out. unfold emitted.
    destruct (targets_partner other out), (is_act p out), (is_deact p out),
      (String.eqb_spec (trig_act p) ""), (String.eqb_spec (trig_deact p) "");
      repeat split; intros; congruence.
  - intros out Hin Htp. rewrite Hres. split.
    + intros Ha Hne. apply in_or_app. right. apply in_flat_map. exists out. split; [exact Hin|].
      unfold emitted. rewrite Htp, Ha. apply String.eqb_neq in Hne. rewrite Hne. now left.
    + intros Ha Hd Hne. apply in_or_app. right. apply in_flat_map. exists out. split; [exact Hin|].
      unfold emitted. rewrite Htp, Ha, Hd. apply String.eqb_neq in Hne. rewrite Hne. now left.
Qed.

(** C6, as stated, fails when the item registers the same pin for activate
    and deactivate: the output of a marker that matches the deactivate pin,
    does not target the partner and has a non-empty deactivate mapping is
    emitted as the trigger-activate output only, not as the
    trigger-deactivate output. *)
Lemma deactivate_pin_shadowed :
  In out_door (vmfLib.outputs marker_a ++ vmfLib.outputs marker_b) /\
  is_deact pins_same out_door = true /\
  targets_partner marker_b out_door = false /\
  trig_deact pins_same <> "" /\
  vmfLib.outputs (copy_outputs pins_same marker_a marker_b trig0)
  = [rehomed "OnStartTouchAll" out_door] /\
  ~ In (rehomed (trig_deact pins_same) out_door)
       (vmfLib.outputs (copy_outputs pins_same marker_a marker_b trig0)).
Proof.
  split; [now left|]. split; [reflexivity|]. split; [reflexivity|]. split; [discriminate|].
  split; [vm_compute; reflexivity|].
  vm_compute. intros [H|[]]; discriminate.
Qed.

(** A witness of C6: the activate output of the first marker, with the pins
    of a registered item. *)
Lemma resizable_outputs_example :
  In (rehomed "OnStartTouchAll" out_door)
     (vmfLib.outputs (copy_outputs pins0 marker_a marker_b trig0)).
Proof.
  destruct (resizable_outputs_rehomed pins0 marker_a marker_b trig0) as (_ & _ & H).
  destruct (H out_door) as [Hact _]; [now left | reflexivity |].
  apply Hact; [reflexivity | discriminate].
Defined.

(** With the pins of a registered item and an empty deactivate mapping, only
    the activate output of the first marker reaches the trigger. *)
Example remap_with_registered_pins :
  exists p,
    read_pins CONNECTIONS0 res0 = Ok p /\
    vmfLib.outputs (copy_outputs p marker_a marker_b trig0)
    = [rehomed "OnStartTouchAll" out_door].
Proof. eexists. split; vm_compute; reflexivity. Qed.

End resizableTrigger_props.

(* ===================================================================== *)
(** * Properties of voiceLine.py                                          *)
(* ===================================================================== *)

Module voiceLine_props.
Import Py utils voiceLine spec samples.

Lemma persists_refl g : persists g g.
Proof. split; [set_solver | auto]. Qed.

Lemma persists_trans g1 g2 g3 : persists g1 g2 -> persists g2 g3 -> persists g1 g3.
Proof. intros [H1 H2] [H3 H4]. split; [set_solver | auto]. Qed.

Lemma keeps_ret {A} (a : A) : keeps (cret a).
Proof. intros g r g' [= _ <-]. apply persists_refl. Qed.

Lemma keeps_raise {A} (e : exn) : keeps (@craise globals A e).
Proof. intros g r g' [= _ <-]. apply persists_refl. Qed.

Lemma keeps_lift {A} (r : result A) : keeps (lift r).
Proof. intros g r' g' [= _ <-]. apply persists_refl. Qed.

Lemma keeps_read {A} (field : globals -> A) : keeps (read field).
Proof. intros g r' g' [= _ <-]. apply persists_refl. Qed.

Lemma keeps_bind {A B} (c : cmd globals A) (k : A -> cmd globals B) :
  keeps c -> (forall a, keeps (k a)) -> keeps (cbind c k).
Proof.
  intros Hc Hk g r g'. unfold cbind. destruct (c g) as [[a|e] g1] eqn:Hcg.
  - intros H. eapply persists_trans; [eapply Hc, Hcg | eapply Hk, H].
  - intros [= _ <-]. eapply Hc, Hcg.
Qed.

Lemma keeps_set_map_attr v : keeps (set_map_attr v).
Proof. intros g r g' [= _ <-]. split; simpl; [set_solver | auto]. Qed.
Lemma keeps_set_style_vars v : keeps (set_style_vars v).
Proof. intros g r g' [= _ <-]. split; simpl; [set_solver | auto]. Qed.
Lemma keeps_set_ALLOW_MID_VOICES v : keeps (set_ALLOW_MID_VOICES v).
Proof. intros g r g' [= _ <-]. split; simpl; [set_solver | auto]. Qed.
Lemma keeps_set_VMF v : keeps (set_VMF v).
Proof. intros g r g' [= _ <-]. split; simpl; [set_solver | auto]. Qed.
Lemma keeps_set_TO_PACK v : keeps (set_TO_PACK v).
Proof. intros g r g' [= _ <-]. split; simpl; [set_solver | auto]. Qed.
Lemma keeps_set_PACK_FILES v : keeps (set_PACK_FILES v).
Proof. intros g r g' [= _ <-]. split; simpl; [set_solver | auto]. Qed.
Lemma keeps_on_disk {A} (c : cmd OS A) : keeps (on_disk c).
Proof.
  intros g r g'. unfold on_disk. destruct (c (disk g)) as [r0 d].
  intros [= _ <-]. split; simpl; [set_solver | auto].
Qed.

(** The only writes to the two registries: a name is added to the set, a key
    is bound in the dictionary. *)
Lemma keeps_add_bullseye (v : string) :
  keeps (do added <- read ADDED_BULLSEYES; set_ADDED_BULLSEYES ({[ v ]} ∪ added)).
Proof. intros g r g' [= _ <-]. split; simpl; [set_solver | auto]. Qed.

Lemma str_dict_set_has (d : list (string * string)) (key val id : string) :
  str_dict_has d id = true -> str_dict_has (str_dict_set d key val) id = true.
Proof.
  unfold str_dict_has. induction d as [|[k v] d IH]; simpl; [discriminate|].
  destruct (String.eqb k key) eqn:Hk; simpl; [auto|].
  destruct (String.eqb k id); simpl; auto.
Qed.

Create HintDb keeps.
#[local] Hint Resolve keeps_ret keeps_raise keeps_lift keeps_read
  keeps_set_map_attr keeps_set_style_vars keeps_set_ALLOW_MID_VOICES keeps_set_VMF
  keeps_set_TO_PACK keeps_set_PACK_FILES keeps_on_disk keeps_add_bullseye : keeps.

(** One step of a proof that a command keeps the registries: through the
    binds and the branches, down to the commands of the hint database. *)
Ltac keeps_step :=
  match goal with
  | |- keeps (cbind (read ADDED_BULLSEYES) (fun added => set_ADDED_BULLSEYES _)) =>
      apply keeps_add_bullseye
  | |- keeps (cbind _ _) => apply keeps_bind; [|intros ?]
  | |- keeps (if ?b then _ else _) => destruct b
  | |- keeps (match ?x with _ => _ end) => destruct x
  | |- keeps _ => solve [auto with keeps]
  end.
Ltac keeps_auto := repeat keeps_step.

Lemma keeps_create_ent kv : keeps (create_ent kv).
Proof. unfold create_ent. keeps_auto. Qed.
Lemma keeps_add_out ent outs : keeps (add_out ent outs).
Proof. unfold add_out. keeps_auto. Qed.
Lemma keeps_add_brushes solid : keeps (add_brushes solid).
Proof. unfold add_brushes. keeps_auto. Qed.
#[local] Hint Resolve keeps_create_ent keeps_add_out keeps_add_brushes : keeps.

Lemma keeps_for_each {A} (items : list A) (body : A -> cmd globals unit) :
  (forall item, keeps (body item)) -> keeps (for_each items body).
Proof. intros H. induction items as [|item items IH]; simpl; keeps_auto. Qed.

Lemma keeps_has_responses : keeps has_responses.
Proof. unfold has_responses. keeps_auto. Qed.

Lemma keeps_res_quote_event res : keeps (res_quote_event res).
Proof.
  intros g r g'. unfold res_quote_event, cbind, lift, read, set_QUOTE_EVENTS.
  destruct (property_parser.getitem res "id"); [|intros [= _ <-]; apply persists_refl].
  destruct (property_parser.getitem res "file"); intros [= _ <-]; [|apply persists_refl].
  split; simpl; [set_solver | apply str_dict_set_has].
Qed.

Lemma keeps_resolve_event event : keeps (resolve_event event).
Proof.
  intros g r g'. unfold resolve_event, cbind, lift, read, set_QUOTE_EVENTS, cret.
  destruct (property_parser.get event "id" ""); [|intros [= _ <-]; apply persists_refl].
  destruct (_ && _); [|intros [= _ <-]; apply persists_refl].
  destruct (property_parser.getitem event "file"); intros [= _ <-]; [|apply persists_refl].
  split; simpl; [set_solver | apply str_dict_set_has].
Qed.

Lemma keeps_find_group_quotes E group use_dings conf mid_name :
  keeps (find_group_quotes E group use_dings conf mid_name).
Proof. unfold find_group_quotes. keeps_auto. Qed.

Lemma keeps_add_choreo c_line targetname loc use_dings is_first is_last only_once :
  keeps (add_choreo c_line targetname loc use_dings is_first is_last only_once).
Proof. unfold add_choreo. keeps_auto. Qed.
#[local] Hint Resolve keeps_add_choreo keeps_has_responses keeps_resolve_event
  keeps_find_group_quotes : keeps.

Lemma keeps_add_choreo_lines choreo_lines :
  forall ind count start off use_dings l,
    keeps (add_choreo_lines ind count choreo_lines start off use_dings l).
Proof.
  induction choreo_lines as [|line rest IH]; intros; cbn [add_choreo_lines]; keeps_auto.
Qed.
#[local] Hint Resolve keeps_add_choreo_lines : keeps.

Lemma keeps_add_quote_prop quote_loc use_dings prop l :
  keeps (add_quote_prop quote_loc use_dings prop l).
Proof. unfold add_quote_prop. keeps_auto. Qed.
#[local] Hint Resolve keeps_add_quote_prop : keeps.

Lemma keeps_add_quote_props quote_loc use_dings props :
  forall l, keeps (add_quote_props quote_loc use_dings props l).
Proof. induction props as [|prop rest IH]; intros; cbn [add_quote_props]; keeps_auto. Qed.
#[local] Hint Resolve keeps_add_quote_props : keeps.

Lemma keeps_add_quote quote targetname quote_loc use_dings :
  keeps (add_quote quote targetname quote_loc use_dings).
Proof. unfold add_quote. keeps_auto. apply keeps_for_each. intros. keeps_auto. Qed.
#[local] Hint Resolve keeps_add_quote : keeps.

Lemma keeps_add_group E map_seed use_priority quote_loc allow_dings group mid_quotes :
  keeps (add_group E map_seed use_priority quote_loc allow_dings group mid_quotes).
Proof. unfold add_group. keeps_auto. Qed.
#[local] Hint Resolve keeps_add_group : keeps.

Lemma keeps_add_groups E map_seed use_priority quote_loc allow_dings groups :
  forall mid_quotes,
    keeps (add_groups E map_seed use_priority quote_loc allow_dings groups mid_quotes).
Proof. induction groups as [|group rest IH]; intros; cbn [add_groups]; keeps_auto. Qed.

Lemma keeps_add_event_insts quote_loc files :
  forall ind, keeps (add_event_insts quote_loc ind files).
Proof. induction files as [|file rest IH]; intros; cbn [add_event_insts]; keeps_auto. Qed.

Lemma keeps_add_microphone targetname speakername quote_loc :
  keeps (add_microphone targetname speakername quote_loc).
Proof. unfold add_microphone. keeps_auto. Qed.

Lemma keeps_add_ding targetname scenefile origin : keeps (add_ding targetname scenefile origin).
Proof. unfold add_ding. keeps_auto. Qed.
#[local] Hint Resolve keeps_add_groups keeps_add_event_insts keeps_add_microphone
  keeps_add_ding : keeps.

Lemma keeps_add_voice_rest E map_seed use_priority :
  keeps (add_voice_rest E map_seed use_priority).
Proof.
  unfold add_voice_rest. keeps_auto.
  all: try (apply keeps_for_each; intros; keeps_auto).
  all: try (apply keeps_for_each; intros [[? ?] ?]; keeps_auto).
Qed.

Lemma keeps_add_voice E has_items style_vars_ vmf_file map_seed use_priority :
  keeps (add_voice E has_items style_vars_ vmf_file map_seed use_priority).
Proof. unfold add_voice. keeps_auto. apply keeps_add_voice_rest. Qed.

(** C4, as amended. [add_voice] assigns the Map Document reference, the
    item-presence map and the style-variable map from its arguments before
    anything else, so a pass does not depend on what these three held
    before; the registry of quote-event overrides and the set of placed
    bullseye names are not assigned by it: however the pass ends, every
    bullseye name and every event id recorded before it is still recorded
    after it. *)
Theorem voice_pass_state (E : env) (has_items style_vars_ : gmap string bool)
    (vmf_file : vmfLib.VMF) (map_seed : string) (use_priority : bool) :
  (forall g1 g2,
     agree_on_kept g1 g2 ->
     add_voice E has_items style_vars_ vmf_file map_seed use_priority g1
     = add_voice E has_items style_vars_ vmf_file map_seed use_priority g2) /\
  (forall g r g',
     add_voice E has_items style_vars_ vmf_file map_seed use_priority g = (r, g') ->
     persists g g').
Proof.
  split.
  - intros [a1 s1 b1 q1 d1 m1 v1 t1 p1 k1] [a2 s2 b2 q2 d2 m2 v2 t2 p2 k2].
    unfold agree_on_kept. simpl. intros (-> & -> & -> & -> & -> & -> & ->).
    reflexivity.
  - apply keeps_add_voice.
Qed.

(** C4, as stated, fails: two passes in one process, each on a fresh
    document, after a condition has registered a quote event. The bullseye
    name recorded by the first pass is still in the set during the second,
    which therefore places the scene but no bullseye entity, and the event
    registered before the first pass is still resolved by the second. *)
Lemma bullseye_survives_pass :
  let '(_, g_reg) := res_quote_event quote_event0 g0 in
  let '(r1, g1) := pass g_reg in
  let '(r2, g2) := pass g1 in
  r1 = Ok tt /\ r2 = Ok tt /\
  bool_decide ("@cave_target" ∈ ADDED_BULLSEYES g1) = true /\
  bool_decide ("@cave_target" ∈ ADDED_BULLSEYES g2) = true /\
  count_class "npc_bullseye" (VMF g1) = 1%nat /\
  count_class "npc_bullseye" (VMF g2) = 0%nat /\
  count_class "logic_choreographed_scene" (VMF g2) = 1%nat /\
  QUOTE_EVENTS g1 = [("elevator", "instances/elev.vmf")] /\
  QUOTE_EVENTS g2 = [("elevator", "instances/elev.vmf")] /\
  count_class "func_instance" (VMF g2) = 1%nat.
Proof. vm_compute. repeat split; reflexivity. Qed.

(** A witness of C4: the first pass of the example keeps what the registries
    held, and does not depend on the document and the maps that the module
    held before. *)
Lemma voice_pass_example :
  persists g0 (pass g0).2 /\
  pass g0
  = pass (mkGlobals {[ "cube" := true ]} {[ "nomidvoices" := true ]} (ADDED_BULLSEYES g0)
            (QUOTE_EVENTS g0) (QUOTE_DATA g0) (ALLOW_MID_VOICES g0)
            (Some vmfLib.empty_VMF) (TO_PACK g0) (PACK_FILES g0) (disk g0)).
Proof.
  split.
  - generalize (proj2 (voice_pass_state E0 ∅ ∅ vmfLib.empty_VMF "seed" true) g0).
    unfold pass. destruct (add_voice E0 ∅ ∅ vmfLib.empty_VMF "seed" true g0) as [r g1].
    intros H. exact (H r g1 eq_refl).
  - unfold pass.
    apply (proj1 (voice_pass_state E0 ∅ ∅ vmfLib.empty_VMF "seed" true)).
    unfold agree_on_kept.
    cbn [ADDED_BULLSEYES QUOTE_EVENTS QUOTE_DATA ALLOW_MID_VOICES TO_PACK PACK_FILES disk].
    repeat split.
Defined.

End voiceLine_props.

(* ===================================================================== *)
(** * More properties of utils.py                                      *)
(* ===================================================================== *)

Module utils_extra.
Import Py utils utils_props spec.
Import AtomicWriter_methods.

(** *** Text cleaning *)

Lemma startswith_app (p s r : string) :
  startswith p s = true -> startswith p (s +:+ r) = true.
Proof.
  revert s. induction p as [|a p IH]; intros s H; [reflexivity|].
  destruct s as [|b s]; [discriminate|].
  rewrite app_cons. simpl in *.
  apply andb_true_iff in H as [-> H]. simpl. auto.
Qed.

Lemma contains_str_app_r (sub t b : string) :
  contains_str sub t = true -> contains_str sub (t +:+ b) = true.
Proof.
  induction t as [|c t IH]; intros H.
  - simpl in H. rewrite orb_false_r in H. rewrite app_nil_l.
    destruct sub; [destruct b; reflexivity | discriminate].
  - rewrite app_cons. cbn [contains_str] in *.
    apply orb_true_iff in H as [H|H].
    + change (String c (t +:+ b)) with (String c t +:+ b) at 1.
      rewrite (startswith_app _ _ _ H). reflexivity.
    + rewrite (IH H). apply orb_true_r.
Qed.

Lemma contains_str_app_l (sub a t : string) :
  contains_str sub t = true -> contains_str sub (a +:+ t) = true.
Proof.
  intros H. induction a as [|c a IH]; [rewrite app_nil_l; exact H|].
  rewrite app_cons. cbn [contains_str]. rewrite IH. apply orb_true_r.
Qed.

Lemma before_first_prefix (sub s : string) :
  exists r, s = before_first sub s +:+ r.
Proof.
  induction s as [|c s [r IH]].
  - exists EmptyString. simpl. destruct (startswith sub EmptyString); reflexivity.
  - cbn [before_first]. destruct (startswith sub (String c s)).
    + exists (String c s). reflexivity.
    + exists r. rewrite app_cons. congruence.
Qed.

Lemma before_first_clean (sub s : string) :
  sub <> EmptyString -> contains_str sub (before_first sub s) = false.
Proof.
  intros Hsub. induction s as [|c s IH].
  - simpl. destruct sub; [congruence|reflexivity].
  - cbn [before_first].
    destruct (startswith sub (String c s)) eqn:Hst.
    + destruct sub; [congruence|reflexivity].
    + cbn [contains_str]. rewrite IH, orb_false_r.
      destruct (startswith sub (String c (before_first sub s))) eqn:Hp; [|reflexivity].
      destruct (before_first_prefix sub s) as [r Hr].
      apply (startswith_app _ _ r) in Hp. rewrite app_cons, <- Hr in Hp. congruence.
Qed.

Lemma strip_left_suffix (s : string) : exists a, s = a +:+ strip_left s.
Proof.
  induction s as [|c s [a IH]]; [exists EmptyString; reflexivity|].
  simpl. destruct (is_whitespace c).
  - exists (String c a). rewrite app_cons. congruence.
  - exists EmptyString. reflexivity.
Qed.

Lemma strip_right_prefix (s : string) : exists b, s = strip_right s +:+ b.
Proof.
  induction s as [|c s [b IH]]; [exists EmptyString; reflexivity|].
  simpl. destruct (strip_right s) eqn:Hs.
  - destruct (is_whitespace c).
    + exists (String c s). reflexivity.
    + exists b. rewrite app_cons. rewrite app_nil_l in *. congruence.
  - exists b. rewrite app_cons. congruence.
Qed.

Lemma strip_infix (s : string) : exists a b, s = a +:+ strip s +:+ b.
Proof.
  destruct (strip_left_suffix s) as [a Ha].
  destruct (strip_right_prefix (strip_left s)) as [b Hb].
  exists a, b. unfold strip. congruence.
Qed.

Lemma strip_keeps_clean (sub s : string) :
  contains_str sub s = false -> contains_str sub (strip s) = false.
Proof.
  intros H. destruct (contains_str sub (strip s)) eqn:Hc; [|reflexivity].
  destruct (strip_infix s) as (a & b & Hs).
  apply (contains_str_app_r _ _ b), (contains_str_app_l _ a) in Hc.
  rewrite <- Hs in Hc. congruence.
Qed.

Lemma strip_right_idem (s : string) : strip_right (strip_right s) = strip_right s.
Proof.
  induction s as [|c s IH]; [reflexivity|].
  simpl. destruct (strip_right s) as [|d t] eqn:Hs.
  - destruct (is_whitespace c) eqn:Hc; [reflexivity|]. simpl. rewrite Hc. reflexivity.
  - simpl. simpl in IH. rewrite IH. reflexivity.
Qed.

Lemma strip_right_head (c : ascii) (s : string) :
  is_whitespace c = false -> exists t, strip_right (String c s) = String c t.
Proof.
  intros Hc. simpl. destruct (strip_right s); [rewrite Hc|]; eauto.
Qed.

Lemma strip_left_head (s : string) :
  strip_left s = EmptyString \/
  exists c t, strip_left s = String c t /\ is_whitespace c = false.
Proof.
  induction s as [|c s IH]; [left; reflexivity|].
  simpl. destruct (is_whitespace c) eqn:Hc; [exact IH|]. right; eauto.
Qed.

Lemma strip_idem (s : string) : strip (strip s) = strip s.
Proof.
  unfold strip. destruct (strip_left_head s) as [->|(c & t & -> & Hc)]; [reflexivity|].
  destruct (strip_right_head c t Hc) as [u Hu]. rewrite Hu.
  cbn [strip_left]. rewrite Hc, <- Hu. apply strip_right_idem.
Qed.

(** X1. [clean_line] returns text with no comment marker and no
    surrounding whitespace, and cleaning that text again changes nothing;
    on a [str] argument it always returns. *)
Theorem clean_line_clean (decode : string -> result string) (line : string + string)
    (r : string) :
  clean_line decode line = Ok r ->
  contains_str "//" r = false /\ strip r = r /\
  clean_line decode (inl r) = Ok r.
Proof.
  intros H.
  assert (Hr : exists t, r = strip t /\ contains_str "//" t = false).
  { unfold clean_line in H.
    destruct line as [text|data]; simpl in H.
    - destruct (contains_str "//" text) eqn:Hc; inversion H; subst; eexists; split; eauto.
      apply before_first_clean; discriminate.
    - destruct (decode data) as [text|e]; simpl in H; [|discriminate].
      destruct (contains_str "//" text) eqn:Hc; inversion H; subst; eexists; split; eauto.
      apply before_first_clean; discriminate. }
  destruct Hr as (t & -> & Ht).
  pose proof (strip_keeps_clean _ _ Ht) as Hc.
  split; [exact Hc|]. split; [apply strip_idem|].
  unfold clean_line. simpl. rewrite Hc, strip_idem. reflexivity.
Qed.

Lemma clean_line_clean_witness :
  clean_line (fun data => Ok data) (inr "  spawn 1 // first  ") = Ok "spawn 1" /\
  contains_str "//" "spawn 1" = false.
Proof.
  split; [reflexivity|].
  apply (clean_line_clean (fun data => Ok data) (inr "  spawn 1 // first  ")).
  reflexivity.
Defined.

(** A [str] line never raises. *)
Lemma clean_line_str_returns (decode : string -> result string) (text : string) :
  exists r, clean_line decode (inl text) = Ok r.
Proof. unfold clean_line. simpl. eauto. Qed.

(** *** Character filters *)

Lemma is_plain_text_app (a b valid : string) :
  is_plain_text (a +:+ b) valid = is_plain_text a valid && is_plain_text b valid.
Proof.
  induction a as [|c a IH]; [rewrite app_nil_l; reflexivity|].
  rewrite app_cons. simpl. destruct (char_in c valid); simpl; auto.
Qed.

Lemma whitelist_cons (c : ascii) (text valid rep : string) :
  whitelist (String c text) valid rep =
  (if negb (char_in c valid) then rep else String c EmptyString) +:+ whitelist text valid rep.
Proof. reflexivity. Qed.

Lemma blacklist_cons (c : ascii) (text invalid rep : string) :
  blacklist (String c text) invalid rep =
  (if char_in c invalid then rep else String c EmptyString) +:+ blacklist text invalid rep.
Proof. reflexivity. Qed.

(** X2. [whitelist] with a replacement made of valid characters returns
    plain text, and it returns plain text unchanged. *)
Theorem whitelist_plain (text valid rep : string) :
  (is_plain_text rep valid = true ->
   is_plain_text (whitelist text valid rep) valid = true) /\
  (is_plain_text text valid = true -> whitelist text valid rep = text).
Proof.
  split.
  - intros Hrep. induction text as [|c text IH]; [reflexivity|].
    rewrite whitelist_cons, is_plain_text_app, IH, andb_true_r.
    destruct (char_in c valid) eqn:Hc; simpl; [rewrite Hc; reflexivity | exact Hrep].
  - induction text as [|c text IH]; [reflexivity|].
    intros H. rewrite whitelist_cons. simpl in H.
    destruct (char_in c valid); simpl in *; [|discriminate].
    rewrite app_cons, app_nil_l, (IH H). reflexivity.
Qed.

Lemma whitelist_plain_witness :
  is_plain_text (whitelist "my/file:1.txt" FILE_CHARS "_") FILE_CHARS = true /\
  whitelist "my_file 1.txt" FILE_CHARS "_" = "my_file 1.txt".
Proof.
  split.
  - apply (proj1 (whitelist_plain "my/file:1.txt" FILE_CHARS "_")). reflexivity.
  - apply (proj2 (whitelist_plain "my_file 1.txt" FILE_CHARS "_")). reflexivity.
Defined.

(** X3. [blacklist] with a replacement free of forbidden characters
    returns text free of them, and it returns text free of them unchanged. *)
Theorem blacklist_clean (text invalid rep : string) :
  let free s := forallb (fun c => negb (char_in c invalid)) (list_ascii_of_string s) in
  (free rep = true -> free (blacklist text invalid rep) = true) /\
  (free text = true -> blacklist text invalid rep = text).
Proof.
  intros free.
  assert (Happ : forall a b, free (a +:+ b) = free a && free b).
  { intros a b. unfold free. induction a as [|c a IH]; [rewrite app_nil_l; reflexivity|].
    rewrite app_cons. simpl. rewrite IH. apply andb_assoc. }
  split.
  - intros Hrep. induction text as [|c text IH]; [reflexivity|].
    rewrite blacklist_cons, Happ, IH, andb_true_r.
    destruct (char_in c invalid) eqn:Hc; [exact Hrep|].
    unfold free. simpl. rewrite Hc. reflexivity.
  - induction text as [|c text IH]; [reflexivity|].
    intros H. rewrite blacklist_cons. unfold free in H. simpl in H.
    apply andb_true_iff in H as [Hc H].
    destruct (char_in c invalid); [discriminate|].
    rewrite app_cons, app_nil_l, (IH H). reflexivity.
Qed.

Lemma blacklist_clean_witness :
  forallb (fun c => negb (char_in c "<>:"))
          (list_ascii_of_string (blacklist "a<b>:c" "<>:" "_")) = true /\
  blacklist "abc" "<>:" "_" = "abc".
Proof.
  split.
  - apply (proj1 (blacklist_clean "a<b>:c" "<>:" "_")). reflexivity.
  - apply (proj2 (blacklist_clean "abc" "<>:" "_")). reflexivity.
Defined.

(** *** Grids *)

Lemma range_len_spec (start stop step i : Z) :
  (0 < step)%Z -> (0 <= i)%Z ->
  (i < range_len start stop step)%Z <-> (start + i * step < stop)%Z.
Proof.
  intros Hs Hi. unfold range_len.
  destruct (Z.ltb_spec 0 step); [|lia].
  destruct (Z.ltb_spec start stop).
  - pose proof (Z.div_mod (stop - start - 1) step ltac:(lia)) as Hd.
    pose proof (Z.mod_pos_bound (stop - start - 1) step Hs) as Hm.
    split; intros; nia.
  - split; intros; nia.
Qed.

Lemma range_positive (start stop step : Z) :
  (0 < step)%Z ->
  exists items, range start stop step = Ok items /\ NoDup items /\
    forall v, In v items <->
      (start <= v < stop)%Z /\ ((v - start) mod step = 0)%Z.
Proof.
  intros Hs. unfold range.
  destruct (Z.eqb_spec step 0); [lia|].
  eexists. split; [reflexivity|]. split.
  - assert (Hinj : Inj eq eq (fun i : nat => (start + Z.of_nat i * step)%Z))
      by (intros i j H; nia).
    apply (NoDup_fmap_2 _), NoDup_seq.
  - intros v. rewrite in_map_iff. split.
    + intros (i & <- & Hi). apply in_seq in Hi.
      assert (Hlt : (Z.of_nat i < range_len start stop step)%Z) by lia.
      apply range_len_spec in Hlt; [|lia|lia].
      split; [nia|].
      replace (start + Z.of_nat i * step - start)%Z with (Z.of_nat i * step)%Z by lia.
      apply Z.mod_mul. lia.
    + intros [Hv Hm].
      apply Z.mod_divide in Hm; [|lia]. destruct Hm as [k Hk].
      assert (0 <= k)%Z by nia.
      exists (Z.to_nat k). split; [lia|].
      apply in_seq. split; [lia|]. simpl.
      assert (Hlt : (k < range_len start stop step)%Z).
      { apply range_len_spec; lia. }
      lia.
Qed.

Lemma iter_grid_rows_spec (xs ys : list Z) (max_y min_y stride : Z) :
  range min_y max_y stride = Ok ys ->
  iter_grid_rows xs max_y min_y stride =
  Ok (flat_map (fun x => map (fun y => (x, y)) ys) xs).
Proof.
  intros Hys. induction xs as [|x xs IH]; [reflexivity|].
  simpl. rewrite Hys. simpl. rewrite IH. reflexivity.
Qed.

(** X4. With a positive stride [iter_grid] yields, once each, exactly the
    points of the half-open rectangle that lie a whole number of strides
    from the minimum corner; with stride 0 it raises [ValueError]. *)
Theorem iter_grid_cells (max_x max_y min_x min_y stride : Z) :
  ((0 < stride)%Z ->
   exists cells, iter_grid max_x max_y min_x min_y stride = Ok cells /\
     NoDup cells /\
     forall x y, In (x, y) cells <->
       (min_x <= x < max_x)%Z /\ ((x - min_x) mod stride = 0)%Z /\
       (min_y <= y < max_y)%Z /\ ((y - min_y) mod stride = 0)%Z) /\
  iter_grid max_x max_y min_x min_y 0 = Raise ValueError.
Proof.
  split; [|reflexivity].
  intros Hs.
  destruct (range_positive min_x max_x stride Hs) as (xs & Hxs & Hdx & Hinx).
  destruct (range_positive min_y max_y stride Hs) as (ys & Hys & Hdy & Hiny).
  unfold iter_grid. rewrite Hxs. simpl.
  rewrite (iter_grid_rows_spec xs ys _ _ _ Hys).
  eexists. split; [reflexivity|]. split.
  - clear Hinx Hxs. induction Hdx as [|x xs Hx Hdx IH]; [constructor|].
    simpl. apply NoDup_app. split; [|split; [|exact IH]].
    + assert (Hinj : Inj eq eq (fun y : Z => (x, y))) by (intros a b; congruence).
      apply (NoDup_fmap_2 _), Hdy.
    + intros [a b] Ha Hb.
      apply list_elem_of_In, in_map_iff in Ha as (y & Hy & _).
      apply list_elem_of_In, in_flat_map in Hb as (x' & Hx' & Hb).
      apply in_map_iff in Hb as (y' & Hy' & _).
      inversion Hy; inversion Hy'; subst. apply Hx.
      apply list_elem_of_In. congruence.
  - intros x y. rewrite in_flat_map. split.
    + intros (x' & Hx' & Hin). apply in_map_iff in Hin as (y' & Heq & Hy').
      inversion Heq; subst. apply Hinx in Hx'. apply Hiny in Hy'. tauto.
    + intros (H1 & H2 & H3 & H4). exists x. split; [apply Hinx; tauto|].
      apply in_map_iff. exists y. split; [reflexivity|apply Hiny; tauto].
Qed.

Lemma iter_grid_cells_witness :
  exists cells, iter_grid 4 3 0 1 2 = Ok cells /\ In (2, 1)%Z cells.
Proof.
  destruct (proj1 (iter_grid_cells 4 3 0 1 2) ltac:(lia)) as (cells & H & _ & Hin).
  exists cells. split; [exact H|]. apply Hin. vm_compute. intuition congruence.
Defined.

(** *** Window placement *)

(** X5. When the window and both margins fit on the screen,
    [adjust_inside_screen] returns a position inside the margins, leaves a
    position that is already inside them alone, and adjusting its result
    again changes nothing. *)
Theorem adjust_inside_screen_fits (x y : Z) (win : Window) (horiz_bound vert_bound : Z) :
  let max_x := (winfo_screenwidth win - winfo_width win - horiz_bound)%Z in
  let max_y := (winfo_screenheight win - winfo_height win - vert_bound)%Z in
  (horiz_bound <= max_x)%Z -> (vert_bound <= max_y)%Z ->
  let '(x', y') := adjust_inside_screen false x y win horiz_bound vert_bound in
  (horiz_bound <= x' <= max_x)%Z /\ (vert_bound <= y' <= max_y)%Z /\
  ((horiz_bound <= x <= max_x)%Z -> x' = x) /\
  ((vert_bound <= y <= max_y)%Z -> y' = y) /\
  adjust_inside_screen false x' y' win horiz_bound vert_bound = (x', y').
Proof.
  intros max_x max_y Hx Hy. unfold adjust_inside_screen.
  fold max_x max_y.
  destruct (Z.ltb_spec x horiz_bound), (Z.gtb_spec x max_x),
           (Z.ltb_spec y vert_bound), (Z.gtb_spec y max_y);
    repeat split; try lia;
    repeat match goal with
           | |- context [Z.ltb ?a ?b] => destruct (Z.ltb_spec a b); try lia
           | |- context [Z.gtb ?a ?b] => destruct (Z.gtb_spec a b); try lia
           end; reflexivity.
Qed.

Lemma adjust_inside_screen_fits_witness :
  let '(x', y') :=
    adjust_inside_screen false (-30) 5000 (mkWindow 1920 1080 400 300 0 0) 14 45 in
  (14 <= x' <= 1506)%Z /\ (45 <= y' <= 735)%Z.
Proof.
  pose proof (adjust_inside_screen_fits (-30) 5000 (mkWindow 1920 1080 400 300 0 0) 14 45
                ltac:(simpl; lia) ltac:(simpl; lia)) as H.
  simpl in *. tauto.
Defined.

(** X6. [center_win] asks for the position [+x+y]; unless that position
    had to be moved to stay on the screen, the middle of the window is the
    middle of the parent, up to the half pixel lost by the floor division. *)
Theorem center_win_centred (DISABLE_ADJUST : bool) (window : Window)
    (parent : option Window) (tk_parent : Window) :
  let p := match parent with Some p => p | None => tk_parent end in
  let cx := (winfo_rootx p + (winfo_width p - winfo_width window) / 2)%Z in
  let cy := (winfo_rooty p + (winfo_height p - winfo_height window) / 2)%Z in
  DISABLE_ADJUST = true \/
  ((14 <= cx <= winfo_screenwidth window - winfo_width window - 14)%Z /\
   (45 <= cy <= winfo_screenheight window - winfo_height window - 45)%Z) ->
  exists x y,
    center_win DISABLE_ADJUST window parent tk_parent
    = "+" +:+ pretty x +:+ "+" +:+ pretty y /\
    (0 <= (2 * winfo_rootx p + winfo_width p) - (2 * x + winfo_width window) <= 1)%Z /\
    (0 <= (2 * winfo_rooty p + winfo_height p) - (2 * y + winfo_height window) <= 1)%Z.
Proof.
  intros p cx cy H.
  assert (Hpos : center_pos DISABLE_ADJUST window parent tk_parent = (cx, cy)).
  { unfold center_pos. fold p. fold cx cy. unfold adjust_inside_screen.
    destruct H as [->|[Hx Hy]]; [reflexivity|].
    destruct DISABLE_ADJUST; [reflexivity|].
    destruct (Z.ltb_spec cx 14); [lia|].
    destruct (Z.gtb_spec cx (winfo_screenwidth window - winfo_width window - 14)); [lia|].
    destruct (Z.ltb_spec cy 45); [lia|].
    destruct (Z.gtb_spec cy (winfo_screenheight window - winfo_height window - 45)); [lia|].
    reflexivity. }
  exists cx, cy. unfold center_win. rewrite Hpos. split; [reflexivity|].
  unfold cx, cy.
  pose proof (Z.div_mod (winfo_width p - winfo_width window) 2 ltac:(lia)).
  pose proof (Z.mod_pos_bound (winfo_width p - winfo_width window) 2 ltac:(lia)).
  pose proof (Z.div_mod (winfo_height p - winfo_height window) 2 ltac:(lia)).
  pose proof (Z.mod_pos_bound (winfo_height p - winfo_height window) 2 ltac:(lia)).
  lia.
Qed.

Lemma center_win_centred_witness :
  center_win false (mkWindow 1920 1080 401 300 0 0)
             (Some (mkWindow 1920 1080 800 600 100 100)) (mkWindow 0 0 0 0 0 0)
  = "+299+250".
Proof.
  destruct (center_win_centred false (mkWindow 1920 1080 401 300 0 0)
              (Some (mkWindow 1920 1080 800 600 100 100)) (mkWindow 0 0 0 0 0 0)
              ltac:(right; vm_compute; intuition congruence)) as (x & y & H & _).
  reflexivity.
Defined.

(** *** Fitting parts *)

Lemma send_perm (a : adder) (item : Z) : Permutation (deq (send a item)) (item :: deq a).
Proof.
  unfold send. destruct (at_back a); simpl; [|reflexivity].
  symmetry. apply Permutation_cons_append.
Qed.

Lemma first_fitting_in (obj : list Z) (dist item : Z) :
  first_fitting obj dist = Some item -> In item obj.
Proof.
  induction obj as [|o obj IH]; [discriminate|].
  simpl. destruct (o <=? dist)%Z; [intros [= ->]; auto | auto].
Qed.

Lemma fit_while_parts (fuel : nat) (obj : list Z) (smallest dist dist' : Z) (a a' : adder) :
  fit_while fuel obj smallest dist a = Some (dist', a') ->
  Forall (fun p => In p obj) (deq a) ->
  Forall (fun p => In p obj) (deq a') /\ (dist' < smallest)%Z.
Proof.
  revert dist a. induction fuel as [|fuel IH]; intros dist a H Ha;
    cbn [fit_while] in H; destruct (Z.leb_spec smallest dist);
    try discriminate; try (inversion H; subst; auto; fail).
  destruct (first_fitting obj dist) as [item|] eqn:Hf; [|eauto].
  apply IH in H; [exact H|].
  rewrite (send_perm a item). constructor; [|exact Ha].
  eapply first_fitting_in, Hf.
Qed.

(** X7. The pieces [fit] returns are parts taken from the list, plus at
    most one remainder, which is positive and smaller than the last part of
    the list. *)
Theorem fit_pieces (fuel : nat) (dist : Q) (obj : list Z) (smallest : Z) (parts : list Z) :
  last obj = Some smallest ->
  fit fuel dist obj = Some (Ok parts) ->
  exists chosen remainder,
    Permutation parts (remainder ++ chosen) /\
    Forall (fun p => In p obj) chosen /\
    (remainder = [] \/ exists r, remainder = [r] /\ (0 < r < smallest)%Z).
Proof.
  intros Hlast H. unfold fit in H.
  destruct (py_int dist <=? 0)%Z.
  { inversion H; subst. exists [], []. split; [reflexivity|]. split; [constructor|auto]. }
  rewrite Hlast in H.
  destruct (fit_while fuel obj smallest (py_int dist) (append_bothsides []))
    as [[dist' a]|] eqn:Hw; [|discriminate].
  apply fit_while_parts in Hw as [Ha Hd]; [|constructor].
  destruct (Z.ltb_spec 0 dist').
  - destruct (_ =? _)%Z; inversion H; subst.
    exists (deq a), [dist']. split; [apply send_perm|]. split; [exact Ha|].
    right. exists dist'. split; [reflexivity|lia].
  - destruct (_ =? _)%Z; inversion H; subst.
    exists (deq a), []. split; [reflexivity|]. split; [exact Ha|auto].
Qed.

Lemma fit_pieces_witness :
  exists chosen remainder,
    Permutation [5; 128; 128; 32]%Z (remainder ++ chosen) /\
    Forall (fun p => In p [128; 64; 32]%Z) chosen /\
    (remainder = [] \/ exists r, remainder = [r] /\ (0 < r < 32)%Z).
Proof.
  apply (fit_pieces 10 (293 # 1) [128; 64; 32]%Z 32 [5; 128; 128; 32]%Z);
    vm_compute; reflexivity.
Defined.

(** *** Conversions *)

Lemma BOOL_LOOKUP_casefold (s : string) (b : bool) :
  dict_lookup BOOL_LOOKUP (VStr s) = Some b ->
  dict_lookup BOOL_LOOKUP (VStr (casefold s)) = Some b.
Proof.
  intros H.
  assert (Hk : In s ["0"; "no"; "false"; "FALSE"; "n"; "f";
                     "1"; "yes"; "true"; "TRUE"; "y"; "t"]).
  { revert H. simpl.
    repeat match goal with
           | |- context [py_eq (VStr ?k) (VStr s)] =>
               change (py_eq (VStr k) (VStr s)) with (String.eqb k s);
               destruct (String.eqb_spec k s); [subst s; intros _; simpl; tauto|]
           end.
    discriminate. }
  simpl in Hk.
  repeat (destruct Hk as [<-|Hk]; [exact H|]). destruct Hk.
Qed.

Lemma conv_bool_str_value (s : string) (d : value) :
  conv_bool (VStr s) d =
  Ok (match dict_lookup BOOL_LOOKUP (VStr (casefold s)) with
      | Some b => VBool b
      | None => d
      end).
Proof.
  unfold conv_bool, dict_getitem.
  destruct (dict_lookup BOOL_LOOKUP (VStr s)) as [b|] eqn:Hs.
  - rewrite (BOOL_LOOKUP_casefold _ _ Hs). reflexivity.
  - reflexivity.
Qed.

(** X8. On text [conv_bool] never raises and looks at the text only up to
    case: two strings with the same case-folded form convert alike. *)
Theorem conv_bool_ignores_case (s t : string) (default : value) :
  casefold s = casefold t ->
  conv_bool (VStr s) default = conv_bool (VStr t) default /\
  exists v, conv_bool (VStr s) default = Ok v.
Proof.
  intros H. rewrite !conv_bool_str_value, H. eauto.
Qed.

Lemma conv_bool_ignores_case_witness :
  conv_bool (VStr "Yes") (VBool false) = conv_bool (VStr "YES") (VBool false) /\
  exists v, conv_bool (VStr "Yes") (VBool false) = Ok v.
Proof.
  apply (conv_bool_ignores_case "Yes" "YES" (VBool false)). reflexivity.
Defined.

(** *** Vectors from text *)

(** An opening bracket in front of the text is dropped: the text
    parses as it does without it, whatever bracket closes it, if any. *)
Theorem parse_str_opening_bracket (b c : ascii) (text : string) (x y z : R) :
  char_in b "({[<" = true ->
  char_in c "({[< " = false ->
  parse_str (inl (String b (String c text))) x y z
  = parse_str (inl (String c text)) x y z.
Proof.
  intros Hb Hc.
  assert (Hbs : Ascii.eqb b space = false).
  { destruct (Ascii.eqb_spec b space) as [->|]; [discriminate Hb|reflexivity]. }
  assert (Hcs : Ascii.eqb c space = false).
  { destruct (Ascii.eqb_spec c space) as [->|]; [discriminate Hc|reflexivity]. }
  assert (Hcb : char_in c "({[<" = false).
  { simpl in Hc |- *. repeat (destruct (Ascii.eqb c _); [discriminate Hc|]). reflexivity. }
  unfold parse_str.
  change (split space (String b (String c text))) with
    (if Ascii.eqb b space then EmptyString :: split space (String c text)
     else match split space (String c text) with
          | field :: fields => String b field :: fields
          | [] => [String b EmptyString]
          end).
  rewrite Hbs.
  change (split space (String c text)) with
    (if Ascii.eqb c space then EmptyString :: split space text
     else match split space text with
          | field :: fields => String c field :: fields
          | [] => [String c EmptyString]
          end).
  rewrite Hcs.
  destruct (split space text) as [|f0 [|f1 [|f2 [|f3 rest]]]]; try reflexivity.
  cbn [first_char mbind result_bind]. rewrite Hb, Hcb. reflexivity.
Qed.

Lemma parse_str_opening_bracket_witness :
  parse_str (inl "<1 2 3)") 0 0 0 = parse_str (inl "1 2 3)") 0 0 0.
Proof.
  apply (parse_str_opening_bracket "<" "1" " 2 3)" 0 0 0); reflexivity.
Defined.

(** *** Joining shapes *)

(** X10. [CONN_LOOKUP] has an entry for every pattern of connections, and
    turning the base shape of the entry by the entry's rotation gives the
    pattern. *)
Theorem CONN_LOOKUP_complete (n s e w : bool) :
  exists shape angle turns,
    CONN_LOOKUP_getitem (Z.b2z n, Z.b2z s, Z.b2z e, Z.b2z w) = Ok (shape, angle) /\
    quarter_turns angle = Some turns /\
    Nat.iter turns quarter_turn (base_points shape)
    = (Z.b2z n, Z.b2z s, Z.b2z e, Z.b2z w).
Proof.
  destruct n, s, e, w; vm_compute; do 3 eexists; repeat split; reflexivity.
Qed.

(** *** File permissions *)

Lemma testbit_write_bits (i : Z) :
  (0 <= i)%Z ->
  Z.testbit S_IWUSR i = (i =? 7)%Z /\ Z.testbit S_IWGRP i = (i =? 4)%Z /\
  Z.testbit S_IWOTH i = (i =? 1)%Z /\ Z.testbit 4095 i = (i <? 12)%Z.
Proof.
  intros Hi. repeat split.
  - change S_IWUSR with (2 ^ 7)%Z. rewrite Z.pow2_bits_eqb by lia. apply Z.eqb_sym.
  - change S_IWGRP with (2 ^ 4)%Z. rewrite Z.pow2_bits_eqb by lia. apply Z.eqb_sym.
  - change S_IWOTH with (2 ^ 1)%Z. rewrite Z.pow2_bits_eqb by lia. apply Z.eqb_sym.
  - change 4095%Z with (Z.ones 12). rewrite Z.testbit_ones_nonneg by lia.
    destruct (Z.ltb_spec i 12); reflexivity.
Qed.

(** X11. On an existing path [set_readonly] clears the three write bits of
    the mode and [unset_readonly] sets them; every other bit of the mode is
    kept.  On a missing path both raise [FileNotFoundError] and change
    nothing. *)
Theorem readonly_bits (file : string) (fs : modes) :
  match fs !! file with
  | Some flags =>
      exists off on,
        set_readonly file fs = (Ok tt, <[file := off]> fs) /\
        unset_readonly file fs = (Ok tt, <[file := on]> fs) /\
        forall i, (0 <= i)%Z ->
          Z.testbit off i = Z.testbit flags i && negb (bool_decide (i ∈ [1; 4; 7]%Z)) /\
          Z.testbit on i = Z.testbit flags i || bool_decide (i ∈ [1; 4; 7]%Z)
  | None =>
      set_readonly file fs = (Raise FileNotFoundError, fs) /\
      unset_readonly file fs = (Raise FileNotFoundError, fs)
  end.
Proof.
  unfold set_readonly, unset_readonly, cbind, os_stat_st_mode, os_chmod.
  destruct (fs !! file) as [flags|] eqn:Hf; [|split; reflexivity].
  rewrite Hf. do 2 eexists. split; [reflexivity|]. split; [reflexivity|].
  intros i Hi.
  destruct (testbit_write_bits i Hi) as (Hu & Hg & Ho & Hp).
  repeat first [rewrite Z.lor_spec | rewrite Z.land_spec | rewrite Z.lnot_spec by lia].
  rewrite Hu, Hg, Ho, Hp.
  assert (Hin : bool_decide (i ∈ [1; 4; 7]%Z) = (i =? 1)%Z || (i =? 4)%Z || (i =? 7)%Z).
  { destruct (Z.eqb_spec i 1), (Z.eqb_spec i 4), (Z.eqb_spec i 7); subst;
      first [apply bool_decide_eq_true; set_unfold; lia
            | apply bool_decide_eq_false; set_unfold; lia]. }
  rewrite Hin.
  destruct (Z.testbit flags i), (Z.eqb_spec i 1), (Z.eqb_spec i 4), (Z.eqb_spec i 7),
    (Z.ltb_spec i 12); try lia; reflexivity.
Qed.

(** *** Log messages *)

Lemma split_two (sep : ascii) (s : string) :
  char_in sep s = true -> exists a b rest, split sep s = a :: b :: rest.
Proof.
  induction s as [|c s IH]; [discriminate|].
  simpl. rewrite Ascii.eqb_sym. destruct (Ascii.eqb c sep).
  - intros _. destruct s as [|d s]; simpl; [eauto|].
    destruct (Ascii.eqb d sep); [eauto|]. destruct (split sep s); eauto.
  - intros H. destruct (IH H) as (a & b & rest & ->). eauto.
Qed.

Lemma item_last_snoc {A} (items : list A) (final : A) :
  item_last (items ++ [final]) = Ok final.
Proof. unfold item_last. rewrite rev_app_distr. reflexivity. Qed.

Lemma snoc_cases {A} (a : A) (items : list A) :
  exists front final, a :: items = front ++ [final].
Proof.
  destruct (exists_last (l := a :: items) ltac:(discriminate)) as (front & final & H).
  eauto.
Qed.

Lemma last_char_app (s : string) (c : ascii) :
  last_char (s +:+ String c EmptyString) = Ok c.
Proof.
  induction s as [|d s IH]; [reflexivity|].
  rewrite app_cons. simpl. rewrite IH.
  destruct (s +:+ String c EmptyString) eqn:E; [|reflexivity].
  destruct s; discriminate.
Qed.

(** The text [__str__] makes of a formatted message. *)
Lemma layout_ok (msg : string) :
  exists out,
    (forall A (self : LogMessage A),
       (if negb (char_in line_feed msg) then cret msg
        else
          let lines := split line_feed msg in
          do final <- clift (item_last lines);
          let lines := if isspace final then removelast lines else lines in
          do final <- clift (item_last lines);
          cret (str_join (String line_feed " | ") (removelast lines)
                +:+ String line_feed " |_" +:+ final +:+ String line_feed EmptyString))
       self = (Ok out, self)) /\
    (char_in line_feed msg = false -> out = msg) /\
    (char_in line_feed msg = true -> last_char out = Ok line_feed).
Proof.
  destruct (char_in line_feed msg) eqn:Hnl; simpl.
  - destruct (split_two _ _ Hnl) as (a & b & rest & ->).
    destruct (snoc_cases b rest) as (front & final & Hf).
    rewrite Hf.
    change (a :: front ++ [final]) with ((a :: front) ++ [final]).
    destruct (isspace final) eqn:Hsp.
    + destruct (snoc_cases a front) as (front' & final' & Hf').
      eexists. split; [|split; [discriminate|intros _]].
      * intros A self. unfold cbind, clift, cret.
        rewrite item_last_snoc. cbn beta iota. rewrite Hsp.
        rewrite removelast_last, Hf', item_last_snoc.
        reflexivity.
      * rewrite <- !string_app_assoc. apply last_char_app.
    + eexists. split; [|split; [discriminate|intros _]].
      * intros A self. unfold cbind, clift, cret.
        rewrite item_last_snoc. cbn beta iota. rewrite Hsp.
        rewrite item_last_snoc. reflexivity.
      * rewrite <- !string_app_assoc. apply last_char_app.
  - exists msg. split; [reflexivity|]. split; [reflexivity|discriminate].
Qed.

(** X12. [str()] of a [LogMessage] formats at most once: after a first
    [str()] a second one returns the same text without formatting again.
    A message of one line is the formatted text as it is; a message of
    several lines ends with a line feed.  Nothing but the formatting can
    raise. *)
Theorem LogMessage_str_once {A}
    (format format' : string -> list A -> list (string * A) -> result string)
    (fmt : string) (args : list A) (kwargs : list (string * A)) :
  let self := LogMessage_methods.__init__ fmt args kwargs in
  let msg := if has_args self then format fmt args kwargs else Ok fmt in
  match msg with
  | Ok msg =>
      exists out self',
        LogMessage_methods.__str__ format self = (Ok out, self') /\
        LogMessage_methods.__str__ format' self' = (Ok out, self') /\
        (char_in line_feed msg = false -> out = msg) /\
        (char_in line_feed msg = true -> last_char out = Ok line_feed)
  | Raise e => LogMessage_methods.__str__ format self = (Raise e, self)
  end.
Proof.
  intros self msg. subst msg self.
  unfold LogMessage_methods.__str__.
  assert (Hfirst : forall has,
    has = has_args (LogMessage_methods.__init__ fmt args kwargs) ->
    match (if has then format fmt args kwargs else Ok fmt) with
    | Ok msg =>
        exists self',
          LogMessage_methods.format_msg format
            (LogMessage_methods.__init__ fmt args kwargs) = (Ok msg, self') /\
          LogMessage_methods.format_msg format' self' = (Ok msg, self')
    | Raise e =>
        LogMessage_methods.format_msg format
          (LogMessage_methods.__init__ fmt args kwargs)
        = (Raise e, LogMessage_methods.__init__ fmt args kwargs)
    end).
  { intros has ->. unfold LogMessage_methods.format_msg.
    destruct (has_args (LogMessage_methods.__init__ fmt args kwargs)) eqn:Hargs.
    - cbn [utils.args utils.kwargs utils.fmt LogMessage_methods.__init__].
      destruct (format fmt args kwargs) as [msg|e]; [|reflexivity].
      eexists. split; reflexivity.
    - eexists. split; [reflexivity|]. rewrite Hargs. reflexivity. }
  specialize (Hfirst _ eq_refl).
  destruct (if has_args (LogMessage_methods.__init__ fmt args kwargs)
            then format fmt args kwargs else Ok fmt) as [msg|e].
  - destruct Hfirst as (self' & Hf1 & Hf2).
    destruct (layout_ok msg) as (out & Hout & H1 & H2).
    exists out, self'. unfold cbind at 1. rewrite Hf1.
    split; [apply Hout|]. split; [|auto].
    unfold cbind at 1. rewrite Hf2. apply Hout.
  - unfold cbind at 1. rewrite Hfirst. reflexivity.
Qed.

(** *** AtomicWriter *)

Lemma upto_last_slash_none (p : string) : has_slash p = false -> upto_last_slash p = EmptyString.
Proof.
  induction p as [|c p IH]; [reflexivity|].
  simpl. intros H. apply orb_false_iff in H as [Hc Hp]. rewrite Hp, Hc. reflexivity.
Qed.

(** X13. A writer for a file name without a directory part cannot be
    entered: [os.makedirs] is handed the empty path, the [with] statement
    ends with [FileNotFoundError], the body does not run and nothing is
    created or changed. *)
Theorem bare_filename_raises (filename : string) (is_bytes : bool) (body : list action)
    (os : OS) :
  has_slash filename = false ->
  write_atomically filename is_bytes body os = (Raise FileNotFoundError, os).
Proof.
  intros H. unfold write_atomically, with_statement.
  unfold_cmd. unfold __init__, dirname. simpl.
  rewrite (upto_last_slash_none _ H). reflexivity.
Qed.

Lemma bare_filename_raises_witness :
  write_atomically "config.cfg" false [DoWrite "text"] samples.os0
  = (Raise FileNotFoundError, samples.os0).
Proof. apply bare_filename_raises. reflexivity. Defined.

(** X14. Entering a writer that still holds a temporary file discards that
    file: if it is still on disk it is removed and a new, empty temporary
    file takes its place; if it is no longer there, [__enter__] raises and
    changes nothing. *)
Theorem reenter_discards_temp (w : AtomicWriter) (os : OS) (t : TempFile) :
  temp w = Some t ->
  match read_file os (name t) with
  | Some _ =>
      forall f w' os',
        __enter__ (w, os) = (Ok f, (w', os')) ->
        written f = EmptyString /\ temp w' = Some f /\
        read_file os' (name f) = Some EmptyString /\
        (name f <> name t -> read_file os' (name t) = None)
  | None =>
      exists e, __enter__ (w, os) = (Raise e, (w, os)) /\
                (e = FileNotFoundError \/ e = IsADirectoryError)
  end.
Proof.
  intros Ht. unfold read_file.
  destruct (nodes os !! name t) as [[content|]|] eqn:Hn.
  - intros f w' os'. unfold_cmd. rewrite Ht. unfold tf_close, os_remove. rewrite Hn.
    cbn [nodes]. rewrite lookup_insert_eq. cbn [nodes tmp_names].
    set (os1 := mkOS _ _).
    destruct (makedirs (dir w) os1) as [[[]|e] md] eqn:Hmd; [|discriminate].
    destruct (mkstemp (dir w) (tmp_names md) md) as [[f1|e] os2] eqn:Hmk; [|discriminate].
    cbn. intros [= <- <- <-].
    apply mkstemp_ok in Hmk as (Hw & Hnone & Hnodes).
    split; [exact Hw|]. split; [reflexivity|].
    unfold read_file. rewrite Hnodes. split; [rewrite lookup_insert_eq; reflexivity|].
    intros Hne. rewrite lookup_insert_ne by exact Hne.
    pose proof (makedirs_read_file _ _ _ Hmd (name t)) as Hr.
    unfold read_file in Hr. rewrite Hr. unfold os1. cbn [nodes].
    rewrite delete_insert_eq, lookup_delete_eq. reflexivity.
  - exists IsADirectoryError. split; [|auto].
    unfold_cmd. rewrite Ht. unfold tf_close, os_remove. rewrite Hn. rewrite Hn. reflexivity.
  - exists FileNotFoundError. split; [|auto].
    unfold_cmd. rewrite Ht. unfold tf_close, os_remove. rewrite Hn. rewrite Hn. reflexivity.
Qed.

Lemma reenter_discards_temp_witness :
  let t := mkTemp "out/tmp1" "half" in
  let w := mkWriter "out/a.txt" "out" false (Some t) in
  let os := mkOS (<["out/tmp1" := File EmptyString]> {[ "out" := Dir ]}) ["tmp2"; "tmp3"] in
  read_file (__enter__ (w, os)).2.2 "out/tmp2" = Some EmptyString /\
  read_file (__enter__ (w, os)).2.2 "out/tmp1" = None.
Proof.
  intros t w os.
  pose proof (reenter_discards_temp w os t eq_refl) as H.
  change (read_file os (name t)) with (Some EmptyString) in H.
  destruct (__enter__ (w, os)) as [[f|e] [w' os']] eqn:E.
  - assert (Hf : name f = "out/tmp2").
    { apply (f_equal fst) in E. vm_compute in E. injection E as <-. reflexivity. }
    destruct (H f w' os' eq_refl) as (_ & _ & Hnew & Hold).
    rewrite Hf in Hnew, Hold. split; [exact Hnew|].
    apply Hold. discriminate.
  - apply (f_equal fst) in E. vm_compute in E. discriminate E.
Defined.

End utils_extra.

Module Vec_extra.
Import Py utils utils_props.
Import Vec_methods.
Local Open Scope R_scope.

(** *** Item access *)

(** Equality of an index with an integer, as [==] decides it. *)
Lemma py_eq_int (n k : Z) : py_eq (VInt n) (VInt k) = bool_decide (n = k).
Proof.
  unfold py_eq. simpl. unfold Qeq_bool. simpl. rewrite !Z.mul_1_r.
  destruct (Z.eqb_spec n k) as [->|Hne].
  - now rewrite bool_decide_eq_true_2.
  - now rewrite bool_decide_eq_false_2.
Qed.

Lemma py_eq_float (q : Q) (k : Z) :
  py_eq (VFloat q) (VInt k) = true <-> (q == inject_Z k)%Q.
Proof. unfold py_eq. simpl. apply Qeq_bool_iff. Qed.

Lemma item_raises (self : Vec) (ind : value) (val : R) :
  py_eq ind (VInt 0) || py_eq ind (VStr "x") = false ->
  py_eq ind (VInt 1) || py_eq ind (VStr "y") = false ->
  py_eq ind (VInt 2) || py_eq ind (VStr "z") = false ->
  __getitem__ self ind = Raise KeyError /\ __setitem__ self ind val = Raise KeyError.
Proof. unfold __getitem__, __setitem__. intros -> -> ->. auto. Qed.

(** X15. Item access accepts exactly the indices that compare equal to 0,
    1, 2 or to an axis name.  Reading under 0 or ["x"], 1 or ["y"], 2 or
    ["z"] returns that axis, and storing under it returns the vector with
    that axis replaced and the other two as they were; [False] and [True]
    and the floats equal to 0, 1, 2 name the same axes, since the code
    tests with [==].  Every other integer, every other string, every other
    float, every [bytes] object and [None] raise [KeyError] on reading and
    on storing.  Whatever the index: when the store succeeds, reading the
    same index gives the number back, the index could be read before, and
    at most that axis has changed; when it fails, it fails with [KeyError]
    and so does reading. *)
Theorem Vec_item_round_trip (self : Vec) (val : R) :
  (__getitem__ self (VInt 0) = Ok (x self) /\ __getitem__ self (VStr "x") = Ok (x self) /\
   __getitem__ self (VInt 1) = Ok (y self) /\ __getitem__ self (VStr "y") = Ok (y self) /\
   __getitem__ self (VInt 2) = Ok (z self) /\ __getitem__ self (VStr "z") = Ok (z self)) /\
  (__setitem__ self (VInt 0) val = Ok (mkVec val (y self) (z self)) /\
   __setitem__ self (VStr "x") val = Ok (mkVec val (y self) (z self)) /\
   __setitem__ self (VInt 1) val = Ok (mkVec (x self) val (z self)) /\
   __setitem__ self (VStr "y") val = Ok (mkVec (x self) val (z self)) /\
   __setitem__ self (VInt 2) val = Ok (mkVec (x self) (y self) val) /\
   __setitem__ self (VStr "z") val = Ok (mkVec (x self) (y self) val)) /\
  (forall n : Z, n <> 0%Z -> n <> 1%Z -> n <> 2%Z ->
     __getitem__ self (VInt n) = Raise KeyError /\
     __setitem__ self (VInt n) val = Raise KeyError) /\
  (forall s : string, s <> "x"%string -> s <> "y"%string -> s <> "z"%string ->
     __getitem__ self (VStr s) = Raise KeyError /\
     __setitem__ self (VStr s) val = Raise KeyError) /\
  (forall q : Q, ~ (q == 0)%Q -> ~ (q == 1)%Q -> ~ (q == 2)%Q ->
     __getitem__ self (VFloat q) = Raise KeyError /\
     __setitem__ self (VFloat q) val = Raise KeyError) /\
  (forall b : bool,
     __getitem__ self (VBool b) = Ok (if b then y self else x self) /\
     __setitem__ self (VBool b) val =
       Ok (if b then mkVec (x self) val (z self) else mkVec val (y self) (z self))) /\
  (forall q : Q,
     ((q == 0)%Q -> __getitem__ self (VFloat q) = Ok (x self)) /\
     ((q == 1)%Q -> __getitem__ self (VFloat q) = Ok (y self)) /\
     ((q == 2)%Q -> __getitem__ self (VFloat q) = Ok (z self))) /\
  (forall s : string,
     __getitem__ self (VBytes s) = Raise KeyError /\
     __setitem__ self (VBytes s) val = Raise KeyError) /\
  (__getitem__ self VNone = Raise KeyError /\ __setitem__ self VNone val = Raise KeyError) /\
  (forall ind : value,
     match __setitem__ self ind val with
     | Ok self' =>
         __getitem__ self' ind = Ok val /\
         (exists old, __getitem__ self ind = Ok old) /\
         ((y self' = y self /\ z self' = z self) \/
          (x self' = x self /\ z self' = z self) \/
          (x self' = x self /\ y self' = y self))
     | Raise e => e = KeyError /\ __getitem__ self ind = Raise KeyError
     end).
Proof.
  split; [repeat split; reflexivity|].
  split; [repeat split; reflexivity|].
  split.
  { intros n H0 H1 H2. apply item_raises; rewrite py_eq_int, bool_decide_eq_false_2 by exact H0 || exact H1 || exact H2; reflexivity. }
  split.
  { intros s Hx Hy Hz. apply item_raises; unfold py_eq; simpl; rewrite String.eqb_neq; assumption. }
  split.
  { intros q H0 H1 H2.
    apply item_raises; apply orb_false_intro; try reflexivity;
      apply Bool.not_true_iff_false; rewrite py_eq_float; assumption. }
  split; [intros []; split; reflexivity|].
  split.
  { intros q. unfold __getitem__.
    split; [|split]; intros Hq.
    - apply (py_eq_float q 0) in Hq. now rewrite Hq.
    - assert (py_eq (VFloat q) (VInt 0) = false) as ->.
      { apply Bool.not_true_iff_false. rewrite py_eq_float. rewrite Hq. discriminate. }
      apply (py_eq_float q 1) in Hq. now rewrite Hq.
    - assert (py_eq (VFloat q) (VInt 0) = false) as ->.
      { apply Bool.not_true_iff_false. rewrite py_eq_float. rewrite Hq. discriminate. }
      assert (py_eq (VFloat q) (VInt 1) = false) as ->.
      { apply Bool.not_true_iff_false. rewrite py_eq_float. rewrite Hq. discriminate. }
      apply (py_eq_float q 2) in Hq. now rewrite Hq. }
  split; [intros s; apply item_raises; reflexivity|].
  split; [apply item_raises; reflexivity|].
  intros ind. unfold __setitem__, __getitem__.
  destruct (py_eq ind (VInt 0) || py_eq ind (VStr "x"));
    [simpl; split; [reflexivity|]; split; [now eexists | auto]|].
  destruct (py_eq ind (VInt 1) || py_eq ind (VStr "y"));
    [simpl; split; [reflexivity|]; split; [now eexists | auto]|].
  destruct (py_eq ind (VInt 2) || py_eq ind (VStr "z"));
    [simpl; split; [reflexivity|]; split; [now eexists | auto 6]|].
  auto.
Qed.

(** *** Bounding boxes *)






(** *** Comparisons *)

Ltac decide_all :=
  repeat match goal with
         | |- context [bool_decide ?P] => destruct (bool_decide_reflect P)
         | |- context [Rlt_dec ?a ?b] => destruct (Rlt_dec a b)
         | |- context [Rle_dec ?a ?b] => destruct (Rle_dec a b)
         | |- context [Rgt_dec ?a ?b] => destruct (Rgt_dec a b)
         | |- context [Rge_dec ?a ?b] => destruct (Rge_dec a b)
         end.






(** The ordering is not total: two vectors may be unordered both ways. *)
Lemma Vec_unordered :
  __lt__ (mkVec 0 1 0) (OVec (mkVec 1 0 0)) = false /\
  __ge__ (mkVec 0 1 0) (OVec (mkVec 1 0 0)) = false.
Proof.
  unfold __lt__, __ge__, ordering; simpl.
  decide_all; simpl; try (split; reflexivity); exfalso; lra.
Qed.

(** *** Truth value, length and axis *)

(** X18. [len(v)] counts the non-zero axes, so it lies between 0 and 3 and
    is 0 exactly for the zero vector, and [bool(v)] says whether it is
    positive.  When exactly one axis is non-zero, [axis()] names it: the
    item under that name is non-zero and [other_axes] gives two zeros. *)
Theorem Vec_len_bool_axis (self : Vec) :
  (0 <= __len__ self <= 3)%Z /\
  __bool__ self = (0 <? __len__ self)%Z /\
  (__len__ self = 0%Z <-> self = mkVec 0 0 0) /\
  (__len__ self = 1%Z ->
   exists val, __getitem__ self (VStr (axis self)) = Ok val /\ val <> 0 /\
               other_axes self (axis self) = Some (0, 0)).
Proof.
  destruct self as [vx vy vz].
  unfold __len__, __bool__, axis, __getitem__, other_axes. cbn [x y z].
  destruct (bool_decide_reflect (vx <> 0)) as [Hx|Hx],
           (bool_decide_reflect (vy <> 0)) as [Hy|Hy],
           (bool_decide_reflect (vz <> 0)) as [Hz|Hz];
    repeat match goal with
           | H : ~ (?a <> 0) |- _ =>
               assert (a = 0) by (destruct (Req_dec a 0); [assumption | contradiction]);
               clear H; subst a
           end;
    cbn; (split; [lia|]); (split; [reflexivity|]); split.
  all: try (split; [intros H; discriminate H
                   | intros H; injection H; intros; exfalso; auto]).
  all: try (intros H; discriminate H).
  all: try (split; reflexivity).
  all: intros _; eexists; (split; [reflexivity|]); (split; [assumption|reflexivity]).
Qed.

(** *** Products *)

(** The cross product is orthogonal to both of its factors, changes
    sign when they are swapped, and is zero for a vector with itself (the
    float operations taken as exact). *)
Theorem cross_orthogonal (a b : Vec) :
  dot (cross a b) a = 0 /\ dot (cross a b) b = 0 /\
  cross b a = __neg__ (cross a b) /\ cross a a = mkVec 0 0 0.
Proof.
  unfold dot, cross, __neg__; simpl.
  repeat split; try ring; f_equal; ring.
Qed.

(** *** Rotation *)

Lemma planar_turn (c s a b : R) :
  Rsqr s + Rsqr c = 1 ->
  (a * c - b * s) * (a * c - b * s) + (a * s + b * c) * (a * s + b * c) = a * a + b * b.
Proof.
  unfold Rsqr. intros H.
  replace ((a * c - b * s) * (a * c - b * s) + (a * s + b * c) * (a * s + b * c))
    with ((s * s + c * c) * (a * a + b * b)) by ring.
  rewrite H. ring.
Qed.

Lemma mat_mul_roll (v : Vec) (c s : R) :
  Rsqr s + Rsqr c = 1 ->
  len_sq (mat_mul v (1, 0, 0, 0, c, - s, 0, s, c)) = len_sq v.
Proof.
  intros H. unfold len_sq, mat_mul. destruct v as [a b d]; simpl.
  pose proof (planar_turn c s b d H). nra.
Qed.

Lemma mat_mul_pitch (v : Vec) (c s : R) :
  Rsqr s + Rsqr c = 1 ->
  len_sq (mat_mul v (c, 0, s, 0, 1, 0, - s, 0, c)) = len_sq v.
Proof.
  intros H. unfold len_sq, mat_mul. destruct v as [a b d]; simpl.
  pose proof (planar_turn c s d a H). nra.
Qed.

Lemma mat_mul_yaw (v : Vec) (c s : R) :
  Rsqr s + Rsqr c = 1 ->
  len_sq (mat_mul v (c, - s, 0, s, c, 0, 0, 0, 1)) = len_sq v.
Proof.
  intros H. unfold len_sq, mat_mul. destruct v as [a b d]; simpl.
  pose proof (planar_turn c s a b H). nra.
Qed.

(** X19. Without rounding, [rotate] keeps the length of the vector (the
    float operations taken as exact). *)
Theorem rotate_keeps_length (self : Vec) (pitch yaw roll : R) :
  len_sq (rotate self pitch yaw roll false) = len_sq self /\
  mag (rotate self pitch yaw roll false) = mag self.
Proof.
  assert (H : len_sq (rotate self pitch yaw roll false) = len_sq self).
  { unfold rotate. cbv zeta.
    rewrite mat_mul_yaw by apply sin2_cos2.
    rewrite mat_mul_pitch by apply sin2_cos2.
    apply mat_mul_roll, sin2_cos2. }
  split; [exact H|]. unfold mag. unfold len_sq in H. rewrite H. reflexivity.
Qed.

End Vec_extra.

(* ===================================================================== *)
(** * More properties of conditions/positioning.py                     *)
(* ===================================================================== *)

Module positioning_extra.
Import Py utils positioning spec samples.
Module PP := property_parser.
Local Open Scope R_scope.

(** *** Orientation *)

(** A bare flag: the value is the keyword, the instance is taken to point
    up before it is rotated, the opposite direction does not count. *)
Lemma flag_angles_leaf (DIRECTIONS : gmap string conditions.direction)
    (inst : vmfLib.Entity) (name keyword : string) :
  flag_angles DIRECTIONS inst (PP.Leaf name keyword) =
  match DIRECTIONS !! casefold keyword with
  | None => Ok false
  | Some normal =>
      inst_normal ← rotate_by_str (mkVec 0 0 1) (vmfLib.get inst "angles" (inl "0 0 0"))
                      0 0 0 true;
      match normal with
      | conditions.DWall =>
          Ok (negb (Vec_methods.__eq__ inst_normal (OTuple (0, 0, 1))
                    || Vec_methods.__eq__ inst_normal (OTuple (0, 0, -1))))
      | conditions.DVec normal => Ok (Vec_methods.__eq__ inst_normal (OVec normal))
      end
  end.
Proof.
  unfold flag_angles, angles_options. simpl.
  destruct (DIRECTIONS !! casefold keyword) as [[n|]|]; try reflexivity.
  destruct (rotate_by_str _ _ _ _ _ _); simpl; [|reflexivity].
  rewrite orb_false_r. reflexivity.
Qed.

(** X22. With the keywords for up, down and wall in the table, a bare
    orientation flag sorts every instance into exactly one of the three: the
    wall flag holds exactly when neither the up flag nor the down flag
    does.  An instance whose angles make the rotation raise makes all three
    raise alike. *)
Theorem floor_ceiling_wall (DIRECTIONS : gmap string conditions.direction)
    (up down wall : string) (inst : vmfLib.Entity) (name : string) :
  DIRECTIONS !! casefold up = Some (conditions.DVec (mkVec 0 0 1)) ->
  DIRECTIONS !! casefold down = Some (conditions.DVec (mkVec 0 0 (-1))) ->
  DIRECTIONS !! casefold wall = Some conditions.DWall ->
  match flag_angles DIRECTIONS inst (PP.Leaf name wall) with
  | Ok on_wall =>
      exists on_floor on_ceiling,
        flag_angles DIRECTIONS inst (PP.Leaf name up) = Ok on_floor /\
        flag_angles DIRECTIONS inst (PP.Leaf name down) = Ok on_ceiling /\
        on_wall = negb (on_floor || on_ceiling) /\
        on_floor && on_ceiling = false
  | Raise e =>
      flag_angles DIRECTIONS inst (PP.Leaf name up) = Raise e /\
      flag_angles DIRECTIONS inst (PP.Leaf name down) = Raise e
  end.
Proof.
  intros Hup Hdown Hwall. rewrite !flag_angles_leaf, Hup, Hdown, Hwall.
  destruct (rotate_by_str _ _ _ _ _ _) as [[vx vy vz]|e]; simpl; [|auto].
  do 2 eexists. split; [reflexivity|]. split; [reflexivity|].
  repeat match goal with
         | |- context [bool_decide ?P] => destruct (bool_decide_reflect P)
         end; simpl; split; try reflexivity; exfalso; lra.
Qed.

Lemma floor_ceiling_wall_witness :
  match flag_angles DIRECTIONS0 goo_inst (PP.Leaf "angle" "Wall") with
  | Ok on_wall =>
      exists on_floor on_ceiling,
        flag_angles DIRECTIONS0 goo_inst (PP.Leaf "angle" "+Z") = Ok on_floor /\
        flag_angles DIRECTIONS0 goo_inst (PP.Leaf "angle" "-z") = Ok on_ceiling /\
        on_wall = negb (on_floor || on_ceiling) /\
        on_floor && on_ceiling = false
  | Raise e =>
      flag_angles DIRECTIONS0 goo_inst (PP.Leaf "angle" "+Z") = Raise e /\
      flag_angles DIRECTIONS0 goo_inst (PP.Leaf "angle" "-z") = Raise e
  end.
Proof.
  apply (floor_ceiling_wall DIRECTIONS0 "+Z" "-z" "Wall" goo_inst "angle");
    vm_compute; reflexivity.
Defined.

(** A value that is not a key of the direction table makes the flag
    false for every instance, whatever its angles are: the rotation is not
    even attempted. *)
Theorem flag_angles_unknown_keyword (DIRECTIONS : gmap string conditions.direction)
    (inst : vmfLib.Entity) (name keyword : string) :
  DIRECTIONS !! casefold keyword = None ->
  flag_angles DIRECTIONS inst (PP.Leaf name keyword) = Ok false.
Proof. intros H. rewrite flag_angles_leaf, H. reflexivity. Qed.

Lemma flag_angles_unknown_keyword_witness :
  flag_angles DIRECTIONS0
    (vmfLib.mkEntity [("angles", inl " 1 2")] [] [] []) (PP.Leaf "angle" "0 0 1")
  = Ok false.
Proof. apply flag_angles_unknown_keyword. reflexivity. Defined.

(** *** Brushes at a position *)

Lemma find_all_snoc (name : string) (rest : list PP.Property) (c : PP.Property) (key : string) :
  PP.find_all (PP.Block name (rest ++ [c])) key =
  PP.find_all (PP.Block name rest) key ++
  (if String.eqb (casefold (PP.name c)) (casefold key) then [c] else []).
Proof.
  unfold PP.find_all. simpl. rewrite filter_app. f_equal.
  destruct (String.eqb (casefold (PP.name c)) (casefold key)) eqn:E.
  - rewrite filter_cons_True by exact E. reflexivity.
  - rewrite filter_cons_False by (rewrite E; discriminate). reflexivity.
Qed.

Lemma find_key_other (name : string) (rest : list PP.Property) (c : PP.Property) (key : string) :
  String.eqb (casefold (PP.name c)) (casefold key) = false ->
  PP.find_key (PP.Block name (rest ++ [c])) key = PP.find_key (PP.Block name rest) key.
Proof.
  intros H. unfold PP.find_key. rewrite find_all_snoc, H, app_nil_r. reflexivity.
Qed.

Lemma find_key_last (name : string) (rest : list PP.Property) (c : PP.Property) (key : string) :
  String.eqb (casefold (PP.name c)) (casefold key) = true ->
  PP.find_key (PP.Block name (rest ++ [c])) key = Some c.
Proof.
  intros H. unfold PP.find_key. rewrite find_all_snoc, H. apply last_snoc.
Qed.

(** X24. For one instance and one set of options, the brush flag asked
    with the types ["any"], ["white"], ["black"] and ["none"] classifies
    the position once: exactly one of white, black and none holds, any holds
    exactly when none does not, and the instance variable and the document
    are left the same by all four.  If one raises, all do. *)
Theorem brush_types_partition (SOLIDS : list (Vec_tuple * conditions.solidGroup))
    (VMF : vmfLib.VMF) (inst : vmfLib.Entity) (name : string) (rest : list PP.Property) :
  let ask t :=
    flag_brush_at_loc SOLIDS VMF inst (PP.Block name (rest ++ [PP.Leaf "type" t])) in
  match ask "any" with
  | Ok (any, inst', VMF') =>
      exists w b n,
        ask "white" = Ok (w, inst', VMF') /\
        ask "black" = Ok (b, inst', VMF') /\
        ask "none" = Ok (n, inst', VMF') /\
        any = negb n /\ any = w || b /\ w && b = false
  | Raise e => ask "white" = Raise e /\ ask "black" = Raise e /\ ask "none" = Raise e
  end.
Proof.
  intros ask. subst ask. cbv beta.
  unfold flag_brush_at_loc, PP.get, PP.get_opt.
  rewrite !(find_key_other name rest _ "pos"), !(find_key_other name rest _ "dir"),
    !(find_key_other name rest _ "gridpos"), !(find_key_other name rest _ "setVar"),
    !(find_key_other name rest _ "RemoveBrush") by reflexivity.
  rewrite !(find_key_last name rest _ "type") by reflexivity.
  cbn [PP.value].
  repeat match goal with
         | |- context [mbind _ ?m] =>
             lazymatch m with
             | Ok _ => cbn [mbind result_bind]
             | Raise _ => cbn [mbind result_bind]
             | _ => destruct m; cbn [mbind result_bind]
             end
         end; auto.
  match goal with
  | |- context [match ?f with Some brush => conditions.MAT_TYPES_str _ | None => _ end] =>
      destruct f as [[sol nrm [|]]|]
  end; cbn; do 3 eexists; repeat split; reflexivity.
Qed.

(** *** Opposite directions *)

Lemma eq_or_opposite (v n : Vec) :
  Vec_methods.__eq__ v (OVec n) || Vec_methods.__eq__ (Vec_methods.__neg__ v) (OVec n)
  = Vec_methods.__eq__ v (OVec (Vec_methods.__neg__ n))
    || Vec_methods.__eq__ (Vec_methods.__neg__ v) (OVec (Vec_methods.__neg__ n)).
Proof.
  assert (H1 : Vec_methods.__eq__ v (OVec n)
               = Vec_methods.__eq__ (Vec_methods.__neg__ v) (OVec (Vec_methods.__neg__ n))).
  { unfold Vec_methods.__eq__, Vec_methods.__neg__. simpl.
    repeat match goal with
           | |- context [bool_decide ?P] => destruct (bool_decide_reflect P)
           end; simpl; try reflexivity; exfalso; lra. }
  assert (H2 : Vec_methods.__eq__ (Vec_methods.__neg__ v) (OVec n)
               = Vec_methods.__eq__ v (OVec (Vec_methods.__neg__ n))).
  { unfold Vec_methods.__eq__, Vec_methods.__neg__. simpl.
    repeat match goal with
           | |- context [bool_decide ?P] => destruct (bool_decide_reflect P)
           end; simpl; try reflexivity; exfalso; lra. }
  rewrite H1, H2. apply orb_comm.
Qed.

(** X23. With [allow_inverse] on, asking for a direction and asking for
    the opposite direction is the same test: two option blocks that differ
    only in the keyword, one for a normal and one for its negation, give the
    same answer (or raise the same exception) on every instance. *)
Theorem allow_inverse_symmetric (DIRECTIONS : gmap string conditions.direction)
    (inst : vmfLib.Entity) (name : string) (rest : list PP.Property)
    (keyword opposite text : string) (normal : Vec) :
  DIRECTIONS !! casefold keyword = Some (conditions.DVec normal) ->
  DIRECTIONS !! casefold opposite
    = Some (conditions.DVec (Vec_methods.__neg__ normal)) ->
  PP.get (PP.Block name rest) "allow_inverse" "0" = Ok text ->
  conv_bool_str text false = true ->
  flag_angles DIRECTIONS inst (PP.Block name (rest ++ [PP.Leaf "direction" keyword]))
  = flag_angles DIRECTIONS inst (PP.Block name (rest ++ [PP.Leaf "direction" opposite])).
Proof.
  intros Hk Ho Hinv Hon.
  unfold flag_angles, angles_options, PP.get in *. cbn [PP.has_children].
  rewrite !(find_key_last name rest _ "direction") by reflexivity.
  rewrite !(find_key_other name rest _ "from_dir"),
    !(find_key_other name rest _ "allow_inverse") by reflexivity.
  cbn [PP.value mbind result_bind].
  rewrite Hinv.
  destruct (match PP.find_key (PP.Block name rest) "from_dir" with
            | Some c => PP.value c
            | None => Ok "0 0 1"
            end) as [from_text|e]; cbn [mbind result_bind]; [|reflexivity].
  match goal with
  | |- context [mbind _ ?m] => destruct m as [from_dir|e]; cbn [mbind result_bind];
                               [|reflexivity]
  end.
  rewrite Hon, Hk, Ho.
  destruct (rotate_by_str from_dir _ 0 0 0 true) as [inst_normal|e];
    cbn [mbind result_bind]; [|reflexivity].
  f_equal. apply eq_or_opposite.
Qed.

Lemma allow_inverse_symmetric_witness :
  flag_angles DIRECTIONS0 goo_inst
    (PP.Block "angle" ([PP.Leaf "allow_inverse" "1"] ++ [PP.Leaf "direction" "+z"]))
  = flag_angles DIRECTIONS0 goo_inst
      (PP.Block "angle" ([PP.Leaf "allow_inverse" "1"] ++ [PP.Leaf "direction" "-z"])).
Proof.
  apply (allow_inverse_symmetric DIRECTIONS0 goo_inst "angle" [PP.Leaf "allow_inverse" "1"]
           "+z" "-z" "1" (mkVec 0 0 1)).
  - vm_compute. reflexivity.
  - change (DIRECTIONS0 !! casefold "-z") with (Some (conditions.DVec (mkVec 0 0 (-1)))).
    unfold Vec_methods.__neg__. simpl. do 3 f_equal; lra.
  - reflexivity.
  - reflexivity.
Defined.

End positioning_extra.

(* ===================================================================== *)
(** * More properties of conditions/resizableTrigger.py                *)
(* ===================================================================== *)

Module resizableTrigger_extra.
Import Py utils resizableTrigger spec samples.
Local Open Scope R_scope.

(** X25. The box of the trigger brush reaches 64 units beyond the two
    marker origins on every axis: from the smaller coordinate minus 64 to
    the larger plus 64.  A marker paired with itself gives the 128-unit cube
    around its origin. *)
Theorem trigger_bbox_margin (inst other : vmfLib.Entity) (a b : Vec) :
  from_str (vmfLib.getitem inst "origin") 0 0 0 = Ok a ->
  from_str (vmfLib.getitem other "origin") 0 0 0 = Ok b ->
  exists bbox_min bbox_max,
    trigger_bbox inst other = Ok (bbox_min, bbox_max) /\
    x bbox_min = Rmin (x a) (x b) - 64 /\ x bbox_max = Rmax (x a) (x b) + 64 /\
    y bbox_min = Rmin (y a) (y b) - 64 /\ y bbox_max = Rmax (y a) (y b) + 64 /\
    z bbox_min = Rmin (z a) (z b) - 64 /\ z bbox_max = Rmax (z a) (z b) + 64 /\
    (a = b ->
     x bbox_max - x bbox_min = 128 /\ y bbox_max - y bbox_min = 128 /\
     z bbox_max - z bbox_min = 128 /\
     x bbox_min = x a - 64 /\ y bbox_min = y a - 64 /\ z bbox_min = z a - 64).
Proof.
  intros Ha Hb. unfold trigger_bbox. rewrite Ha, Hb. cbn [mbind result_bind].
  unfold Vec_methods.bbox, Vec_methods.min, Vec_methods.max, Vec_methods.copy. simpl.
  do 2 eexists. split; [reflexivity|]. simpl.
  unfold Rmin, Rmax.
  destruct (Rgt_dec (x a) (x b)), (Rgt_dec (y a) (y b)), (Rgt_dec (z a) (z b)),
    (Rlt_dec (x a) (x b)), (Rlt_dec (y a) (y b)), (Rlt_dec (z a) (z b)),
    (Rle_dec (x a) (x b)), (Rle_dec (y a) (y b)), (Rle_dec (z a) (z b));
    try (exfalso; lra);
    do 6 (split; [lra|]); intros ->; repeat split; lra.
Qed.

Lemma trigger_bbox_margin_witness :
  exists bbox_min bbox_max,
    trigger_bbox goo_inst goo_inst = Ok (bbox_min, bbox_max) /\
    x bbox_min = Rmin 0 0 - 64 /\ x bbox_max = Rmax 0 0 + 64.
Proof.
  destruct (trigger_bbox_margin goo_inst goo_inst (mkVec 0 0 0) (mkVec 0 0 0))
    as (lo & hi & H & Hx1 & Hx2 & _).
  - unfold from_str. change (vmfLib.getitem goo_inst "origin") with (@inl string Vec "0 0 0").
    rewrite positioning_props.parse_zero. reflexivity.
  - unfold from_str. change (vmfLib.getitem goo_inst "origin") with (@inl string Vec "0 0 0").
    rewrite positioning_props.parse_zero. reflexivity.
  - exists lo, hi. auto.
Defined.

End resizableTrigger_extra.

(* ===================================================================== *)
(** * More properties of voiceLine.py                                  *)
(* ===================================================================== *)

Module voiceLine_extra.
Import Py utils voiceLine spec samples.

(** *** Relations that every step of a pass maintains *)

Lemma vmf_grows_refl vmf : vmf_grows vmf vmf.
Proof.
  split; [exists []; symmetry; apply app_nil_r|].
  intros i ent H. exists ent. repeat split; auto. exists []. symmetry. apply app_nil_r.
Qed.

Section invariant.
Variable R : globals -> globals -> Prop.
Hypothesis R_refl : forall g, R g g.
Hypothesis R_trans : forall g1 g2 g3, R g1 g2 -> R g2 g3 -> R g1 g3.
(** The writes of the pass to the module state. *)
Hypothesis R_VMF : forall g v,
  (forall vmf, VMF g = Some vmf -> exists vmf', v = Some vmf' /\ vmf_grows vmf vmf') ->
  forall r g', set_VMF v g = (r, g') -> R g g'.
Hypothesis R_bullseye : forall v,
  maintains R (do added <- read ADDED_BULLSEYES; set_ADDED_BULLSEYES ({[ v ]} ∪ added)).
Hypothesis R_stylevar : forall v,
  maintains R (do vars <- read style_vars; set_style_vars (<[ v := true ]> vars)).
Hypothesis R_packlist : forall v,
  maintains R (do packs <- read TO_PACK; set_TO_PACK ({[ v ]} ∪ packs)).
Hypothesis R_pack : forall files : list string,
  maintains R (do packed <- read PACK_FILES; set_PACK_FILES (list_to_set files ∪ packed)).
Hypothesis R_event : forall event, maintains R (resolve_event event).
Hypothesis R_mid : forall v, maintains R (set_ALLOW_MID_VOICES v).
Hypothesis R_disk : forall A (c : cmd OS A), maintains R (on_disk c).

Lemma maintains_ret {A} (a : A) : maintains R (cret a).
Proof using All. intros g r g' [= _ <-]. apply R_refl. Qed.

Lemma maintains_raise {A} (e : exn) : maintains R (@craise globals A e).
Proof using All. intros g r g' [= _ <-]. apply R_refl. Qed.

Lemma maintains_lift {A} (r : result A) : maintains R (lift r).
Proof using All. intros g r' g' [= _ <-]. apply R_refl. Qed.

Lemma maintains_read {A} (field : globals -> A) : maintains R (read field).
Proof using All. intros g r' g' [= _ <-]. apply R_refl. Qed.

Lemma maintains_bind {A B} (c : cmd globals A) (k : A -> cmd globals B) :
  maintains R c -> (forall a, maintains R (k a)) -> maintains R (cbind c k).
Proof using All.
  intros Hc Hk g r g'. unfold cbind. destruct (c g) as [[a|e] g1] eqn:Hcg.
  - intros H. eapply R_trans; [eapply Hc, Hcg | eapply Hk, H].
  - intros [= _ <-]. eapply Hc, Hcg.
Qed.

(** A write that depends on what was just read, followed by more. *)
Lemma maintains_read_then {A B C} (field : globals -> A) (write : A -> cmd globals B)
    (next : cmd globals C) :
  maintains R (do a <- read field; write a) -> maintains R next ->
  maintains R (do a <- read field; run write a; next).
Proof using All.
  intros Hw Hn g r g'. unfold cbind, read.
  destruct (write (field g) g) as [[b|e] g1] eqn:Hwg.
  - intros H. eapply R_trans; [|eapply Hn, H].
    eapply (Hw g (Ok b)). unfold cbind, read. exact Hwg.
  - intros [= _ <-]. eapply (Hw g (Raise e)). unfold cbind, read. exact Hwg.
Qed.

Lemma maintains_create_ent kv : maintains R (create_ent kv).
Proof using All.
  intros g r g'. unfold create_ent, cbind, read, craise, cret.
  destruct (VMF g) as [vmf|] eqn:Hv; [|intros [= _ <-]; apply R_refl].
  simpl. intros [= _ <-].
  eapply R_VMF with (r := Ok tt); [|unfold set_VMF; reflexivity].
  intros vmf0; rewrite Hv; intros [= <-].
  eexists; split; [reflexivity|]. split; [exists []; symmetry; apply app_nil_r|].
  intros i ent Hi. exists ent. simpl.
  split; [apply lookup_app_l_Some, Hi|]. repeat split; auto.
  exists []. symmetry. apply app_nil_r.
Qed.

Lemma maintains_add_out ent outs : maintains R (add_out ent outs).
Proof using All.
  intros g r g'. unfold add_out, cbind, read, craise.
  destruct (VMF g) as [vmf|] eqn:Hv; [|intros [= _ <-]; apply R_refl].
  intros Hs. eapply R_VMF; [|exact Hs]. intros vmf0; rewrite Hv; intros [= <-].
  eexists; split; [reflexivity|]. split; [exists []; symmetry; apply app_nil_r|].
  intros i e Hi. simpl.
  destruct (decide (i = ent)) as [->|Hne].
  - exists (vmfLib.add_out e outs). rewrite list_lookup_alter_eq, Hi. simpl.
    repeat split; auto. exists outs. reflexivity.
  - exists e. rewrite list_lookup_alter_ne by congruence.
    repeat split; auto. exists []. symmetry. apply app_nil_r.
Qed.

Lemma maintains_add_brushes solid : maintains R (add_brushes solid).
Proof using All.
  intros g r g'. unfold add_brushes, cbind, read, craise.
  destruct (VMF g) as [vmf|] eqn:Hv; [|intros [= _ <-]; apply R_refl].
  intros Hs. eapply R_VMF; [|exact Hs]. intros vmf0; rewrite Hv; intros [= <-].
  eexists; split; [reflexivity|]. split; [exists [solid]; reflexivity|].
  intros i e Hi. exists e. simpl. repeat split; auto. exists []. symmetry. apply app_nil_r.
Qed.

Create HintDb maintains.
#[local] Hint Resolve maintains_ret maintains_raise maintains_lift maintains_read
  maintains_create_ent maintains_add_out maintains_add_brushes
  R_bullseye R_stylevar R_packlist R_pack R_event R_mid R_disk : maintains.

Ltac maintains_step :=
  match goal with
  | |- maintains _ (cbind (read _) _) => solve [auto with maintains]
  | |- maintains _ (cbind (read ?f) (fun a => cbind (?w) (fun _ => ?next))) =>
      apply (maintains_read_then f (fun a => w) next); [solve [auto with maintains]|]
  | |- maintains _ (cbind _ _) => apply maintains_bind; [|intros ?]
  | |- maintains _ (if ?b then _ else _) => destruct b
  | |- maintains _ (match ?x with _ => _ end) => destruct x
  | |- maintains _ _ => solve [auto with maintains]
  end.
Ltac maintains_auto := repeat maintains_step.

Lemma maintains_for_each {A} (items : list A) (body : A -> cmd globals unit) :
  (forall item, maintains R (body item)) -> maintains R (for_each items body).
Proof using All. intros H. induction items as [|item items IH]; simpl; maintains_auto. Qed.

Lemma maintains_has_responses : maintains R has_responses.
Proof using All. unfold has_responses. maintains_auto. Qed.

Lemma maintains_find_group_quotes E group use_dings conf mid_name :
  maintains R (find_group_quotes E group use_dings conf mid_name).
Proof using All. unfold find_group_quotes. maintains_auto. Qed.

Lemma maintains_add_choreo c_line targetname loc use_dings is_first is_last only_once :
  maintains R (add_choreo c_line targetname loc use_dings is_first is_last only_once).
Proof using All. unfold add_choreo. maintains_auto. Qed.
#[local] Hint Resolve maintains_add_choreo maintains_has_responses maintains_find_group_quotes
  : maintains.

Lemma maintains_add_choreo_lines choreo_lines :
  forall ind count start off use_dings l,
    maintains R (add_choreo_lines ind count choreo_lines start off use_dings l).
Proof using All.
  induction choreo_lines as [|line rest IH]; intros; cbn [add_choreo_lines]; maintains_auto.
Qed.
#[local] Hint Resolve maintains_add_choreo_lines : maintains.

Lemma maintains_add_quote_prop quote_loc use_dings prop l :
  maintains R (add_quote_prop quote_loc use_dings prop l).
Proof using All. unfold add_quote_prop. maintains_auto. Qed.
#[local] Hint Resolve maintains_add_quote_prop : maintains.

Lemma maintains_add_quote_props quote_loc use_dings props :
  forall l, maintains R (add_quote_props quote_loc use_dings props l).
Proof using All.
  induction props as [|prop rest IH]; intros; cbn [add_quote_props]; maintains_auto.
Qed.
#[local] Hint Resolve maintains_add_quote_props : maintains.

Lemma maintains_add_quote quote targetname quote_loc use_dings :
  maintains R (add_quote quote targetname quote_loc use_dings).
Proof using All.
  unfold add_quote. maintains_auto. apply maintains_for_each. intros. maintains_auto.
Qed.
#[local] Hint Resolve maintains_add_quote : maintains.

Lemma maintains_add_group E map_seed use_priority quote_loc allow_dings group mid_quotes :
  maintains R (add_group E map_seed use_priority quote_loc allow_dings group mid_quotes).
Proof using All. unfold add_group. maintains_auto. Qed.
#[local] Hint Resolve maintains_add_group : maintains.

Lemma maintains_add_groups E map_seed use_priority quote_loc allow_dings groups :
  forall mid_quotes,
    maintains R (add_groups E map_seed use_priority quote_loc allow_dings groups mid_quotes).
Proof using All.
  induction groups as [|group rest IH]; intros; cbn [add_groups]; maintains_auto.
Qed.

Lemma maintains_add_event_insts quote_loc files :
  forall ind, maintains R (add_event_insts quote_loc ind files).
Proof using All.
  induction files as [|file rest IH]; intros; cbn [add_event_insts]; maintains_auto.
Qed.

Lemma maintains_add_microphone targetname speakername quote_loc :
  maintains R (add_microphone targetname speakername quote_loc).
Proof using All. unfold add_microphone. maintains_auto. Qed.

Lemma maintains_add_ding targetname scenefile origin :
  maintains R (add_ding targetname scenefile origin).
Proof using All. unfold add_ding. maintains_auto. Qed.
#[local] Hint Resolve maintains_add_groups maintains_add_event_insts maintains_add_microphone
  maintains_add_ding : maintains.

(** Everything [add_voice] does after its three assignments. *)
Lemma maintains_add_voice_rest E map_seed use_priority :
  maintains R (add_voice_rest E map_seed use_priority).
Proof using All.
  unfold add_voice_rest. maintains_auto.
  all: try (apply maintains_for_each; intros; maintains_auto).
  all: try (apply maintains_for_each; intros [[? ?] ?]; maintains_auto).
Qed.

End invariant.

(** *** The quote events *)

Lemma str_dict_set_keys (d : list (string * string)) (key val : string) :
  str_dict_has d key = true -> map fst (str_dict_set d key val) = map fst d.
Proof.
  unfold str_dict_has. induction d as [|[k v] d IH]; simpl; [discriminate|].
  destruct (String.eqb_spec k key) as [->|Hk]; simpl; [reflexivity|].
  intros H. rewrite (IH H). reflexivity.
Qed.

Lemma same_events_resolve_event event : maintains same_events (resolve_event event).
Proof.
  intros g r g'. unfold resolve_event, cbind, lift, read, set_QUOTE_EVENTS, cret, same_events.
  destruct (property_parser.get event "id" ""); [|intros [= _ <-]; reflexivity].
  destruct (negb _ && _) eqn:Hcond; [|intros [= _ <-]; reflexivity].
  apply andb_true_iff in Hcond as [_ Hhas].
  destruct (property_parser.getitem event "file"); intros [= _ <-]; [|reflexivity].
  simpl. apply str_dict_set_keys, Hhas.
Qed.

Ltac unchanged_field :=
  unfold maintains; intros;
  match goal with
  | H : _ = (_, _) |- _ =>
      unfold cbind, read, on_disk, set_VMF, set_ADDED_BULLSEYES, set_style_vars,
        set_TO_PACK, set_PACK_FILES, set_ALLOW_MID_VOICES, set_map_attr in H;
      try match type of H with
          | context [let '(_, _) := ?c in _] => destruct c
          end;
      injection H as _ <-
  end.

(** X26. A pass of [add_voice] registers no quote event and drops none:
    however it ends, the registered ids are the ones registered before, in
    the same order.  An event of the voice configuration that no condition
    has registered is ignored. *)
Theorem voice_pass_keeps_event_ids (E : env) (has_items style_vars_ : gmap string bool)
    (vmf_file : vmfLib.VMF) (map_seed : string) (use_priority : bool)
    (g : globals) (r : result unit) (g' : globals) :
  add_voice E has_items style_vars_ vmf_file map_seed use_priority g = (r, g') ->
  map fst (QUOTE_EVENTS g') = map fst (QUOTE_EVENTS g).
Proof.
  unfold add_voice, cbind at 1 2 3. simpl. intros H.
  apply (maintains_add_voice_rest same_events) in H; try exact H.
  - intros ?; reflexivity.
  - unfold same_events. intros g1 g2 g3 H1 H2. congruence.
  - unchanged_field. reflexivity.
  - unchanged_field. reflexivity.
  - unchanged_field. reflexivity.
  - unchanged_field. reflexivity.
  - unchanged_field. reflexivity.
  - apply same_events_resolve_event.
  - unchanged_field. reflexivity.
  - unchanged_field. reflexivity.
Qed.

Lemma voice_pass_keeps_event_ids_witness :
  let g := (res_quote_event quote_event0 g0).2 in
  map fst (QUOTE_EVENTS (pass g).2) = map fst (QUOTE_EVENTS g).
Proof.
  intros g.
  generalize (voice_pass_keeps_event_ids E0 ∅ ∅ vmfLib.empty_VMF "seed" true g).
  unfold pass. destruct (add_voice E0 ∅ ∅ vmfLib.empty_VMF "seed" true g) as [r g1].
  intros H. exact (H r g1 eq_refl).
Defined.

(** *** Settings *)






(** *** The document *)

Lemma vmf_grows_trans v1 v2 v3 : vmf_grows v1 v2 -> vmf_grows v2 v3 -> vmf_grows v1 v3.
Proof.
  intros [[m1 Hb1] He1] [[m2 Hb2] He2]. split.
  - exists (m1 ++ m2). rewrite Hb2, Hb1, app_assoc. reflexivity.
  - intros i ent Hi.
    destruct (He1 i ent Hi) as (e2 & Hi2 & K2 & F2 & S2 & o2 & O2).
    destruct (He2 i e2 Hi2) as (e3 & Hi3 & K3 & F3 & S3 & o3 & O3).
    exists e3. repeat split; try congruence.
    exists (o2 ++ o3). rewrite O3, O2, app_assoc. reflexivity.
Qed.

Lemma document_grows_refl g : document_grows g g.
Proof. intros vmf H. exists vmf. split; [exact H | apply vmf_grows_refl]. Qed.

Lemma document_grows_same g g' : VMF g' = VMF g -> document_grows g g'.
Proof. intros H vmf Hv. exists vmf. split; [congruence | apply vmf_grows_refl]. Qed.

Lemma document_grows_trans g1 g2 g3 :
  document_grows g1 g2 -> document_grows g2 g3 -> document_grows g1 g3.
Proof.
  intros H1 H2 vmf Hv. destruct (H1 vmf Hv) as (v2 & Hv2 & G2).
  destruct (H2 v2 Hv2) as (v3 & Hv3 & G3). exists v3. split; [exact Hv3|].
  eapply vmf_grows_trans; eauto.
Qed.

(** X28. Placing a quote only adds to the document.  [add_quote], which
    evaluates no flag, changes the document through [create_ent] and
    [add_out] alone: however it ends, the module still holds a document, in
    which every brush and every entity of the document before the call is
    still there, each entity at its place with its keyvalues, and with its
    outputs in front of any new ones. *)
Theorem add_quote_document_grows (quote : PP.Property) (targetname : string)
    (quote_loc : Vec) (use_dings : bool)
    (g : globals) (vmf : vmfLib.VMF) (r : result unit) (g' : globals) :
  VMF g = Some vmf ->
  add_quote quote targetname quote_loc use_dings g = (r, g') ->
  exists vmf', VMF g' = Some vmf' /\ vmf_grows vmf vmf'.
Proof.
  intros Hv H.
  apply (maintains_add_quote document_grows) in H.
  - apply (H vmf Hv).
  - apply document_grows_refl.
  - apply document_grows_trans.
  - intros g1 v Hv1 r1 g2 [= _ <-]. intros vmf1 Hvmf. simpl. auto.
  - unchanged_field. apply document_grows_same. reflexivity.
  - unchanged_field. apply document_grows_same. reflexivity.
  - unchanged_field. apply document_grows_same. reflexivity.
  - unchanged_field. apply document_grows_same. reflexivity.
  - intros event g1 r1 g2. unfold resolve_event, cbind, lift, read, set_QUOTE_EVENTS, cret.
    destruct (property_parser.get event "id" ""); [|intros [= _ <-]; apply document_grows_refl].
    destruct (negb _ && _); [|intros [= _ <-]; apply document_grows_refl].
    destruct (property_parser.getitem event "file"); intros [= _ <-];
      apply document_grows_same; reflexivity.
  - unchanged_field. apply document_grows_same. reflexivity.
  - unchanged_field. apply document_grows_same. reflexivity.
Qed.

Lemma add_quote_document_grows_witness :
  exists vmf',
    VMF (add_quote
           (PP.Block "line" [PP.Leaf "snd" "vo/hello.wav"; PP.Leaf "cc_emit" "hello"])
           "@line" (mkVec 0 0 0) false
           (mkGlobals ∅ ∅ ∅ [] (PP.Block "Quotes" []) false (Some vmfLib.empty_VMF) ∅ ∅
              (mkOS ∅ []))).2 = Some vmf' /\
    vmf_grows vmfLib.empty_VMF vmf'.
Proof.
  generalize (add_quote_document_grows
                (PP.Block "line" [PP.Leaf "snd" "vo/hello.wav"; PP.Leaf "cc_emit" "hello"])
                "@line" (mkVec 0 0 0) false
                (mkGlobals ∅ ∅ ∅ [] (PP.Block "Quotes" []) false (Some vmfLib.empty_VMF) ∅ ∅
                   (mkOS ∅ []))
                vmfLib.empty_VMF).
  destruct (add_quote _ _ _ _ _) as [r g1].
  intros H. exact (H r g1 eq_refl eq_refl).
Defined.

(** *** Bullseyes *)

(** X29. A [bullseye] property places one [npc_bullseye] entity, 16 units
    below the quote location, the first time its name is seen, and records
    the name; once the name is recorded the property changes nothing, so
    processing it again after that leaves everything as it is. *)
Theorem bullseye_placed_once (quote_loc : Vec) (use_dings : bool) (name v : string)
    (l : locals) (g : globals) (vmf : vmfLib.VMF) :
  casefold name = "bullseye" ->
  VMF g = Some vmf ->
  exists g1,
    add_quote_prop quote_loc use_dings (PP.Leaf name v) l g = (Ok l, g1) /\
    v ∈ ADDED_BULLSEYES g1 /\
    add_quote_prop quote_loc use_dings (PP.Leaf name v) l g1 = (Ok l, g1) /\
    (v ∈ ADDED_BULLSEYES g -> g1 = g) /\
    (v ∉ ADDED_BULLSEYES g ->
     VMF g1 = Some (vmfLib.mkVMF
       (vmfLib.entities vmf ++
        [vmfLib.mkEntity
           [ kv_str "classname" "npc_bullseye";
             kv_str "spawnflags" "222224";
             kv_str "targetname" v;
             kv_vec "origin" (Vec_methods.__sub__ quote_loc (OTuple (0, 0, 16)%R));
             kv_str "angles" "0 0 0" ] [] [] []])
       (vmfLib.brushes vmf))).
Proof.
  intros Hname Hvmf.
  assert (Hstep : forall g0,
    add_quote_prop quote_loc use_dings (PP.Leaf name v) l g0 =
    (do added <- read ADDED_BULLSEYES;
     run (if bool_decide (v ∈ added) then cret tt
          else
            do _ent <- create_ent
              [ kv_str "classname" "npc_bullseye";
                kv_str "spawnflags" "222224";
                kv_str "targetname" v;
                kv_vec "origin" (Vec_methods.__sub__ quote_loc (OTuple (0, 0, 16)%R));
                kv_str "angles" "0 0 0" ];
            do added <- read ADDED_BULLSEYES;
            set_ADDED_BULLSEYES ({[ v ]} ∪ added));
     cret l) g0).
  { intros g0. unfold add_quote_prop. cbn [PP.name]. rewrite Hname. reflexivity. }
  assert (Hseen : forall g0, v ∈ ADDED_BULLSEYES g0 ->
            add_quote_prop quote_loc use_dings (PP.Leaf name v) l g0 = (Ok l, g0)).
  { intros g0 Hin. rewrite Hstep. unfold cbind, read.
    rewrite bool_decide_eq_true_2 by exact Hin. reflexivity. }
  destruct (decide (v ∈ ADDED_BULLSEYES g)) as [Hin|Hnot].
  - exists g. split; [apply Hseen, Hin|]. split; [exact Hin|].
    split; [apply Hseen, Hin|]. split; [reflexivity|contradiction].
  - eexists. split; [|split; [|split; [|split]]].
    + rewrite Hstep. unfold cbind at 1 2, read at 1.
      rewrite bool_decide_eq_false_2 by exact Hnot.
      unfold create_ent, cbind, read, set_VMF, set_ADDED_BULLSEYES, cret. rewrite Hvmf.
      simpl. reflexivity.
    + simpl. set_solver.
    + apply Hseen. simpl. set_solver.
    + contradiction.
    + intros _. reflexivity.
Qed.

Lemma bullseye_placed_once_witness :
  exists g1,
    add_quote_prop (mkVec 0 0 0) false (PP.Leaf "Bullseye" "@cave")
      (mkLocals "@choreo" false None [] [])
      (mkGlobals ∅ ∅ ∅ [] (PP.Block "Quotes" []) false (Some vmfLib.empty_VMF) ∅ ∅
         (mkOS ∅ []))
    = (Ok (mkLocals "@choreo" false None [] []), g1) /\
    "@cave" ∈ ADDED_BULLSEYES g1.
Proof.
  destruct (bullseye_placed_once (mkVec 0 0 0) false "Bullseye" "@cave"
              (mkLocals "@choreo" false None [] [])
              (mkGlobals ∅ ∅ ∅ [] (PP.Block "Quotes" []) false (Some vmfLib.empty_VMF) ∅ ∅
                 (mkOS ∅ []))
              vmfLib.empty_VMF eq_refl eq_refl) as (g1 & H1 & H2 & _).
  exists g1. auto.
Defined.

(** *** Ranking *)

Lemma Decimal_not_ValueError (text : string) : Decimal text <> Raise ValueError.
Proof.
  unfold Decimal. destruct (py_float text) as [q|e] eqn:H; [discriminate|].
  destruct (utils_props.py_float_raises _ _ H) as [->| ->]; discriminate.
Qed.

Lemma sort_func_Decimal (q : PossibleQuote) : sort_func q = Decimal (priority q).
Proof.
  unfold sort_func, try_except.
  pose proof (Decimal_not_ValueError (priority q)) as H.
  destruct (Decimal (priority q)) as [k|e]; [reflexivity|].
  destruct (decide (e = ValueError)) as [->|]; [contradiction|].
  destruct e; try reflexivity; contradiction.
Qed.

Lemma insert_desc_perm (k : Q) (q : PossibleQuote) (ranked : list (Q * PossibleQuote)) :
  Permutation (insert_desc k q ranked) ((k, q) :: ranked).
Proof.
  induction ranked as [|[k' q'] rest IH]; simpl; [reflexivity|].
  destruct (Qle_bool k' k); [reflexivity|].
  rewrite IH. apply Permutation_swap.
Qed.

Lemma insert_desc_sorted (k : Q) (q : PossibleQuote) (ranked : list (Q * PossibleQuote)) :
  StronglySorted (fun a b => (b.1 <= a.1)%Q) ranked ->
  StronglySorted (fun a b => (b.1 <= a.1)%Q) (insert_desc k q ranked).
Proof.
  induction ranked as [|[k' q'] rest IH]; intros Hs; simpl.
  - constructor; constructor.
  - inversion Hs as [|? ? Hrest Hall]; subst.
    destruct (Qle_bool k' k) eqn:Hle.
    + apply Qle_bool_iff in Hle. constructor; [exact Hs|].
      constructor; [exact Hle|].
      eapply Forall_impl; [exact Hall|]. simpl. intros [k2 q2] H2. simpl in *.
      eapply Qle_trans; eauto.
    + assert (Hlt : (k < k')%Q).
      { apply Qnot_le_lt. intros H. apply Qle_bool_iff in H. congruence. }
      constructor; [apply IH, Hrest|].
      rewrite insert_desc_perm. constructor; [simpl; apply Qlt_le_weak, Hlt | exact Hall].
Qed.

Lemma mapM_keys (quotes : list PossibleQuote) :
  match mapM (fun q => k ← sort_func q; Ok (k, q)) quotes with
  | Ok keyed => map snd keyed = quotes /\ Forall (fun kq => sort_func kq.2 = Ok kq.1) keyed
  | Raise e => exists q, In q quotes /\ sort_func q = Raise e
  end.
Proof.
  induction quotes as [|q quotes IH]; simpl; [split; [reflexivity|constructor]|].
  destruct (sort_func q) as [k|e] eqn:Hk; simpl; [|exists q; auto].
  destruct (mapM _ quotes) as [keyed|e]; simpl.
  - destruct IH as [Hm Hf]. split; [congruence|]. constructor; [exact Hk|exact Hf].
  - destruct IH as (q' & Hin & Hq'). exists q'. auto.
Qed.

(** X30. [sorted(..., key=sort_func, reverse=True)] returns the same
    quotes, ordered by falling priority.  The handler of [sort_func] never
    runs, because [Decimal] does not raise [ValueError]: a quote whose
    priority is no number does not count as priority 0, its exception ends
    the sort. *)
Theorem sorted_desc_ranks (quotes : list PossibleQuote) :
  (forall q, sort_func q = Decimal (priority q)) /\
  match sorted_desc quotes with
  | Ok ranked =>
      Permutation ranked quotes /\
      exists keys,
        Forall2 (fun q k => sort_func q = Ok k) ranked keys /\
        StronglySorted (fun a b => (b <= a)%Q) keys
  | Raise e => exists q, In q quotes /\ sort_func q = Raise e
  end.
Proof.
  split; [apply sort_func_Decimal|].
  unfold sorted_desc. pose proof (mapM_keys quotes) as H.
  destruct (mapM _ quotes) as [keyed|e]; simpl; [|exact H].
  destruct H as [Hm Hf].
  set (ranked := foldr (fun kq acc => insert_desc kq.1 kq.2 acc) [] keyed).
  assert (Hperm : Permutation ranked keyed).
  { subst ranked. clear. induction keyed as [|[k q] keyed IH]; simpl; [reflexivity|].
    rewrite insert_desc_perm, IH. reflexivity. }
  assert (Hsorted : StronglySorted (fun a b => (b.1 <= a.1)%Q) ranked).
  { subst ranked. clear. induction keyed as [|[k q] keyed IH]; simpl; [constructor|].
    apply insert_desc_sorted, IH. }
  split.
  - rewrite <- Hm. apply Permutation_map, Hperm.
  - exists (map fst ranked). split.
    + assert (Hf' : Forall (fun kq => sort_func kq.2 = Ok kq.1) ranked).
      { rewrite Hperm. exact Hf. }
      clear -Hf'. induction Hf' as [|[k q] rest Hk _ IH]; simpl; constructor; auto.
    + clear -Hsorted. induction Hsorted as [|[k q] rest _ IH Hall]; simpl; constructor; auto.
      rewrite Forall_map. exact Hall.
Qed.

End voiceLine_extra.
